(** * QR code generator and scan tracker: a shallow embedding

  The development follows the JavaScript sources of the repository:
  the client-side rate limiter, the input validator, the encrypted
  localStorage vault ([SecurityUtils.CryptoManager]), the tiered record
  store ([FirebaseManager]) and the redirect page ([QRRedirectManager]);
  then the validation of uploaded logos and the sanitising of text
  ([SecurityUtils]), the handler of the generator page ([QRGenerator]),
  the pattern generator of [lib/qrcode.js], and the first versions of the
  store and of the redirect page.

  Conventions.
  - A JavaScript string is a sequence of UTF-16 code units; the embedding
    covers the code units 0..255, one [ascii] each, so [String.length] is
    the [.length] of the source.
  - [Date.now()], the random draws of the host and the answers of the
    network are inputs of the functions that read them.
  - A function that can throw returns a [result]; state that is mutated
    before the throw stays mutated, as in the source. *)

From Stdlib Require Import ZArith Lia Ascii String.
From Stdlib Require Strings.Byte.
From stdpp Require Import gmap strings list fin_maps.

Open Scope Z_scope.

(** ** Rate limiter ([class RateLimiter]) *)

Module RateLimiter.

(** [this.maxRequests] and [this.timeWindow] of the constructor. *)
Definition maxRequests : nat := 10.
Definition timeWindow : Z := 60000.

(** [userRequests.filter(time => now - time < this.timeWindow)] *)
Definition recent (now : Z) (userRequests : list Z) : list Z :=
  filter (λ time, now - time < timeWindow) userRequests.

(** [canMakeRequest(userId)]; [now] is the value of [Date.now()] in the
    call, [requests] is the [Map] held in [this.requests]. *)
Definition canMakeRequest (userId : string) (now : Z)
    (requests : gmap string (list Z)) : bool * gmap string (list Z) :=
  let userRequests := default [] (requests !! userId) in
  let recentRequests := recent now userRequests in
  if decide (maxRequests ≤ length recentRequests)%nat
  then (false, requests)
  else (true, <[userId := recentRequests ++ [now]]> requests).

(** [getRemainingRequests(userId)] *)
Definition getRemainingRequests (userId : string) (now : Z)
    (requests : gmap string (list Z)) : Z :=
  let userRequests := default [] (requests !! userId) in
  let recentRequests := recent now userRequests in
  Z.max 0 (Z.of_nat maxRequests - Z.of_nat (length recentRequests)).

(** A run of calls that are all admitted, threading the map; [None] as
    soon as one call is rejected. *)
Fixpoint admitted (userId : string) (times : list Z)
    (requests : gmap string (list Z)) : option (gmap string (list Z)) :=
  match times with
  | [] => Some requests
  | now :: times' =>
      match canMakeRequest userId now requests with
      | (true, requests') => admitted userId times' requests'
      | (false, _) => None
      end
  end.

(** The timestamps stored for a caller. *)
Definition stored (userId : string) (requests : gmap string (list Z)) : list Z :=
  default [] (requests !! userId).

End RateLimiter.

(** ** JavaScript strings and the regular expressions of the sources *)

Module JS.

Open Scope string_scope.

(** What a call that may throw gives back. *)
Inductive result (A : Type) : Type :=
| Ok (a : A)
| Throw (message : string).
Arguments Ok {A} a.
Arguments Throw {A} message.

Definition code (c : ascii) : nat := nat_of_ascii c.

(** [Canonicalize] of a RegExp with flag [i] and without flag [u]: the
    code unit is upper-cased, except that a code unit above 127 is never
    mapped into ASCII. Every pattern of the sources is ASCII, so only
    the letters a-z matter; other code units are kept. *)
Definition canonicalize (c : ascii) : ascii :=
  if (97 <=? code c)%nat && (code c <=? 122)%nat
  then ascii_of_nat (code c - 32) else c.

(** [String.prototype.toLowerCase] on the code units 0..255. *)
Definition lower_char (c : ascii) : ascii :=
  if ((65 <=? code c)%nat && (code c <=? 90)%nat)
     || ((192 <=? code c)%nat && (code c <=? 222)%nat && negb (code c =? 215)%nat)
  then ascii_of_nat (code c + 32) else c.

Fixpoint toLowerCase (s : string) : string :=
  match s with
  | "" => ""
  | String c s' => String (lower_char c) (toLowerCase s')
  end.

Fixpoint canon_str (s : string) : string :=
  match s with
  | "" => ""
  | String c s' => String (canonicalize c) (canon_str s')
  end.

(** [s.startsWith(p)] *)
Fixpoint startsWith (s p : string) {struct p} : bool :=
  match p with
  | "" => true
  | String a p' =>
      match s with
      | "" => false
      | String b s' => Ascii.eqb a b && startsWith s' p'
      end
  end.

(** [s.includes(pat)] *)
Fixpoint includes (s pat : string) : bool :=
  startsWith s pat
  || match s with
     | "" => false
     | String _ s' => includes s' pat
     end.

(** White space of [String.prototype.trim] among the code units 0..255:
    TAB, LF, VT, FF, CR, SP and NBSP. *)
Definition is_space (c : ascii) : bool :=
  ((9 <=? code c)%nat && (code c <=? 13)%nat)
  || (code c =? 32)%nat || (code c =? 160)%nat.

Fixpoint trimStart (s : string) : string :=
  match s with
  | "" => ""
  | String c s' => if is_space c then trimStart s' else s
  end.

Fixpoint trimEnd (s : string) : string :=
  match s with
  | "" => ""
  | String c s' =>
      match trimEnd s' with
      | "" => if is_space c then "" else String c ""
      | r => String c r
      end
  end.

Definition trim (s : string) : string := trimEnd (trimStart s).

(** [s.endsWith(suffix)]: some tail of [s] is [suffix]. *)
Fixpoint endsWith (s suffix : string) : bool :=
  String.eqb s suffix
  || match s with
     | "" => false
     | String _ s' => endsWith s' suffix
     end.

(** The fragment of regular expressions that the sources use: a run of
    literal characters, and [[^c]*]. All of them carry the flag [i]. *)
Inductive re_atom : Type :=
| Chars (p : string)
| NotStar (c : ascii).

Definition regex : Type := list re_atom.

(** Match the literal [p] at the head of [s], up to letter case; the
    rest of [s] on success. *)
Fixpoint lit_prefix (p s : string) : option string :=
  match p with
  | "" => Some s
  | String a p' =>
      match s with
      | "" => None
      | String b s' =>
          if Ascii.eqb (canonicalize a) (canonicalize b)
          then lit_prefix p' s' else None
      end
  end.

(** Does [r] match at the head of [s]? A backtracking matcher. *)
Fixpoint match_at (r : regex) : string → bool :=
  match r with
  | [] => λ _, true
  | Chars p :: r' => λ s,
      match lit_prefix p s with
      | Some rest => match_at r' rest
      | None => false
      end
  | NotStar c :: r' =>
      fix star (s : string) : bool :=
        match_at r' s
        || match s with
           | "" => false
           | String a s' => if Ascii.eqb a c then false else star s'
           end
  end.

(** [r.test(s)] for a RegExp without flag [g]: a match at some offset. *)
Fixpoint test (r : regex) (s : string) : bool :=
  match_at r s
  || match s with
     | "" => false
     | String _ s' => test r s'
     end.

(** The strings a regex denotes. *)
Fixpoint lang (r : regex) (m : string) : Prop :=
  match r with
  | [] => m = ""
  | Chars p :: r' =>
      ∃ mid rest, m = mid +:+ rest ∧ canon_str mid = canon_str p ∧ lang r' rest
  | NotStar c :: r' =>
      ∃ body rest, m = body +:+ rest ∧ includes body (String c "") = false ∧ lang r' rest
  end.

End JS.

(** ** Input validation ([SecurityUtils.validateQRInput]) *)

Module SecurityUtils.

Import JS.
Open Scope string_scope.

(** [const maliciousPatterns = [/<script[^>]*>/i, /javascript:/i, ...]] *)
Definition maliciousPatterns : list regex :=
  [ [Chars "<script"; NotStar ">"; Chars ">"];
    [Chars "javascript:"];
    [Chars "data:text/html"];
    [Chars "vbscript:"];
    [Chars "<iframe"; NotStar ">"; Chars ">"];
    [Chars "<object"; NotStar ">"; Chars ">"];
    [Chars "<embed"; NotStar ">"; Chars ">"] ].

(** [!s || s.trim().length === 0] *)
Definition blank (s : string) : bool :=
  String.eqb s "" || (String.length (trim s) =? 0)%nat.

(** [validateQRInput(text, name)]: [true], or the [Error] thrown. *)
Definition validateQRInput (text name : string) : result bool :=
  if blank text
  then Throw "Please enter some text or URL to generate QR code"
  else if (4000 <? String.length text)%nat
  then Throw "Text content too long (max 4000 characters)"
  else if blank name
  then Throw "Please enter a name/reference for this QR code"
  else if (100 <? String.length name)%nat
  then Throw "Name too long (max 100 characters)"
  else if existsb (λ pattern, test pattern text) maliciousPatterns
  then Throw "Invalid content detected in text"
  else if existsb (λ pattern, test pattern name) maliciousPatterns
  then Throw "Invalid content detected in name"
  else Ok true.

(** *** The blacklist, stated on the text *)

(** [w] is [p] up to the case of its letters. *)
Definition same_letters (w p : string) : Prop := canon_str w = canon_str p.

(** [s] contains the word [p], in any letter case. *)
Definition has_word (s p : string) : Prop :=
  ∃ pre w post, s = pre +:+ w +:+ post ∧ same_letters w p.

(** [s] contains an opening tag [p ... >], in any letter case. *)
Definition has_tag (s p : string) : Prop :=
  ∃ pre w attrs post,
    s = pre +:+ w +:+ attrs +:+ ">" +:+ post
    ∧ same_letters w p ∧ includes attrs ">" = false.

Definition injection (s : string) : Prop :=
  has_tag s "<script" ∨ has_word s "javascript:" ∨ has_word s "data:text/html"
  ∨ has_word s "vbscript:" ∨ has_tag s "<iframe" ∨ has_tag s "<object"
  ∨ has_tag s "<embed".

(** The errors of the content checks. *)
Definition security_error (r : result bool) : Prop :=
  r = Throw "Invalid content detected in text"
  ∨ r = Throw "Invalid content detected in name".

Definition rejected (r : result bool) : Prop := ∃ message, r = Throw message.

End SecurityUtils.

(** ** Values, the host and the state of the page *)

Module Model.

Import JS.
Open Scope string_scope.

(** The JavaScript values that the program stores and reads back:
    [undefined], [null], booleans, integers (every number of the program is
    a counter or a millisecond timestamp), strings and plain objects, whose
    own properties are kept in insertion order (the keys of the program are
    field names and base-36 ids, not array indices, which JavaScript would
    list first). Arrays do not occur in the stored data and are left out;
    inherited properties are not modelled. *)
#[warnings="-register-all"]
Inductive value : Type :=
| VUndefined
| VNull
| VBool (b : bool)
| VNum (n : Z)
| VStr (s : string)
| VObj (fields : list (string * value)).

(** [if (v)], [!v], [v || w] *)
Definition truthy (v : value) : bool :=
  match v with
  | VUndefined | VNull => false
  | VBool b => b
  | VNum n => negb (n =? 0)%Z
  | VStr s => negb (String.eqb s "")
  | VObj _ => true
  end.

Definition or_else (v w : value) : value := if truthy v then v else w.

Fixpoint assoc (k : string) (fields : list (string * value)) : value :=
  match fields with
  | [] => VUndefined
  | (k', v) :: rest => if String.eqb k' k then v else assoc k rest
  end.

(** Assignment to a property: an existing key keeps its place, a new key
    goes last. *)
Fixpoint assoc_set (k : string) (v : value) (fields : list (string * value))
  : list (string * value) :=
  match fields with
  | [] => [(k, v)]
  | (k', v') :: rest =>
      if String.eqb k' k then (k, v) :: rest else (k', v') :: assoc_set k v rest
  end.

(** The decimal numeral of an array index, for the index properties of a
    string. *)
Definition digit (c : ascii) : option nat :=
  if (48 <=? code c)%nat && (code c <=? 57)%nat then Some (code c - 48)%nat else None.

Fixpoint digits (s : string) (acc : nat) : option nat :=
  match s with
  | "" => Some acc
  | String c s' =>
      match digit c with
      | Some d => digits s' (10 * acc + d)%nat
      | None => None
      end
  end.

Definition index_of_key (k : string) : option nat :=
  match k with
  | "" => None
  | String "0" "" => Some 0%nat
  | String "0" _ => None
  | _ => digits k 0
  end.

(** [o[k]]: an own property of an object; the [length] and the index
    properties of a string; [undefined] otherwise. Reading a property of
    [undefined] or [null] throws: see [QRRedirectManager.read]. For a
    name that objects inherit ([ObjectPrototype.inherited]) the read of
    the source finds the inherited value instead. *)
Definition get_prop (o : value) (k : string) : value :=
  match o with
  | VObj fields => assoc k fields
  | VStr s =>
      if String.eqb k "length" then VNum (Z.of_nat (String.length s))
      else match index_of_key k with
           | Some i =>
               match String.get i s with
               | Some c => VStr (String c "")
               | None => VUndefined
               end
           | None => VUndefined
           end
  | _ => VUndefined
  end.

(** [o[k] = v] in sloppy mode: on an object the property is set, on a
    primitive the assignment is dropped. *)
Definition set_prop (o : value) (k : string) (v : value) : value :=
  match o with
  | VObj fields => VObj (assoc_set k v fields)
  | _ => o
  end.

(** [v + 1] for the outcome [v] of [x || 0], which is truthy or the
    number 0. The sum of two numbers is the one of the integers where it
    is exact ([ObjectPrototype.exact_successor]); beyond 2^53 the source
    rounds it. *)
Definition plus_one (v : value) : value :=
  match v with
  | VNum n => VNum (n + 1)
  | VBool true => VNum 2
  | VStr s => VStr (s +:+ "1")
  | VObj _ => VStr "[object Object]1"
  | _ => VNum 1
  end.

Definition bytes : Type := list Byte.byte.

(** The primitives of the browser that the program calls. A primitive that
    can throw gives [None] when it does. *)
Record Host (V : Type) : Type := {
  (** [JSON.stringify(data)] and [JSON.parse(text)] *)
  stringify : V → string;
  parse : string → option V;
  (** [new TextEncoder().encode(s)] and [new TextDecoder().decode(b)] *)
  utf8_encode : string → bytes;
  utf8_decode : bytes → string;
  (** [btoa(String.fromCharCode(...b))] and
      [new Uint8Array(atob(s).split('').map(c => c.charCodeAt(0)))] *)
  to_base64 : bytes → option string;
  from_base64 : string → option bytes;
  (** [crypto.subtle]: keys, and AES-GCM under a key and a nonce *)
  Key : Type;
  generateKey : nat → option Key;
  exportKey : Key → bytes;
  importKey : bytes → option Key;
  encrypt : Key → bytes → bytes → option bytes;
  decrypt : Key → bytes → bytes → option bytes;
  (** [crypto.getRandomValues(new Uint8Array(len))], the n-th draw *)
  random_bytes : nat → nat → bytes;
  (** [atob(decodeURIComponent(s))] *)
  decode_payload : string → option string;
  (** [Object.values(o).sort((a, b) => b.createdAt - a.createdAt)] *)
  sort_recent : list V → list V;
  (** [ref.orderByChild('createdAt').limitToLast(10)], children in the
      order [forEach] visits them *)
  query_recent : gmap string V → list V;
  (** [SecurityUtils.truncateText(text, maxLength)], which escapes through
      the DOM *)
  truncateText : V → nat → string;
}.

Arguments stringify {V} _ _.
Arguments parse {V} _ _.
Arguments utf8_encode {V} _ _.
Arguments utf8_decode {V} _ _.
Arguments to_base64 {V} _ _.
Arguments from_base64 {V} _ _.
Arguments Key {V} _.
Arguments generateKey {V} _ _.
Arguments exportKey {V} _ _.
Arguments importKey {V} _ _.
Arguments encrypt {V} _ _ _ _.
Arguments decrypt {V} _ _ _ _.
Arguments random_bytes {V} _ _ _.
Arguments decode_payload {V} _ _.
Arguments sort_recent {V} _ _.
Arguments query_recent {V} _ _.
Arguments truncateText {V} _ _ _.

(** What the primitives guarantee. *)
Record HostLaws {V : Type} (H : Host V) : Prop := {
  decode_encode : ∀ s, utf8_decode H (utf8_encode H s) = s;
  from_to_base64 : ∀ b s, to_base64 H b = Some s → from_base64 H s = Some b;
  base64_nonempty : ∀ b, to_base64 H b = Some "" → b = [];
  import_export : ∀ k, importKey H (exportKey H k) = Some k;
  export_nonempty : ∀ k, exportKey H k ≠ [];
  decrypt_encrypt : ∀ k iv plain cipher,
    encrypt H k iv plain = Some cipher → decrypt H k iv cipher = Some plain;
  random_length : ∀ n len, length (random_bytes H n len) = len;
  stringify_nonempty : ∀ v, stringify H v ≠ "";
}.

(** The state a call can read and change. *)
Record World : Type := mkWorld {
  (** [window.localStorage] *)
  localStorage : gmap string string;
  (** how many random draws the host has served *)
  entropy : nat;
  (** the first argument of each [console.log], [warn] and [error] *)
  console : list string;
  (** [typeof firebase !== 'undefined'] and [window.database] *)
  firebase_sdk : bool;
  database : bool;
  (** [firebaseInitialized] and [databaseAvailable] of the configuration
      script; the latter follows the [.info/connected] subscription *)
  firebaseInitialized : bool;
  databaseAvailable : bool;
  (** the children of [qr-codes] in the Realtime Database, and whether a
      request to it is answered *)
  remote : gmap string value;
  remote_up : bool;
}.

Definition with_localStorage (f : gmap string string → gmap string string) (w : World) : World :=
  mkWorld (f (localStorage w)) (entropy w) (console w) (firebase_sdk w) (database w)
          (firebaseInitialized w) (databaseAvailable w) (remote w) (remote_up w).

Definition with_entropy (n : nat) (w : World) : World :=
  mkWorld (localStorage w) n (console w) (firebase_sdk w) (database w)
          (firebaseInitialized w) (databaseAvailable w) (remote w) (remote_up w).

Definition with_console (c : list string) (w : World) : World :=
  mkWorld (localStorage w) (entropy w) c (firebase_sdk w) (database w)
          (firebaseInitialized w) (databaseAvailable w) (remote w) (remote_up w).

Definition with_remote (f : gmap string value → gmap string value) (w : World) : World :=
  mkWorld (localStorage w) (entropy w) (console w) (firebase_sdk w) (database w)
          (firebaseInitialized w) (databaseAvailable w) (f (remote w)) (remote_up w).

Definition with_connected (b : bool) (w : World) : World :=
  mkWorld (localStorage w) (entropy w) (console w) (firebase_sdk w) (database w)
          (firebaseInitialized w) b (remote w) (remote_up w).

(** Computations over the state that may throw. *)
Definition M (A : Type) : Type := World → result A * World.

Definition ret {A : Type} (a : A) : M A := λ w, (Ok a, w).

Definition throw {A : Type} (message : string) : M A := λ w, (Throw message, w).

Definition bind {A B : Type} (m : M A) (k : A → M B) : M B :=
  λ w, match m w with
       | (Ok a, w') => k a w'
       | (Throw e, w') => (Throw e, w')
       end.

(** [try { m } catch (error) { handler }] *)
Definition try_catch {A : Type} (m : M A) (handler : string → M A) : M A :=
  λ w, match m w with
       | (Ok a, w') => (Ok a, w')
       | (Throw e, w') => handler e w'
       end.

Definition or_throw {A : Type} (message : string) (o : option A) : M A :=
  match o with
  | Some a => ret a
  | None => throw message
  end.

Definition log (line : string) : M unit :=
  λ w, (Ok tt, with_console (console w ++ [line]) w).

(** [localStorage.getItem], [setItem] and [removeItem] *)
Definition storage_get (k : string) : M (option string) :=
  λ w, (Ok (localStorage w !! k), w).

Definition storage_set (k v : string) : M unit :=
  λ w, (Ok tt, with_localStorage (insert k v) w).

Definition storage_remove (k : string) : M unit :=
  λ w, (Ok tt, with_localStorage (delete k) w).

(** A string read from storage or from the URL, where [null] and the empty
    string are falsy. *)
Definition present (o : option string) : option string :=
  match o with
  | Some "" => None
  | _ => o
  end.

(** *** Vocabulary of the statements *)

(** The part of the page that belongs to Firebase. *)
Definition backend (w : World) : bool * bool * bool * bool * gmap string value * bool :=
  (firebase_sdk w, database w, firebaseInitialized w, databaseAvailable w,
   remote w, remote_up w).

(** A computation that leaves the Firebase part alone. *)
Definition keeps_backend {A : Type} (m : M A) : Prop :=
  ∀ w, backend (snd (m w)) = backend w.



End Model.

Notation "'let*' x ':=' m 'in' k" := (Model.bind m (λ x, k))
  (at level 10, x name, m at level 100, k at level 200,
   format "'[v' 'let*'  x  ':='  m  'in' '/' k ']'").
Notation "'let*' '_' ':=' m 'in' k" := (Model.bind m (λ _, k))
  (at level 10, m at level 100, k at level 200,
   format "'[v' 'let*'  '_'  ':='  m  'in' '/' k ']'").

(** ** The properties that every object inherits *)

Module ObjectPrototype.

Open Scope string_scope.

(** The names of the properties of [Object.prototype]. A read [o[k]] of
    an object that has no own property [k] finds them there (each is a
    function, or the prototype itself, hence truthy), and an assignment
    to [__proto__] sets the prototype instead of a property. So
    [Model.get_prop] and [Model.set_prop], which speak of own
    properties, are [o[k]] and [o[k] = v] of an object for every name
    [k] that is none of these; statements about a name that comes from
    outside (the id of a link) say so. *)
Definition names : list string :=
  [ "constructor"; "__defineGetter__"; "__defineSetter__"; "hasOwnProperty";
    "__lookupGetter__"; "__lookupSetter__"; "isPrototypeOf"; "propertyIsEnumerable";
    "toString"; "valueOf"; "__proto__"; "toLocaleString" ].

Definition inherited (k : string) : bool := existsb (String.eqb k) names.

(** The integers [n] for which the sum [n + 1] of two JavaScript numbers
    is exact: both [n] and [n + 1] are at most 2^53 in absolute value.
    [Model.plus_one] is [v + 1] for such a number. *)
Definition exact_successor (n : Z) : Prop :=
  (-9007199254740992 ≤ n < 9007199254740992)%Z.

End ObjectPrototype.

(** ** The encrypted vault ([SecurityUtils.CryptoManager]) *)

Module CryptoManager.

Import JS Model.
Open Scope string_scope.

Section Vault.

Context {V : Type} (H : Host V).

Definition key_slot : string := "app_crypto_key_v2".

(** [`encrypted_${key}`] *)
Definition encrypted_slot (key : string) : string := "encrypted_" +:+ key.

(** [crypto.getRandomValues(new Uint8Array(len))] *)
Definition getRandomValues (len : nat) : M bytes :=
  λ w, (Ok (random_bytes H (entropy w) len), with_entropy (S (entropy w)) w).

(** [crypto.subtle.generateKey({name: 'AES-GCM', length: 256}, true, ...)] *)
Definition subtle_generateKey : M (Key H) :=
  λ w, match generateKey H (entropy w) with
       | Some key => (Ok key, with_entropy (S (entropy w)) w)
       | None => (Throw "generateKey failed", w)
       end.

(** [getOrCreateKey()] *)
Definition getOrCreateKey : M (Key H) :=
  let* keyData := storage_get key_slot in
  match present keyData with
  | None =>
      let* key := subtle_generateKey in
      let exportedKey := exportKey H key in
      let* keyData := or_throw "btoa failed" (to_base64 H exportedKey) in
      let* _ := storage_set key_slot keyData in
      ret key
  | Some keyData =>
      let* keyBuffer := or_throw "atob failed" (from_base64 H keyData) in
      or_throw "importKey failed" (importKey H keyBuffer)
  end.

(** The [try] block of [setItem]. *)
Definition setItem_secure (key : string) (data : V) : M unit :=
  let* cryptoKey := getOrCreateKey in
  let* iv := getRandomValues 12 in
  let encodedData := utf8_encode H (stringify H data) in
  let* encryptedData := or_throw "encrypt failed" (encrypt H cryptoKey iv encodedData) in
  let combined := (iv ++ encryptedData)%list in
  let* encrypted := or_throw "btoa failed" (to_base64 H combined) in
  storage_set (encrypted_slot key) encrypted.

(** [setItem(key, data)] *)
Definition setItem (key : string) (data : V) : M unit :=
  try_catch (setItem_secure key data)
    (λ error,
       let* _ := log "Secure storage failed:" in
       storage_set key (stringify H data)).

(** [getItem(key)]; [None] is the [null] of the source. *)
Definition getItem (key : string) : M (option V) :=
  try_catch
    (let* encrypted := storage_get (encrypted_slot key) in
     match present encrypted with
     | Some encrypted =>
         let* cryptoKey := getOrCreateKey in
         let* combined := or_throw "atob failed" (from_base64 H encrypted) in
         let iv := take 12 combined in
         let data := drop 12 combined in
         let* decryptedData := or_throw "decrypt failed" (decrypt H cryptoKey iv data) in
         let decodedData := utf8_decode H decryptedData in
         let* parsed := or_throw "JSON.parse failed" (parse H decodedData) in
         ret (Some parsed)
     | None =>
         let* regular := storage_get key in
         match present regular with
         | Some regular =>
             let* data := or_throw "JSON.parse failed" (parse H regular) in
             let* _ := setItem key data in
             let* _ := storage_remove key in
             ret (Some data)
         | None => ret None
         end
     end)
    (λ error,
       let* _ := log "Secure retrieval failed:" in
       ret None).

(** *** Vocabulary of the statements *)

(** The world after a key was made and stored. *)
Definition keyed (keyData : string) (w : World) : World :=
  with_localStorage (insert key_slot keyData) (with_entropy (S (entropy w)) w).

(** A key slot from which [getOrCreateKey] imports the key [k]. *)
Definition holds_key (k : Key H) (w : World) : Prop :=
  ∃ keyData keyBuffer,
    keyData ≠ "" ∧ localStorage w !! key_slot = Some keyData
    ∧ from_base64 H keyData = Some keyBuffer ∧ importKey H keyBuffer = Some k.

End Vault.

End CryptoManager.

(** ** The tiered record store ([FirebaseManager], [FirebaseStatus]) *)

Module FirebaseStatus.

Import JS Model.
Open Scope string_scope.

Definition isAvailable (w : World) : bool := firebaseInitialized w && databaseAvailable w.

Definition isInitialized (w : World) : bool := firebaseInitialized w.

Definition getStatus (w : World) : string :=
  if negb (firebaseInitialized w) then "offline"
  else if negb (databaseAvailable w) then "disconnected"
  else "connected".

(** The listener on [.info/connected]: [snapshot.val() === true]. *)
Definition on_connected (snapshot : bool) : M unit :=
  λ w, let wasAvailable := databaseAvailable w in
       let w' := with_connected snapshot w in
       if negb snapshot && wasAvailable
       then log "Firebase database disconnected - using local storage fallback" w'
       else if snapshot && negb wasAvailable
       then log "Firebase database reconnected" w'
       else (Ok tt, w').

End FirebaseStatus.

Module FirebaseManager.

Import JS Model.
Open Scope string_scope.

Section Store.

Context (H : Host value).

(** The test of every operation:
    [typeof firebase !== 'undefined' && window.database]. *)
Definition uses_remote : M bool := λ w, (Ok (firebase_sdk w && database w), w).

(** The calls on [window.database.ref('qr-codes/' + qrId)]. *)
Definition ref_set (qrId : string) (v : value) : M unit :=
  λ w, if remote_up w then (Ok tt, with_remote (insert qrId v) w)
       else (Throw "network error", w).

Definition ref_once (qrId : string) : M value :=
  λ w, if remote_up w then (Ok (default VNull (remote w !! qrId)), w)
       else (Throw "network error", w).

Definition ref_transaction (qrId : string) (update : value → value) : M unit :=
  λ w, if remote_up w
       then match update (default VNull (remote w !! qrId)) with
            | VNull | VUndefined => (Ok tt, w)
            | v => (Ok tt, with_remote (insert qrId v) w)
            end
       else (Throw "network error", w).

Definition ref_recent : M (list value) :=
  λ w, if remote_up w then (Ok (query_recent H (remote w)), w)
       else (Throw "network error", w).

(** [await SecurityUtils.CryptoManager.getItem('qr-codes') || {}] *)
Definition load_local : M value :=
  let* stored := CryptoManager.getItem H "qr-codes" in
  ret (or_else (default VNull stored) (VObj [])).

(** [createQRCode(originalText, name, logoPath)]; [qrId] is the id that
    [generateUniqueId()] draws, [now] is [Date.now()] and [server_now] the
    value the database puts for [ServerValue.TIMESTAMP]. *)
Definition createQRCode (qrId : string) (now server_now : Z)
    (originalText name : string) (logoPath : value) : M string :=
  try_catch
    (let qrData := VObj [("id", VStr qrId); ("name", VStr name);
                         ("originalText", VStr originalText); ("logoPath", logoPath);
                         ("scanCount", VNum 0); ("createdAt", VNum now);
                         ("lastScanned", VNull)] in
     let* remote := uses_remote in
     let* _ :=
       if remote then
         let* _ := ref_set qrId (set_prop qrData "createdAt" (VNum server_now)) in
         log "QR code created successfully in Firebase:"
       else
         let* localQRs := load_local in
         let localQRs := set_prop localQRs qrId qrData in
         let* _ := CryptoManager.setItem H "qr-codes" localQRs in
         log "QR code created successfully locally:" in
     ret qrId)
    (λ error,
       let* _ := log "Error creating QR code:" in
       throw error).

(** [getQRCode(qrId)] *)
Definition getQRCode (qrId : string) : M value :=
  try_catch
    (let* remote := uses_remote in
     if remote then ref_once qrId
     else
       let* localQRs := load_local in
       ret (or_else (get_prop localQRs qrId) VNull))
    (λ error,
       let* _ := log "Error getting QR code:" in
       throw error).

(** The two assignments of [incrementScanCount] on a record. *)
Definition scanned (record : value) (time : Z) : value :=
  let count := plus_one (or_else (get_prop record "scanCount") (VNum 0)) in
  set_prop (set_prop record "scanCount" count) "lastScanned" (VNum time).

(** [incrementScanCount(qrId)] *)
Definition incrementScanCount (now server_now : Z) (qrId : string) : M unit :=
  try_catch
    (let* remote := uses_remote in
     if remote then
       let* _ := ref_transaction qrId
                   (λ currentData,
                      if truthy currentData then scanned currentData server_now
                      else currentData) in
       log "Scan count incremented for:"
     else
       let* localQRs := load_local in
       let* _ :=
         if truthy (get_prop localQRs qrId) then
           let localQRs := set_prop localQRs qrId (scanned (get_prop localQRs qrId) now) in
           CryptoManager.setItem H "qr-codes" localQRs
         else ret tt in
       log "Scan count incremented locally for:")
    (λ error,
       let* _ := log "Error incrementing scan count:" in
       throw error).

(** [Object.values(o)] *)
Definition object_values (o : value) : list value :=
  match o with
  | VObj fields => map snd fields
  | VStr s => map (λ c, VStr (String c "")) (list_ascii_of_string s)
  | _ => []
  end.

(** [getRecentQRCodes()] *)
Definition getRecentQRCodes : M (list value) :=
  try_catch
    (let* remote := uses_remote in
     if remote then
       let* children := ref_recent in
       ret (rev children)
     else
       let* localQRs := load_local in
       ret (take 10 (sort_recent H (object_values localQRs))))
    (λ error,
       let* _ := log "Error getting recent QR codes:" in
       ret []).

End Store.

End FirebaseManager.

(** ** The redirect page ([class QRRedirectManager], the version with the
       fallback payload and the domain whitelist) *)

Module QRRedirectManager.

Import JS Model.
Open Scope string_scope.

(** What the page reads of a parsed [URL]. *)
Record URL : Type := { protocol : string; hostname : string }.

(** What the user of the page sees, in order. *)
Inductive effect : Type :=
| ShowError (message : string)
| Announce (text : string)
| Navigate (href : string)
| Confirm (message : string)
| ShowText (text : string)
| Uncaught (message : string).

(** [window.FirebaseManager], as far as the page calls it. *)
Record Manager : Type := {
  fm_getQRCode : string → M value;
  fm_incrementScanCount : string → M unit;
}.

Definition newline : string := String (ascii_of_nat 10) "".

(** [o[k]] where [o] may be [null]: the read of a property throws then. *)
Definition read (o : value) (k : string) : M value :=
  match o with
  | VNull | VUndefined => throw "Cannot read properties of null"
  | _ => ret (get_prop o k)
  end.

Section Page.

(** [new URL(s)], [None] when it throws; [confirm(message)]; the scripts
    the page has loaded; the test on [navigator.userAgent]. *)
Context (H : Host value) (parseURL : string → option URL) (confirm : string → bool).
Context (manager : option Manager) (securityUtils : bool) (isMobile : bool).

Definition allowedDomains : list string :=
  [ "meet.google.com"; "zoom.us"; "teams.microsoft.com"; "webex.com";
    "gotomeeting.com"; "youtube.com"; "www.youtube.com"; "docs.google.com";
    "drive.google.com" ].

(** [isWhitelistedDomain(url)] *)
Definition isWhitelistedDomain (url : string) : bool :=
  match parseURL url with
  | Some urlObj =>
      let hostname := toLowerCase (hostname urlObj) in
      existsb (λ domain, String.eqb hostname domain || endsWith hostname ("." +:+ domain))
              allowedDomains
  | None => false
  end.

Definition dangerousPatterns : list string :=
  [ "javascript:"; "data:"; "vbscript:"; "file:"; "ftp:" ].

(** [isValidURL(string)] *)
Definition isValidURL (string : string) : bool :=
  match parseURL string with
  | Some url =>
      if negb (existsb (String.eqb (protocol url)) ["http:"; "https:"]) then false
      else
        let lowerString := toLowerCase string in
        if existsb (λ pattern, includes lowerString pattern) dangerousPatterns then false
        else true
  | None =>
      if includes string ".com" || includes string ".org"
         || includes string ".net" || includes string "www."
      then match parseURL ("https://" +:+ string) with
           | Some _ => true
           | None => false
           end
      else false
  end.

Definition confirmation (originalText : string) : string :=
  "This QR code wants to redirect you to an external website:" +:+ newline +:+ newline
  +:+ originalText +:+ newline +:+ newline +:+ "Do you want to continue?".

(** [redirectToOriginal(originalText)] *)
Definition redirectToOriginal (originalText : string) : list effect :=
  if isValidURL originalText then
    if isWhitelistedDomain originalText then [Navigate originalText]
    else if confirm (confirmation originalText)
         then [Confirm (confirmation originalText); Navigate originalText]
         else [Confirm (confirmation originalText); ShowText originalText]
  else [ShowText originalText].

(** The body of the timer that [init] sets: [redirectToOriginal] on
    [qrData.originalText], which throws out of [isValidURL] when the value
    is not a string. *)
Definition dispatch (originalText : value) : list effect :=
  match originalText with
  | VStr s => redirectToOriginal s
  | _ => [Uncaught "TypeError"]
  end.

(** The part of [init] that looks for the record, in the three steps of
    the source; each gives the value left in [qrData] and in [dataSource]. *)

(** "First try Firebase if available" *)
Definition try_firebase (qrId : string) : M (value * string) :=
  match manager with
  | Some firebaseManager =>
      try_catch
        (let* _ := log "Attempting Firebase access..." in
         let* qrData := fm_getQRCode firebaseManager qrId in
         if truthy qrData
         then let* _ := log "Data found in Firebase" in ret (qrData, "firebase")
         else ret (qrData, "none"))
        (λ error,
           let* _ := log "Firebase unavailable:" in
           ret (VNull, "none"))
  | None =>
      let* _ := log "FirebaseManager not available" in
      ret (VNull, "none")
  end.

(** "If Firebase failed, try localStorage fallback directly": the body of
    [if (!qrData)], with the attempt on the legacy slot in its [catch]. *)
Definition try_localStorage (qrId : string) (found : value * string) : M (value * string) :=
  let* _ := log "Trying localStorage fallback..." in
  try_catch
    (if securityUtils then
       let* stored := CryptoManager.getItem H "qr-codes" in
       let localQRs := or_else (default VNull stored) (VObj []) in
       let qrData := or_else (get_prop localQRs qrId) VNull in
       if truthy qrData
       then let* _ := log "Data found in encrypted localStorage" in
            ret (qrData, "encrypted_storage")
       else ret (qrData, "none")
     else
       let* _ := log "SecurityUtils not available, trying direct localStorage" in
       ret (fst found, "none"))
    (λ error,
       let* _ := log "Encrypted localStorage access failed:" in
       (* Final fallback - try unencrypted localStorage (legacy support) *)
       try_catch
         (let* _ := log "Trying unencrypted localStorage..." in
          let* unencryptedData := storage_get "qr-codes" in
          match present unencryptedData with
          | Some unencryptedData =>
              let* parsedData := or_throw "JSON.parse failed" (parse H unencryptedData) in
              let* entry := read parsedData qrId in
              let qrData := or_else entry VNull in
              if truthy qrData
              then let* _ := log "Data found in unencrypted localStorage" in
                   ret (qrData, "unencrypted_storage")
              else ret (qrData, "none")
          | None => ret (fst found, "none")
          end)
         (λ legacyError,
            let* _ := log "Legacy localStorage also failed:" in
            ret (fst found, "none"))).

(** "Try URL fallback data": the body of the second [if (!qrData)]. *)
Definition try_url_fallback (qrId : string) (fallbackData : option string)
    (found : value * string) : M (value * string) :=
  match present fallbackData with
  | Some fallbackData =>
      try_catch
        (let* _ := log "Trying URL fallback data..." in
         let* decodedData := or_throw "atob failed" (decode_payload H fallbackData) in
         let* fallbackQRData := or_throw "JSON.parse failed" (parse H decodedData) in
         let* name := read fallbackQRData "name" in
         let* text := read fallbackQRData "text" in
         let* created := read fallbackQRData "created" in
         let qrData := VObj [("id", VStr qrId); ("name", name); ("originalText", text);
                             ("createdAt", created); ("scanCount", VNum 0)] in
         let* _ := log "Data found in URL fallback" in
         ret (qrData, "url_fallback"))
        (λ fallbackError,
           let* _ := log "URL fallback failed:" in
           ret found)
  | None => ret found
  end.

Definition resolve (qrId : string) (fallbackData : option string) : M (value * string) :=
  let* found := try_firebase qrId in
  let* found := if truthy (fst found) then ret found else try_localStorage qrId found in
  if truthy (fst found) then ret found else try_url_fallback qrId fallbackData found.

(** *** Vocabulary of the statements *)

(** [s] contains [p]. *)
Definition contains (s p : string) : Prop := ∃ pre post, s = pre +:+ p +:+ post.

(** [s] contains [p] in some letter case ([p] is in lower case). *)
Definition contains_ci (s p : string) : Prop :=
  ∃ pre w post, s = pre +:+ w +:+ post ∧ toLowerCase w = p.

(** [s] parses as a URL whose host is an allowed domain or a subdomain of
    one. *)
Definition allow_listed (s : string) : Prop :=
  ∃ url domain,
    parseURL s = Some url ∧ domain ∈ allowedDomains
    ∧ (toLowerCase (hostname url) = domain
       ∨ ∃ sub, toLowerCase (hostname url) = sub +:+ "." +:+ domain).

Definition not_found_message : string :=
  if isMobile
  then "QR code not found. This may be because mobile browsers have stricter security settings. Please try opening this link in your mobile browser instead of scanning."
  else "QR code not found or has expired. This may be due to a database connection issue.".

Definition failure_message (error : string) : string :=
  if isMobile
  then "Mobile scanning error: " +:+ error +:+ ". Please try copying the link instead of scanning."
  else "Unable to process your request: " +:+ error +:+ ". Please try again later.".

(** [init()]; [qrId] and [fallbackData] are the [id] and [data] parameters
    of the URL. The effects include those of the timer that [init] sets. *)
Definition init (qrId fallbackData : option string) : M (list effect) :=
  match present qrId with
  | None => ret [ShowError "Invalid QR code link. No ID found."]
  | Some qrId =>
      let* _ := log "Device type:" in
      let* _ := log "Looking for QR ID:" in
      try_catch
        (let* found := resolve qrId fallbackData in
         let qrData := fst found in
         if negb (truthy qrData) then
           let* _ := log "No data found. Checked sources: Firebase, encrypted storage, unencrypted storage" in
           ret [ShowError not_found_message]
         else
           let* _ := log "Successfully found QR data from:" in
           (* Try to increment scan count (if Firebase is available) *)
           let* _ :=
             try_catch
               (match manager with
                | Some firebaseManager => fm_incrementScanCount firebaseManager qrId
                | None => ret tt
                end)
               (λ error, log "Could not increment scan count (Firebase unavailable):") in
           if securityUtils then
             let sanitizedText := truncateText H (get_prop qrData "originalText") 50 in
             ret (Announce ("Redirecting to: " +:+ sanitizedText)
                  :: dispatch (get_prop qrData "originalText"))
           else throw "SecurityUtils is not defined")
        (λ error,
           let* _ := log "Redirect error:" in
           ret [ShowError (failure_message error)])
  end.

End Page.

(** The manager that the configuration script installs, on a page that
    has loaded the security script too: without [SecurityUtils] a call on
    the local tier throws at its first reference to it. *)
Definition firebaseManager (H : Host value) (now server_now : Z) : Manager :=
  {| fm_getQRCode := FirebaseManager.getQRCode H;
     fm_incrementScanCount := FirebaseManager.incrementScanCount H now server_now |}.

End QRRedirectManager.

(** ** An in-memory host, to run the model on concrete inputs *)

Module Demo.

Import JS Model.
Open Scope string_scope.

(** *** A printer and a parser for the JSON text of a [value] *)

Definition digit_char (d : N) : ascii := ascii_of_N (48 + d).

Fixpoint print_N_aux (fuel : nat) (n : N) (acc : string) : string :=
  match fuel with
  | O => acc
  | S fuel' =>
      let acc' := String (digit_char (n mod 10)) acc in
      if (n / 10 =? 0)%N then acc' else print_N_aux fuel' (n / 10) acc'
  end.

Definition print_N (n : N) : string := print_N_aux (S (N.to_nat (N.log2 n))) n "".

Definition print_Z (n : Z) : string :=
  match n with
  | Zneg p => String "-" (print_N (Npos p))
  | _ => print_N (Z.to_N n)
  end.

Definition quote : string := String (ascii_of_nat 34) "".

(** Properties whose value is [undefined] are left out, as
    [JSON.stringify] does; strings are printed without escapes. *)
Fixpoint print (v : value) : string :=
  match v with
  | VUndefined | VNull => "null"
  | VBool true => "true"
  | VBool false => "false"
  | VNum n => print_Z n
  | VStr s => quote +:+ s +:+ quote
  | VObj fields =>
      let fix members (first : bool) (l : list (string * value)) : string :=
        match l with
        | [] => ""
        | (_, VUndefined) :: rest => members first rest
        | (k, v) :: rest =>
            (if first then "" else ",") +:+ quote +:+ k +:+ quote +:+ ":"
            +:+ print v +:+ members false rest
        end in
      "{" +:+ members true fields +:+ "}"
  end.

(** The text up to the next double quote, and the text after it. *)
Fixpoint until_quote (s : string) : option (string * string) :=
  match s with
  | "" => None
  | String c rest =>
      if Ascii.eqb c (ascii_of_nat 34) then Some ("", rest)
      else match until_quote rest with
           | Some (body, rest') => Some (String c body, rest')
           | None => None
           end
  end.

Fixpoint number (s : string) (acc : N) : N * string :=
  match s with
  | "" => (acc, "")
  | String c rest =>
      match digit c with
      | Some d => number rest (10 * acc + N.of_nat d)%N
      | None => (acc, s)
      end
  end.

Definition skip (n : nat) (s : string) : string :=
  substring n (String.length s - n) s.

Fixpoint parse_value (fuel : nat) (s : string) {struct fuel} : option (value * string) :=
  match fuel with
  | O => None
  | S fuel' =>
      if startsWith s "null" then Some (VNull, skip 4 s)
      else if startsWith s "true" then Some (VBool true, skip 4 s)
      else if startsWith s "false" then Some (VBool false, skip 5 s)
      else
        match s with
        | "" => None
        | String c rest =>
            if Ascii.eqb c (ascii_of_nat 34) then
              match until_quote rest with
              | Some (body, rest') => Some (VStr body, rest')
              | None => None
              end
            else if Ascii.eqb c "{" then
              if startsWith rest "}" then Some (VObj [], skip 1 rest)
              else match parse_members fuel' rest with
                   | Some (fields, rest') => Some (VObj fields, rest')
                   | None => None
                   end
            else if Ascii.eqb c "-" then
              match rest with
              | String d _ =>
                  match digit d with
                  | Some _ =>
                      let '(n, rest') := number rest 0 in Some (VNum (- Z.of_N n), rest')
                  | None => None
                  end
              | "" => None
              end
            else
              match digit c with
              | Some _ => let '(n, rest') := number s 0 in Some (VNum (Z.of_N n), rest')
              | None => None
              end
        end
  end
with parse_members (fuel : nat) (s : string) {struct fuel}
  : option (list (string * value) * string) :=
  match fuel with
  | O => None
  | S fuel' =>
      match s with
      | String c rest =>
          if Ascii.eqb c (ascii_of_nat 34) then
            match until_quote rest with
            | Some (k, String ":" rest1) =>
                match parse_value fuel' rest1 with
                | Some (v, String "," rest2) =>
                    match parse_members fuel' rest2 with
                    | Some (more, rest3) => Some ((k, v) :: more, rest3)
                    | None => None
                    end
                | Some (v, String "}" rest2) => Some ([(k, v)], rest2)
                | _ => None
                end
            | _ => None
            end
          else None
      | "" => None
      end
  end.

Definition parse_text (s : string) : option value :=
  match parse_value (S (String.length s)) s with
  | Some (v, "") => Some v
  | _ => None
  end.

(** *** The host *)

#[local] Instance byte_eq_dec : EqDecision Byte.byte := Byte.byte_eq_dec.

Definition key_bytes (k : Byte.byte) : bytes := repeat k 32.

Definition nth_byte (n : nat) : Byte.byte :=
  default Byte.x00 (Byte.of_N (N.of_nat (n mod 256))).

(** [crypto_available]: whether [crypto.subtle] can make a key;
    [max_args]: how many arguments a call such as
    [String.fromCharCode(...bytes)] takes before it throws a RangeError.
    The encodings are stand-ins that keep the laws of [HostLaws]: the
    base64 text of some bytes is the byte string itself, a key is one
    byte repeated, and the cipher text is the plain text behind the key
    and the nonce. *)
Definition host (crypto_available : bool) (max_args : nat) : Host value :=
  {| stringify := print;
     parse := parse_text;
     utf8_encode := list_byte_of_string;
     utf8_decode := string_of_list_byte;
     to_base64 := λ b, if (length b <=? max_args)%nat
                       then Some (string_of_list_byte b) else None;
     from_base64 := λ s, Some (list_byte_of_string s);
     Key := Byte.byte;
     generateKey := λ n, if crypto_available then Some (nth_byte n) else None;
     exportKey := key_bytes;
     importKey := λ b, match b with
                       | k :: _ => if decide (b = key_bytes k) then Some k else None
                       | [] => None
                       end;
     encrypt := λ k iv plain, Some (k :: iv ++ plain)%list;
     decrypt := λ k iv cipher,
       match cipher with
       | k' :: rest =>
           if decide (k' = k ∧ take (length iv) rest = iv)
           then Some (drop (length iv) rest) else None
       | [] => None
       end;
     random_bytes := λ n len, repeat (nth_byte n) len;
     decode_payload := λ s, Some s;
     sort_recent := λ l, l;
     query_recent := λ m, map snd (map_to_list m);
     truncateText := λ v _, match v with VStr s => s | _ => "" end |}.

(** *** A parser for absolute URLs of the form [scheme://host/...] *)

Fixpoint split_on (stop : ascii → bool) (s : string) : string * string :=
  match s with
  | "" => ("", "")
  | String c rest =>
      if stop c then ("", s)
      else let '(a, b) := split_on stop rest in (String c a, b)
  end.

Definition is_letter (c : ascii) : bool :=
  ((65 <=? code c)%nat && (code c <=? 90)%nat)
  || ((97 <=? code c)%nat && (code c <=? 122)%nat).

Fixpoint all_letters (s : string) : bool :=
  match s with
  | "" => true
  | String c rest => is_letter c && all_letters rest
  end.

Definition parseURL (s : string) : option QRRedirectManager.URL :=
  let '(scheme, rest) := split_on (λ c, Ascii.eqb c ":") s in
  match scheme, rest with
  | String _ _, String _ after =>
      if all_letters scheme then
        let protocol := toLowerCase scheme +:+ ":" in
        if startsWith after "//" then
          let '(authority, _) :=
            split_on (λ c, Ascii.eqb c "/" || Ascii.eqb c "?" || Ascii.eqb c "#")
                     (skip 2 after) in
          let '(host, _) := split_on (λ c, Ascii.eqb c ":") authority in
          match host with
          | "" => None
          | _ => Some {| QRRedirectManager.protocol := protocol;
                         QRRedirectManager.hostname := toLowerCase host |}
          end
        else Some {| QRRedirectManager.protocol := protocol;
                     QRRedirectManager.hostname := "" |}
      else None
  | _, _ => None
  end.

(** A record as [createQRCode] writes it, and a map that holds it. *)
Definition record (qrId originalText : string) : value :=
  VObj [("id", VStr qrId); ("name", VStr "Demo"); ("originalText", VStr originalText);
        ("logoPath", VNull); ("scanCount", VNum 0); ("createdAt", VNum 1700000000000);
        ("lastScanned", VNull)].

Definition records (qrId originalText : string) : value :=
  VObj [(qrId, record qrId originalText)].

(** A page with nothing stored, no Firebase, and a clean console. *)
Definition offline : World :=
  mkWorld ∅ 0 [] false false false false ∅ false.

(** The same page with Firebase initialised and the database reachable. *)
Definition online : World :=
  mkWorld ∅ 0 [] true true true true ∅ true.

(** A world with one more slot in [localStorage]. *)
Definition stored (slot text : string) (w : World) : World :=
  with_localStorage (insert slot text) w.

End Demo.

(** ** Validation of an uploaded logo ([SecurityUtils.validateImageSignature]
       and [SecurityUtils.validateImageFile]) *)

Module ImageValidation.

Import JS Model.
Open Scope string_scope.

(** What the validator reads of a [File]: [file.name], [file.type] and the
    bytes of the file; [file.size] is their number. *)
Record File : Type := { name : string; type : string; content : bytes }.

Definition size (file : File) : Z := Z.of_nat (length (content file)).

(** [sig.every((byte, index) => bytes[index] === byte)], from [index] on;
    an index past the end of [bytes] reads [undefined]. *)
Fixpoint every (sig : bytes) (index : nat) (bytes : bytes) : bool :=
  match sig with
  | [] => true
  | byte :: sig' =>
      match bytes !! index with
      | Some b => Byte.eqb b byte
      | None => false
      end && every sig' (S index) bytes
  end.

(** [const signatures = { jpeg: [...], png: [...], gif: [...], webp: [...] }],
    in the order [Object.entries] lists it. *)
Definition signatures : list (string * list bytes) :=
  [ ("jpeg", [[Byte.xff; Byte.xd8; Byte.xff]]);
    ("png", [[Byte.x89; Byte.x50; Byte.x4e; Byte.x47;
              Byte.x0d; Byte.x0a; Byte.x1a; Byte.x0a]]);
    ("gif", [[Byte.x47; Byte.x49; Byte.x46; Byte.x38];
             [Byte.x47; Byte.x49; Byte.x46; Byte.x39]]);
    ("webp", [[Byte.x52; Byte.x49; Byte.x46; Byte.x46]]) ].

(** The two nested loops: the format of the first signature that
    matches. *)
Fixpoint first_match (entries : list (string * list bytes)) (bytes : bytes)
  : option string :=
  match entries with
  | [] => None
  | (format, sigs) :: entries' =>
      if existsb (λ sig, every sig 0 bytes) sigs then Some format
      else first_match entries' bytes
  end.

(** [validateImageSignature(file)]: the format, or [None] for [false]. *)
Definition validateImageSignature (file : File) : option string :=
  let bytes := take 12 (content file) in
  first_match signatures bytes.

Definition allowedTypes : list string :=
  [ "image/jpeg"; "image/jpg"; "image/png"; "image/gif"; "image/webp" ].

Definition maxSize : Z := 2 * 1024 * 1024.

Definition suspiciousExtensions : list string :=
  [ ".exe"; ".bat"; ".cmd"; ".com"; ".scr"; ".js"; ".vbs"; ".php"; ".asp" ].

(** [validateImageFile(file)]; [None] is a missing file. *)
Definition validateImageFile (file : option File) : result bool :=
  match file with
  | None => Throw "No file selected"
  | Some file =>
      if negb (existsb (String.eqb (toLowerCase (type file))) allowedTypes)
      then Throw "Only JPEG, PNG, GIF, and WebP images are allowed"
      else if (maxSize <? size file)%Z
      then Throw "Image must be smaller than 2MB"
      else
        match validateImageSignature file with
        | None => Throw "Invalid image file format"
        | Some validFormat =>
            let fileName := toLowerCase (name file) in
            if existsb (λ ext, includes fileName ext) suspiciousExtensions
            then Throw "Suspicious file detected"
            else Ok true
        end
  end.

(** *** Vocabulary of the statements *)

Definition jpeg_magic : bytes := [Byte.xff; Byte.xd8; Byte.xff].
Definition png_magic : bytes :=
  [Byte.x89; Byte.x50; Byte.x4e; Byte.x47; Byte.x0d; Byte.x0a; Byte.x1a; Byte.x0a].
Definition gif8_magic : bytes := [Byte.x47; Byte.x49; Byte.x46; Byte.x38].
Definition gif9_magic : bytes := [Byte.x47; Byte.x49; Byte.x46; Byte.x39].
Definition riff_magic : bytes := [Byte.x52; Byte.x49; Byte.x46; Byte.x46].

(** The file starts with the magic number of one of the formats. *)
Definition has_magic (content : bytes) : Prop :=
  jpeg_magic `prefix_of` content ∨ png_magic `prefix_of` content
  ∨ gif8_magic `prefix_of` content ∨ gif9_magic `prefix_of` content
  ∨ riff_magic `prefix_of` content.

End ImageValidation.

(** ** The pattern generator of [lib/qrcode.js] *)

Module QRCodeLib.

Import JS.
Open Scope string_scope.
Open Scope Z_scope.

(** [ToInt32]: the value of a number as a signed 32-bit integer. *)
Definition to_int32 (x : Z) : Z := (x + 2147483648) mod 4294967296 - 2147483648.

(** The body of the loop over the characters:
    [hash = ((hash << 5) - hash) + char; hash = hash & hash]. The shift
    and the conjunction work on 32-bit integers, the subtraction and the
    sum on numbers. *)
Definition hash_step (hash char : Z) : Z :=
  let hash := (to_int32 (Z.shiftl (to_int32 hash) 5) - hash) + char in
  Z.land (to_int32 hash) (to_int32 hash).

Fixpoint hash_loop (text : string) (hash : Z) : Z :=
  match text with
  | "" => hash
  | String c text' => hash_loop text' (hash_step hash (Z.of_nat (code c)))
  end.

(** [isFinderPattern(row, col, size)] *)
Definition isFinderPattern (row col size : Z) : bool :=
  ((row <? 9) && (col <? 9))
  || ((row <? 9) && (size - 8 <=? col))
  || ((size - 8 <=? row) && (col <? 9)).

(** [seed = (seed * 1664525 + 1013904223) % 4294967296] *)
Definition next_seed (seed : Z) : Z := Z.rem (seed * 1664525 + 1013904223) 4294967296.

(** The cell that the inner loop stores, from the seed it has just
    drawn. *)
Definition cell (row col size seed : Z) : bool :=
  if isFinderPattern row col size then false else (Z.rem seed 100 <? 45).

(** The inner loop from column [col] on, for [todo] more columns: the
    cells, and the seed it leaves. *)
Fixpoint fill_row (size row col : Z) (todo : nat) (seed : Z) : list bool * Z :=
  match todo with
  | O => ([], seed)
  | S todo' =>
      let seed := next_seed seed in
      let '(cells, seed') := fill_row size row (col + 1) todo' seed in
      (cell row col size seed :: cells, seed')
  end.

(** The outer loop from row [row] on, for [todo] more rows of [size]
    columns. *)
Fixpoint fill_rows (size : nat) (row : Z) (todo : nat) (seed : Z) : list (list bool) :=
  match todo with
  | O => []
  | S todo' =>
      let '(cells, seed') := fill_row (Z.of_nat size) row 0 size seed in
      cells :: fill_rows size (row + 1) todo' seed'
  end.

(** [generatePattern(text, size)] *)
Definition generatePattern (text : string) (size : nat) : list (list bool) :=
  let hash := hash_loop text 0 in
  let seed := Z.abs hash in
  fill_rows size 0 size seed.

(** *** Vocabulary of the statements *)

(** The polynomial [c1 * 31^(n-1) + ... + cn] over the character codes,
    on top of [acc * 31^n]. *)
Fixpoint polynomial (text : string) (acc : Z) : Z :=
  match text with
  | "" => acc
  | String c text' => polynomial text' (31 * acc + Z.of_nat (code c))
  end.

(** The seed with which [generatePattern] starts. *)
Definition first_seed (text : string) : Z := Z.abs (hash_loop text 0).

(** [pattern[row][col]] *)
Definition at_cell (pattern : list (list bool)) (row col : nat) : option bool :=
  match pattern !! row with
  | Some cells => cells !! col
  | None => None
  end.

End QRCodeLib.

(** ** The redirect page, first version ([class QRRedirectManager] without
       the fallback payload and the whitelist): how a stored text is
       classified and shown *)

Module QRRedirectManagerV1.

Import JS Model QRRedirectManager.
Open Scope string_scope.

(** [shortenText(text, maxLength)]; [substring] takes a negative end for
    0. Both versions of the page define it. *)
Definition shortenText (text : string) (maxLength : Z) : string :=
  if (Z.of_nat (String.length text) <=? maxLength)%Z then text
  else substring 0 (Z.to_nat (maxLength - 3)) text +:+ "...".

Section Page.

Context (parseURL : string → option URL).

(** [isValidURL(string)] *)
Definition isValidURL (string : string) : bool :=
  match parseURL string with
  | Some _ => true
  | None =>
      if includes string ".com" || includes string ".org"
         || includes string ".net" || includes string "www."
      then true
      else false
  end.

(** [redirectToOriginal(originalText)] *)
Definition redirectToOriginal (originalText : string) : list effect :=
  if isValidURL originalText then [Navigate originalText]
  else [ShowText originalText].

End Page.

End QRRedirectManagerV1.

(** ** The generator page ([class QRGenerator] of [js/qr-generator.js]):
       the [generateQRCode] handler and the name of a download *)

Module QRGenerator.

Import JS Model.
Open Scope string_scope.

(** What the user of the generator sees, in order. *)
Inductive ui : Type :=
| Alert (message : string)
| AlertRateLimit (remaining : Z)
| Loading (show : bool)
| GenerateDisabled (disabled : bool)
| Display (redirectUrl : string)
| Listen (qrId : string)
| Analytics (scanCount createdAt : Z)
| Recent.

(** The readings of [Date.now()] in one run of the handler, in the order
    of the calls, and the time the database would put. *)
Record Clock : Type := {
  at_limit : Z;
  at_remaining : Z;
  at_create : Z;
  at_server : Z;
  at_payload : Z;
  at_analytics : Z;
}.

(** The page around the handler: [encodeURIComponent(btoa(s))], [None]
    when [btoa] throws; whether [createQRCanvas] returns a canvas for a
    link; [window.location.origin + window.location.pathname.replace('index.html', '')]. *)
Record Page : Type := {
  encode_payload : string → option string;
  createQRCanvas : string → bool;
  baseUrl : string;
}.

(** [FirebaseManager.getRedirectUrl(qrId)] *)
Definition getRedirectUrl (P : Page) (qrId : string) : string :=
  baseUrl P +:+ "redirect.html?id=" +:+ qrId.

Section Handler.

Context (H : Host value) (P : Page) (clock : Clock).

(** The object that is put into the link when Firebase is not
    available. *)
Definition fallback_object (text name : string) : value :=
  VObj [("text", VStr text); ("name", VStr name); ("created", VNum (at_payload clock))].

(** The second [try] block of [generateQRCode]; [qrId] is the id that
    [generateUniqueId()] draws. [Display] stands for the canvas made for
    the link, shown with the download controls. *)
Definition generate (qrId text name : string) (selectedLogo : value) : M (list ui) :=
  try_catch
    (let* qrId := FirebaseManager.createQRCode H qrId (at_create clock) (at_server clock)
                    text name selectedLogo in
     let redirectUrl := getRedirectUrl P qrId in
     let* redirectUrl :=
       λ w, if negb (FirebaseStatus.isAvailable w) then
              (let* fallbackData :=
                 or_throw "btoa failed"
                   (encode_payload P (stringify H (fallback_object text name))) in
               let* _ := log "Added fallback data to URL for mobile compatibility" in
               ret (redirectUrl +:+ "&data=" +:+ fallbackData)) w
            else ret redirectUrl w in
     if createQRCanvas P redirectUrl then
       let* _ := log "QR Code generated successfully:" in
       ret [Display redirectUrl; Listen qrId; Analytics 0 (at_analytics clock); Recent]
     else throw "Failed to generate QR canvas")
    (λ error,
       let* _ := log "Error generating QR code:" in
       ret [Alert "Failed to generate QR code. Please try again."]).

(** The part of [generateQRCode()] after the check of the rate limit:
    the validation, and the second [try] block between the two updates of
    the loading indicator and of the button. *)
Definition validated (qrId text name : string) (selectedLogo : value) : M (list ui) :=
  match SecurityUtils.validateQRInput text name with
  | Throw message => ret [Alert message]
  | Ok _ =>
      let* shown := generate qrId text name selectedLogo in
      ret ([Loading true; GenerateDisabled true] ++ shown
           ++ [Loading false; GenerateDisabled false])%list
  end.

(** [generateQRCode()]; [textArea] and [nameInput] are the values of the
    two fields, [rateLimiter] is the map of [window.rateLimiter], [None]
    when the page has none. The result is what the user sees and the map
    of the limiter after the call. *)
Definition generateQRCode (qrId textArea nameInput : string) (selectedLogo : value)
    (rateLimiter : option (gmap string (list Z)))
  : M (list ui * option (gmap string (list Z))) :=
  let text := trim textArea in
  let name := trim nameInput in
  match rateLimiter with
  | Some requests =>
      match RateLimiter.canMakeRequest "anonymous" (at_limit clock) requests with
      | (false, requests') =>
          (* the refusing branch of [canMakeRequest] warns on the console *)
          let* _ := log "Rate limit exceeded. Please wait before making more requests." in
          let remaining :=
            RateLimiter.getRemainingRequests "anonymous" (at_remaining clock) requests' in
          ret ([AlertRateLimit remaining], Some requests')
      | (true, requests') =>
          let* shown := validated qrId text name selectedLogo in
          ret (shown, Some requests')
      end
  | None =>
      let* shown := validated qrId text name selectedLogo in
      ret (shown, None)
  end.

End Handler.

(** *** The name of a download ([downloadQRCode]) *)

(** [[^a-zA-Z0-9\-_\s]]: the characters that the first [replace]
    deletes are the others. *)
Definition kept (c : ascii) : bool :=
  ((97 <=? code c)%nat && (code c <=? 122)%nat)
  || ((65 <=? code c)%nat && (code c <=? 90)%nat)
  || ((48 <=? code c)%nat && (code c <=? 57)%nat)
  || (code c =? 45)%nat || (code c =? 95)%nat || is_space c.

(** [s.replace(/[^a-zA-Z0-9\-_\s]/g, '')] *)
Fixpoint strip (s : string) : string :=
  match s with
  | "" => ""
  | String c s' => if kept c then String c (strip s') else strip s'
  end.

(** [s.replace(/\s+/g, '-')]: every maximal run of white space becomes
    one hyphen. *)
Fixpoint hyphenate (s : string) : string :=
  match s with
  | "" => ""
  | String c s' =>
      if is_space c then
        match s' with
        | String c' _ => if is_space c' then hyphenate s' else String "-" (hyphenate s')
        | "" => "-"
        end
      else String c (hyphenate s')
  end.

(** The file name that [downloadQRCode] gives to the canvas on the page;
    [timestamp] is [new Date().toISOString().slice(0, 10)]. *)
Definition filename (nameInput timestamp : string) : string :=
  let qrName := trim nameInput in
  let safeName := hyphenate (strip qrName) in
  if negb (String.eqb safeName "") then safeName +:+ "-" +:+ timestamp +:+ ".png"
  else "qr-code-" +:+ timestamp +:+ ".png".

(** *** Vocabulary of the statements *)

(** A letter, a digit, a hyphen or an underscore. *)
Definition plain (c : ascii) : bool :=
  ((97 <=? code c)%nat && (code c <=? 122)%nat)
  || ((65 <=? code c)%nat && (code c <=? 90)%nat)
  || ((48 <=? code c)%nat && (code c <=? 57)%nat)
  || (code c =? 45)%nat || (code c =? 95)%nat.

Fixpoint all_chars (p : ascii → bool) (s : string) : bool :=
  match s with
  | "" => true
  | String c s' => p c && all_chars p s'
  end.

(** *** A page to run the handler on *)

(** A page that encodes a payload as it is and always draws a canvas. *)
Definition demo_page : Page :=
  {| encode_payload := λ s, Some s;
     createQRCanvas := λ _, true;
     baseUrl := "https://example.org/qr/" |}.

Definition demo_clock : Clock :=
  {| at_limit := 1700000000100; at_remaining := 1700000000100;
     at_create := 1700000000200; at_server := 1700000000900;
     at_payload := 1700000000300; at_analytics := 1700000000400 |}.

End QRGenerator.

(** ** Sanitising text for the page ([SecurityUtils.escapeHTML],
       [sanitizeText] and [truncateText]) *)

Module Sanitizer.

Import JS Model.
Open Scope string_scope.

(** The regular expressions of [sanitizeText]: runs of literal
    characters, and a character class repeated greedily ([x*], [x+]) or
    lazily ([x*?]). All of them carry the flags [g] and [i]. *)
Inductive atom : Type :=
| Lit (p : string)
| Many (greedy at_least_one : bool) (class : ascii → bool).

(** [class*] or [class*?] followed by [k]: the rest of the text after the
    match that backtracking finds first. *)
Fixpoint many (greedy : bool) (class : ascii → bool) (k : string → option string)
    (s : string) : option string :=
  if greedy then
    match s with
    | String a s' =>
        if class a then
          match many greedy class k s' with
          | Some rest => Some rest
          | None => k s
          end
        else k s
    | "" => k s
    end
  else
    match k s with
    | Some rest => Some rest
    | None =>
        match s with
        | String a s' => if class a then many greedy class k s' else None
        | "" => None
        end
    end.

(** A match of [r] at the head of [s]: the rest of [s] after it. *)
Fixpoint exec (r : list atom) : string → option string :=
  match r with
  | [] => λ s, Some s
  | Lit p :: r' => λ s,
      match lit_prefix p s with
      | Some rest => exec r' rest
      | None => None
      end
  | Many greedy at_least_one class :: r' => λ s,
      if at_least_one then
        match s with
        | String a s' => if class a then many greedy class (exec r') s' else None
        | "" => None
        end
      else many greedy class (exec r') s
  end.

(** [s.replace(r, '')] for a RegExp with flag [g]: from left to right,
    every match is deleted; after an empty match the search moves on by
    one character. *)
Fixpoint replace_all (fuel : nat) (r : list atom) (s : string) : string :=
  match fuel with
  | O => s
  | S fuel' =>
      match s with
      | "" => ""
      | String c s' =>
          match exec r s with
          | Some rest =>
              if (String.length rest <? String.length s)%nat
              then replace_all fuel' r rest
              else String c (replace_all fuel' r s')
          | None => String c (replace_all fuel' r s')
          end
      end
  end.

Definition replace (r : list atom) (s : string) : string :=
  replace_all (String.length s) r s.

(** [\w], [\s], [.] and [[^>]] on the code units 0..255. *)
Definition word (c : ascii) : bool :=
  ((97 <=? code c)%nat && (code c <=? 122)%nat)
  || ((65 <=? code c)%nat && (code c <=? 90)%nat)
  || ((48 <=? code c)%nat && (code c <=? 57)%nat)
  || (code c =? 95)%nat.

Definition dot (c : ascii) : bool := negb ((code c =? 10)%nat || (code c =? 13)%nat).

Definition not_gt (c : ascii) : bool := negb (Ascii.eqb c ">").

(** [/<script[^>]*>.*?<\/script>/gi], [/javascript:/gi] and
    [/on\w+\s*=/gi] *)
Definition script_element : list atom :=
  [Lit "<script"; Many true false not_gt; Lit ">"; Many false false dot; Lit "</script>"].

Definition javascript_scheme : list atom := [Lit "javascript:"].

Definition event_handler : list atom :=
  [Lit "on"; Many true true word; Many true false is_space; Lit "="].

(** [text.toString()] of a value of the store; a number of the store is an
    integer that prints in decimal. *)
Definition toString (text : value) : string :=
  match text with
  | VStr s => s
  | VNum n => Demo.print_Z n
  | VBool true => "true"
  | VBool false => "false"
  | VObj _ => "[object Object]"
  | VNull => "null"
  | VUndefined => "undefined"
  end.

Section DOM.

(** [div.textContent = text; return div.innerHTML]: the serialisation of
    a text node by the browser. *)
Context (escape : string → string).

(** [escapeHTML(text)] *)
Definition escapeHTML (text : string) : string :=
  if String.eqb text "" then "" else escape text.

(** [sanitizeText(text)] *)
Definition sanitizeText (text : value) : string :=
  if negb (truthy text) then ""
  else
    let sanitized := escapeHTML (toString text) in
    let sanitized := replace script_element sanitized in
    let sanitized := replace javascript_scheme sanitized in
    let sanitized := replace event_handler sanitized in
    sanitized.

(** [truncateText(text, maxLength)] *)
Definition truncateText (text : value) (maxLength : Z) : string :=
  if negb (truthy text) then ""
  else
    let sanitized := sanitizeText text in
    if (Z.of_nat (String.length sanitized) <=? maxLength)%Z then sanitized
    else substring 0 (Z.to_nat (maxLength - 3)) sanitized +:+ "...".

End DOM.

(** *** Vocabulary of the statements *)

(** [rest] is what is left of [s] after some prefix. *)
Definition suffix_of (rest s : string) : Prop := ∃ m, s = m +:+ rest.

(** The text node serialiser of HTML, on the characters it rewrites. *)
Fixpoint html_escape (s : string) : string :=
  match s with
  | "" => ""
  | String c s' =>
      (if Ascii.eqb c "&" then "&amp;"
       else if Ascii.eqb c "<" then "&lt;"
       else if Ascii.eqb c ">" then "&gt;"
       else if (code c =? 160)%nat then "&nbsp;"
       else String c "") +:+ html_escape s'
  end.

End Sanitizer.

(** ** Runs of the rate limiter *)

Module RateLimiterRun.

Import RateLimiter.

(** A run of calls of [canMakeRequest(userId)] at the given readings of
    the clock: the time stamps of the calls that are admitted. *)
Fixpoint accepted (userId : string) (times : list Z)
    (requests : gmap string (list Z)) : list Z :=
  match times with
  | [] => []
  | now :: times' =>
      match canMakeRequest userId now requests with
      | (true, requests') => now :: accepted userId times' requests'
      | (false, requests') => accepted userId times' requests'
      end
  end.

(** A clock that does not run backwards. *)
Fixpoint monotone (times : list Z) : Prop :=
  match times with
  | [] => True
  | now :: times' => Forall (λ later, now ≤ later) times' ∧ monotone times'
  end.

End RateLimiterRun.

(** ** The record store, first version ([FirebaseManager] of
       [js/firebase-config.js], with the record map in plain text) *)

Module FirebaseManagerV1.

Import JS Model.
Open Scope string_scope.

Section Store.

Context (H : Host value).

(** [JSON.parse(localStorage.getItem('qr-codes') || '{}')] *)
Definition load_local : M value :=
  let* stored := storage_get "qr-codes" in
  or_throw "JSON.parse failed" (parse H (default "{}" (present stored))).

(** [o[k] = v] where [o] may be [null]: the assignment throws then. *)
Definition assign (o : value) (k : string) (v : value) : M value :=
  match o with
  | VNull | VUndefined => throw "Cannot set properties of null"
  | _ => ret (set_prop o k v)
  end.

(** [createQRCode(originalText, name, logoPath)] *)
Definition createQRCode (qrId : string) (now server_now : Z)
    (originalText name : string) (logoPath : value) : M string :=
  try_catch
    (let qrData := VObj [("id", VStr qrId); ("name", VStr name);
                         ("originalText", VStr originalText); ("logoPath", logoPath);
                         ("scanCount", VNum 0); ("createdAt", VNum now);
                         ("lastScanned", VNull)] in
     let* remote := FirebaseManager.uses_remote in
     let* _ :=
       if remote then
         let* _ := FirebaseManager.ref_set qrId
                     (set_prop qrData "createdAt" (VNum server_now)) in
         log "QR code created successfully in Firebase:"
       else
         let* localQRs := load_local in
         let* localQRs := assign localQRs qrId qrData in
         let* _ := storage_set "qr-codes" (stringify H localQRs) in
         log "QR code created successfully locally:" in
     ret qrId)
    (λ error,
       let* _ := log "Error creating QR code:" in
       throw error).

(** [getQRCode(qrId)] *)
Definition getQRCode (qrId : string) : M value :=
  try_catch
    (let* remote := FirebaseManager.uses_remote in
     if remote then FirebaseManager.ref_once qrId
     else
       let* localQRs := load_local in
       let* entry := QRRedirectManager.read localQRs qrId in
       ret (or_else entry VNull))
    (λ error,
       let* _ := log "Error getting QR code:" in
       throw error).

(** [incrementScanCount(qrId)] *)
Definition incrementScanCount (now server_now : Z) (qrId : string) : M unit :=
  try_catch
    (let* remote := FirebaseManager.uses_remote in
     if remote then
       let* _ := FirebaseManager.ref_transaction qrId
                   (λ currentData,
                      if truthy currentData
                      then FirebaseManager.scanned currentData server_now
                      else currentData) in
       log "Scan count incremented for:"
     else
       let* localQRs := load_local in
       let* entry := QRRedirectManager.read localQRs qrId in
       let* _ :=
         if truthy entry then
           let localQRs := set_prop localQRs qrId (FirebaseManager.scanned entry now) in
           storage_set "qr-codes" (stringify H localQRs)
         else ret tt in
       log "Scan count incremented locally for:")
    (λ error,
       let* _ := log "Error incrementing scan count:" in
       throw error).

End Store.

End FirebaseManagerV1.

(** * Properties *)

(** ** The rate limiter *)

Section RateLimiterFacts.

Import RateLimiter.

Lemma recent_all now l :
  Forall (λ time, now - time < timeWindow) l → recent now l = l.
Proof.
  unfold recent. induction 1 as [|x l Hx _ IH]; [done|].
  rewrite filter_cons_True by done. by rewrite IH.
Qed.

Lemma recent_none now l :
  Forall (λ time, timeWindow ≤ now - time) l → recent now l = [].
Proof.
  unfold recent. induction 1 as [|x l Hx _ IH]; [done|].
  rewrite filter_cons_False by lia. done.
Qed.

Lemma canMakeRequest_admit userId now requests requests' :
  canMakeRequest userId now requests = (true, requests') →
  stored userId requests' = recent now (stored userId requests) ++ [now]
  ∧ (length (recent now (stored userId requests)) < maxRequests)%nat.
Proof.
  unfold canMakeRequest, stored. case_decide; [done|].
  intros [= <-]. rewrite lookup_insert_eq. simpl. split; [done|lia].
Qed.

Lemma canMakeRequest_reject userId now requests :
  (maxRequests ≤ length (recent now (stored userId requests)))%nat →
  canMakeRequest userId now requests = (false, requests).
Proof. unfold canMakeRequest, stored. intros H. by rewrite decide_True. Qed.

(** Admitted calls that all fall in one window stay in the stored list. *)
Lemma admitted_keeps userId w0 times :
  ∀ requests requests' kept,
    Forall (λ t, w0 ≤ t < w0 + timeWindow) (kept ++ times) →
    (∃ older, stored userId requests = older ++ kept) →
    admitted userId times requests = Some requests' →
    ∃ older, stored userId requests' = older ++ kept ++ times.
Proof.
  induction times as [|now times IH]; intros requests requests' kept Hw [older Hst] Hrun.
  - simpl in Hrun. injection Hrun as <-. exists older. by rewrite app_nil_r.
  - simpl in Hrun.
    destruct (canMakeRequest userId now requests) as [[] requests1] eqn:Hcall; [|done].
    apply canMakeRequest_admit in Hcall as [Hst1 _].
    replace (kept ++ now :: times) with ((kept ++ [now]) ++ times)
      by (by rewrite <- app_assoc).
    apply (IH requests1); [by rewrite <- app_assoc| |done].
    exists (recent now older). rewrite Hst1, Hst.
    unfold recent at 1. rewrite filter_app. fold (recent now older) (recent now kept).
    rewrite (recent_all now kept); [by rewrite <- app_assoc|].
    rewrite Forall_app in Hw. destruct Hw as [Hk Ht].
    apply Forall_cons in Ht as [Hnow _].
    eapply Forall_impl; [exact Hk|]. simpl. intros t Ht. lia.
Qed.

(** Once every stored timestamp is a full window old, a run of calls is
    admitted as long as it stays within the limit. *)
Lemma admitted_fresh userId t' times :
  ∀ requests old new,
    stored userId requests = old ++ new →
    Forall (λ t, t + timeWindow ≤ t') old →
    Forall (λ s, t' ≤ s) times →
    (length new + length times ≤ maxRequests)%nat →
    is_Some (admitted userId times requests).
Proof.
  induction times as [|now times IH]; intros requests old new Hst Hold Hts Hlen.
  - by eexists.
  - apply Forall_cons in Hts as [Hnow Hts]. simpl in Hlen. simpl.
    assert (Hrec : recent now (stored userId requests) = recent now new).
    { rewrite Hst. unfold recent at 1. rewrite filter_app.
      fold (recent now old) (recent now new).
      rewrite (recent_none now old); [done|].
      eapply Forall_impl; [exact Hold|]. simpl. intros t Ht. lia. }
    pose proof (length_filter (λ time, now - time < timeWindow) new) as Hle.
    fold (recent now new) in Hle.
    unfold canMakeRequest. fold (stored userId requests). rewrite Hrec.
    rewrite decide_False by lia.
    apply (IH _ [] (recent now new ++ [now])).
    + unfold stored. by rewrite lookup_insert_eq.
    + constructor.
    + done.
    + rewrite length_app. simpl. lia.
Qed.

(** C9. With a window of 60 seconds and a limit of 10: after ten admitted
    calls that fall in one window, an eleventh call in the same window is
    rejected and leaves the map as it was (no timestamp recorded); and
    once every stored timestamp is at least a window old, the remaining
    capacity reads 10 again and ten further calls are all admitted. *)
Theorem rate_limit_window (userId : string) (requests requests' : gmap string (list Z))
    (times : list Z) (w0 t11 : Z) :
  length times = 10%nat →
  Forall (λ t, w0 ≤ t < w0 + 60000) (times ++ [t11]) →
  admitted userId times requests = Some requests' →
  canMakeRequest userId t11 requests' = (false, requests')
  ∧ ∀ (t' : Z) (later : list Z),
      Forall (λ t, t + 60000 ≤ t') (stored userId requests') →
      Forall (λ s, t' ≤ s) later →
      length later = 10%nat →
      getRemainingRequests userId t' requests' = 10
      ∧ is_Some (admitted userId later requests').
Proof.
  intros Hlen Hw Hrun. rewrite Forall_app in Hw. destruct Hw as [Hts H11].
  apply Forall_cons in H11 as [H11 _]. split.
  - destruct (admitted_keeps userId w0 times requests requests' [])
      as [older Hst]; [done|by exists (stored userId requests); rewrite app_nil_r|done|].
    simpl in Hst. apply canMakeRequest_reject. rewrite Hst.
    unfold recent. rewrite filter_app. fold (recent t11 older) (recent t11 times).
    rewrite (recent_all t11 times).
    + rewrite length_app, Hlen. unfold maxRequests. lia.
    + eapply Forall_impl; [exact Hts|]. simpl. unfold timeWindow. intros t Ht. lia.
  - intros t' later Hold Hlater Hl. split.
    + unfold getRemainingRequests. fold (stored userId requests').
      rewrite (recent_none t' (stored userId requests')); [done|].
      eapply Forall_impl; [exact Hold|]. simpl. unfold timeWindow. intros t Ht. lia.
    + apply (admitted_fresh userId t' later requests' (stored userId requests') []).
      * by rewrite app_nil_r.
      * exact Hold.
      * exact Hlater.
      * simpl. rewrite Hl. done.
Qed.

(** The theorem at a concrete run: ten calls one second apart from an
    empty map, an eleventh call at 9.5 s, and ten calls after 70 s. *)
Lemma rate_limit_window_witness :
  let times := [0; 1000; 2000; 3000; 4000; 5000; 6000; 7000; 8000; 9000] in
  let later := [70000; 70001; 70002; 70003; 70004; 70005; 70006; 70007; 70008; 70009] in
  ∃ requests',
    admitted "anonymous" times ∅ = Some requests'
    ∧ canMakeRequest "anonymous" 9500 requests' = (false, requests')
    ∧ getRemainingRequests "anonymous" 70000 requests' = 10
    ∧ is_Some (admitted "anonymous" later requests').
Proof.
  intros times later.
  assert (stored "anonymous" <$> admitted "anonymous" times ∅ = Some times) as Hst
    by (vm_compute; reflexivity).
  destruct (admitted "anonymous" times ∅) as [requests'|] eqn:Hrun; [|discriminate Hst].
  simpl in Hst. injection Hst as Hst.
  exists requests'. split; [reflexivity|].
  destruct (rate_limit_window "anonymous" ∅ requests' times 0 9500 eq_refl) as [Hrej Hcap].
  - repeat constructor; lia.
  - exact Hrun.
  - split; [exact Hrej|].
    apply (Hcap 70000 later).
    + rewrite Hst. repeat constructor; lia.
    + repeat constructor; lia.
    + reflexivity.
Defined.

End RateLimiterFacts.

(** ** Strings and regular expressions *)

Section StringFacts.

Import JS.
Open Scope string_scope.

Lemma str_app_cons (c : ascii) (a b : string) : String c a +:+ b = String c (a +:+ b).
Proof. reflexivity. Qed.

Lemma str_app_nil_l (s : string) : "" +:+ s = s.
Proof. reflexivity. Qed.

Lemma str_app_nil_r (s : string) : s +:+ "" = s.
Proof. induction s as [|c s IH]; [done|]. rewrite str_app_cons. congruence. Qed.

Lemma str_app_assoc (a b c : string) : (a +:+ b) +:+ c = a +:+ (b +:+ c).
Proof. induction a as [|x a IH]; [done|]. rewrite !str_app_cons. congruence. Qed.

Lemma str_length_app (a b : string) :
  String.length (a +:+ b) = (String.length a + String.length b)%nat.
Proof. induction a as [|x a IH]; [done|]. rewrite str_app_cons. simpl. congruence. Qed.

Lemma startsWith_spec (s p : string) :
  startsWith s p = true ↔ ∃ post, s = p +:+ post.
Proof.
  revert s. induction p as [|a p IH]; intros s; simpl.
  - split; [intros _; by exists s|done].
  - destruct s as [|b s]; [split; [done|intros [post H]; discriminate]|].
    rewrite andb_true_iff, Ascii.eqb_eq, IH. split.
    + intros [-> [post ->]]. by exists post.
    + intros [post H]. rewrite str_app_cons in H. injection H as -> ->. eauto.
Qed.

Lemma includes_spec (s pat : string) :
  includes s pat = true ↔ ∃ pre post, s = pre +:+ pat +:+ post.
Proof.
  induction s as [|c s IH]; simpl; rewrite orb_true_iff, startsWith_spec.
  - split.
    + intros [[post H]|]; [|done]. by exists "", post.
    + intros [pre [post H]]. left. destruct pre; [by exists post|discriminate].
  - rewrite IH. split.
    + intros [[post H]|[pre [post H]]]; [by exists "", post|].
      exists (String c pre), post. rewrite str_app_cons. congruence.
    + intros [pre [post H]]. destruct pre as [|x pre].
      * left. by exists post.
      * right. exists pre, post. rewrite str_app_cons in H. congruence.
Qed.

Lemma canon_str_length (s : string) : String.length (canon_str s) = String.length s.
Proof. induction s as [|c s IH]; simpl; congruence. Qed.

Lemma canon_str_app (a b : string) : canon_str (a +:+ b) = canon_str a +:+ canon_str b.
Proof.
  induction a as [|x a IH]; [done|]. rewrite str_app_cons. simpl. rewrite str_app_cons. congruence.
Qed.

Lemma lit_prefix_spec (p s rest : string) :
  lit_prefix p s = Some rest ↔ ∃ mid, s = mid +:+ rest ∧ canon_str mid = canon_str p.
Proof.
  revert s. induction p as [|a p IH]; intros s; simpl.
  - split.
    + intros [= ->]. by exists "".
    + intros [mid [-> H]]. destruct mid; [done|discriminate].
  - destruct s as [|b s].
    + split; [done|]. intros [mid [H1 H2]]. destruct mid; discriminate.
    + destruct (Ascii.eqb_spec (canonicalize a) (canonicalize b)) as [Heq|Hne].
      * rewrite IH. split.
        -- intros [mid [-> H]]. exists (String b mid). simpl. by rewrite H, Heq.
        -- intros [mid [H1 H2]]. destruct mid as [|x mid]; [discriminate|].
           rewrite str_app_cons in H1. simpl in H2.
           injection H1 as -> ->. injection H2 as _ H2. by exists mid.
      * split; [done|]. intros [mid [H1 H2]]. destruct mid as [|x mid]; [discriminate|].
        rewrite str_app_cons in H1. simpl in H2.
        injection H1 as -> ->. injection H2 as H2 _. congruence.
Qed.

Lemma includes_char_cons (a c : ascii) (body : string) :
  includes (String a body) (String c "") = false
  ↔ a ≠ c ∧ includes body (String c "") = false.
Proof.
  simpl. rewrite orb_false_iff, andb_true_r.
  rewrite Ascii.eqb_neq. split; intros [H1 H2]; split; congruence.
Qed.

(** The inner loop of [match_at] for [[^c]*]. *)
Lemma star_spec (c : ascii) (k : string → bool) (s : string) :
  (fix star (s : string) : bool :=
     k s || match s with
            | "" => false
            | String a s' => if Ascii.eqb a c then false else star s'
            end) s = true
  ↔ ∃ body rest, s = body +:+ rest ∧ includes body (String c "") = false ∧ k rest = true.
Proof.
  induction s as [|a s IH].
  - rewrite orb_false_r. split.
    + intros H. by exists "", "".
    + intros [body [rest [H1 [_ H2]]]]. destruct body; [|discriminate].
      rewrite str_app_nil_l in H1. by subst.
  - rewrite orb_true_iff. split.
    + intros [H|H]; [by exists "", (String a s)|].
      destruct (Ascii.eqb_spec a c) as [|Hne]; [done|].
      apply IH in H as [body [rest [-> [Hb Hk]]]].
      exists (String a body), rest. split; [done|]. split; [|done].
      by apply includes_char_cons.
    + intros [body [rest [H1 [Hb Hk]]]]. destruct body as [|b body].
      * left. rewrite str_app_nil_l in H1. by subst.
      * right. rewrite str_app_cons in H1. injection H1 as -> ->.
        apply includes_char_cons in Hb as [Hne Hb].
        destruct (Ascii.eqb_spec b c) as [|_]; [done|].
        apply IH. by exists body, rest.
Qed.

(** The matcher decides the denotation: [match_at r s] holds exactly when
    a prefix of [s] is in [lang r]. *)
Lemma match_at_spec (r : regex) :
  ∀ s, match_at r s = true ↔ ∃ m post, s = m +:+ post ∧ lang r m.
Proof.
  induction r as [|[p|c] r IH]; intros s.
  - simpl. split; [intros _; by exists "", s|done].
  - simpl. destruct (lit_prefix p s) as [rest|] eqn:Hp.
    + apply lit_prefix_spec in Hp as [mid [-> Hmid]]. rewrite IH. split.
      * intros [m [post [-> Hm]]]. exists (mid +:+ m), post.
        rewrite str_app_assoc. split; [done|]. by exists mid, m.
      * intros [m [post [H1 [mid' [rest' [-> [Hmid' Hm]]]]]]].
        exists rest', post. split; [|done].
        rewrite str_app_assoc in H1.
        assert (lit_prefix p (mid' +:+ rest' +:+ post) = Some (rest' +:+ post)) as H2
          by (apply lit_prefix_spec; eauto).
        assert (lit_prefix p (mid +:+ rest) = Some rest) as H3
          by (apply lit_prefix_spec; eauto).
        congruence.
    + split; [done|]. intros [m [post [-> [mid [rest [-> [Hmid Hm]]]]]]].
      rewrite str_app_assoc in Hp.
      assert (lit_prefix p (mid +:+ rest +:+ post) = Some (rest +:+ post)) as H2
        by (apply lit_prefix_spec; eauto).
      congruence.
  - change (match_at (NotStar c :: r) s) with
      ((fix star (s : string) : bool :=
          match_at r s || match s with
                          | "" => false
                          | String a s' => if Ascii.eqb a c then false else star s'
                          end) s).
    rewrite star_spec. split.
    + intros [body [rest [-> [Hb Hk]]]]. apply IH in Hk as [m [post [-> Hm]]].
      exists (body +:+ m), post. rewrite str_app_assoc. split; [done|]. by exists body, m.
    + intros [m [post [-> [body [rest [-> [Hb Hm]]]]]]].
      exists body, (rest +:+ post). rewrite str_app_assoc. split; [done|]. split; [done|].
      apply IH. by exists rest, post.
Qed.

(** [r.test(s)] holds exactly when some substring of [s] is in [lang r]. *)
Lemma test_spec (r : regex) (s : string) :
  test r s = true ↔ ∃ pre m post, s = pre +:+ m +:+ post ∧ lang r m.
Proof.
  induction s as [|a s IH]; simpl; rewrite orb_true_iff, match_at_spec.
  - split.
    + intros [[m [post [H Hm]]]|]; [|done]. by exists "", m, post.
    + intros [pre [m [post [H Hm]]]]. left. destruct pre; [|discriminate]. by exists m, post.
  - rewrite IH. split.
    + intros [[m [post [H Hm]]]|[pre [m [post [H Hm]]]]].
      * by exists "", m, post.
      * exists (String a pre), m, post. rewrite str_app_cons. split; congruence.
    + intros [pre [m [post [H Hm]]]]. destruct pre as [|b pre].
      * left. by exists m, post.
      * right. rewrite str_app_cons in H. injection H as -> ->. by exists pre, m, post.
Qed.

End StringFacts.

(** ** Input validation *)

Section ValidationFacts.

Import JS SecurityUtils.
Open Scope string_scope.

Lemma test_word (s p : string) : test [Chars p] s = true ↔ has_word s p.
Proof.
  rewrite test_spec. unfold has_word, same_letters. simpl. split.
  - intros [pre [m [post [-> [mid [rest [-> [Hmid ->]]]]]]]].
    rewrite str_app_nil_r. by exists pre, mid, post.
  - intros [pre [w [post [-> Hw]]]]. exists pre, w, post. split; [done|].
    exists w, "". by rewrite str_app_nil_r.
Qed.

Lemma test_tag (s p : string) :
  test [Chars p; NotStar ">"; Chars ">"] s = true ↔ has_tag s p.
Proof.
  rewrite test_spec. unfold has_tag, same_letters. simpl. split.
  - intros [pre [m [post [-> [mid [rest [-> [Hmid H]]]]]]]].
    destruct H as [body [rest' [-> [Hbody [gt [e [-> [Hgt ->]]]]]]]].
    rewrite str_app_nil_r.
    assert (gt = ">") as ->.
    { destruct gt as [|c [|? ?]]; try discriminate. simpl in Hgt.
      injection Hgt as Hc. f_equal. revert Hc. unfold canonicalize, code.
      destruct c as [[] [] [] [] [] [] [] []]; vm_compute; congruence. }
    exists pre, mid, body, post. by rewrite !str_app_assoc.
  - intros [pre [w [attrs [post [-> [Hw Hattrs]]]]]].
    exists pre, (w +:+ attrs +:+ ">"), post. rewrite !str_app_assoc. split; [done|].
    exists w, (attrs +:+ ">"). split; [done|]. split; [done|].
    exists attrs, ">". split; [done|]. split; [done|].
    exists ">", "". by rewrite str_app_nil_r.
Qed.

Lemma blacklist_spec (s : string) :
  existsb (λ pattern, test pattern s) maliciousPatterns = true ↔ injection s.
Proof.
  unfold maliciousPatterns, injection. cbn [existsb].
  rewrite !orb_true_iff, !test_tag, !test_word. intuition discriminate.
Qed.

Lemma blank_spec (s : string) : blank s = false ↔ trim s ≠ "".
Proof.
  unfold blank. rewrite orb_false_iff. split.
  - intros [_ H] Ht. by rewrite Ht in H.
  - intros H. split.
    + destruct s; [done|]. reflexivity.
    + destruct (trim s); [done|reflexivity].
Qed.

(** Any [>] after the tag name closes the tag: the first one does. *)
Lemma has_tag_any (s p pre w rest post : string) :
  s = pre +:+ w +:+ rest +:+ ">" +:+ post → same_letters w p → has_tag s p.
Proof.
  intros -> Hw.
  assert (∃ attrs post', rest +:+ ">" +:+ post = attrs +:+ ">" +:+ post'
                         ∧ includes attrs ">" = false) as [attrs [post' [Heq Hattrs]]].
  { induction rest as [|c rest IH].
    - by exists "", post.
    - destruct IH as [attrs [post' [Heq Hattrs]]].
      destruct (Ascii.eqb_spec c ">") as [->|Hne].
      + exists "", (rest +:+ ">" +:+ post). by rewrite str_app_cons.
      + exists (String c attrs), post'.
        rewrite (str_app_cons c rest), (str_app_cons c attrs), Heq. split; [done|].
        by apply includes_char_cons. }
  exists pre, w, attrs, post'. rewrite Heq. done.
Qed.

(** C6 (amended). [validateQRInput] accepts exactly the inputs whose text
    is non-blank after trim and at most 4000 code units long, whose name
    is non-blank after trim and at most 100 long, and where neither field
    contains a blacklisted pattern in any letter case. Every input with
    such a pattern in either field is rejected; the rejection is the
    content ("Invalid content detected") error whenever the emptiness and
    length checks, which run first, pass. *)
Theorem validateQRInput_spec (text name : string) :
  (validateQRInput text name = Ok true
   ↔ trim text ≠ "" ∧ (String.length text ≤ 4000)%nat
     ∧ trim name ≠ "" ∧ (String.length name ≤ 100)%nat
     ∧ ¬ injection text ∧ ¬ injection name)
  ∧ (injection text ∨ injection name →
     rejected (validateQRInput text name)
     ∧ (trim text ≠ "" ∧ (String.length text ≤ 4000)%nat
        ∧ trim name ≠ "" ∧ (String.length name ≤ 100)%nat →
        security_error (validateQRInput text name))).
Proof.
  unfold validateQRInput, rejected, security_error.
  destruct (blank text) eqn:Hbt.
  { assert (¬ trim text ≠ "") by (rewrite <- blank_spec; congruence).
    split; [split; [done|tauto]|]. intros _. split; [eauto|tauto]. }
  apply blank_spec in Hbt.
  destruct (Nat.ltb_spec 4000 (String.length text)) as [Hlt|Hlt].
  { split; [split; [done|lia]|]. intros _. split; [eauto|lia]. }
  destruct (blank name) eqn:Hbn.
  { assert (¬ trim name ≠ "") by (rewrite <- blank_spec; congruence).
    split; [split; [done|tauto]|]. intros _. split; [eauto|tauto]. }
  apply blank_spec in Hbn.
  destruct (Nat.ltb_spec 100 (String.length name)) as [Hln|Hln].
  { split; [split; [done|lia]|]. intros _. split; [eauto|lia]. }
  destruct (existsb (λ pattern, test pattern text) maliciousPatterns) eqn:Ht.
  { apply blacklist_spec in Ht. split; [split; [done|tauto]|]. intros _. split; eauto. }
  assert (¬ injection text) as Hnt by (rewrite <- blacklist_spec; congruence).
  destruct (existsb (λ pattern, test pattern name) maliciousPatterns) eqn:Hn.
  { apply blacklist_spec in Hn. split; [split; [done|tauto]|]. intros _. split; eauto. }
  assert (¬ injection name) as Hnn by (rewrite <- blacklist_spec; congruence).
  split; [tauto|]. tauto.
Qed.

(** The theorem at a mixed-case script tag in the text. *)
Lemma validateQRInput_spec_witness :
  injection "<ScRiPt src=x>" 
  ∧ validateQRInput "<ScRiPt src=x>" "Demo" = Throw "Invalid content detected in text"
  ∧ validateQRInput "https://example.org" "Demo" = Ok true.
Proof.
  assert (injection "<ScRiPt src=x>") as Hinj by (by apply blacklist_spec).
  split; [exact Hinj|].
  destruct (validateQRInput_spec "<ScRiPt src=x>" "Demo") as [_ Hrej].
  destruct (Hrej (or_introl Hinj)) as [_ Hsec].
  destruct Hsec as [H|H].
  - repeat split; try discriminate; simpl; lia.
  - split; [exact H|reflexivity].
  - by vm_compute in H.
Defined.

(** C6 as stated fails: an input that contains a script tag is rejected by
    an earlier check, with that check's error and not the content error. *)
Lemma validateQRInput_not_always_security_error :
  injection "<SCRIPT>alert(1)</SCRIPT>"
  ∧ validateQRInput "<SCRIPT>alert(1)</SCRIPT>" ""
    = Throw "Please enter a name/reference for this QR code"
  ∧ ¬ security_error (validateQRInput "<SCRIPT>alert(1)</SCRIPT>" "").
Proof.
  split; [by apply blacklist_spec|]. split; [reflexivity|].
  intros [H|H]; by vm_compute in H.
Qed.

End ValidationFacts.

(** ** The vault *)

Section VaultFacts.

Import JS Model CryptoManager.
Open Scope string_scope.

Context {V : Type} (H : Host V).

Lemma present_Some (o : option string) (s : string) :
  present o = Some s ↔ o = Some s ∧ s ≠ "".
Proof.
  destruct o as [[|c t]|]; simpl; split; try done.
  - by intros [[= <-] ?].
  - intros [= <-]. done.
  - intros [[= <-] _]. done.
  - by intros [? _].
Qed.

Lemma present_None (o : option string) :
  present o = None ↔ o = None ∨ o = Some "".
Proof.
  destruct o as [[|c t]|]; simpl; split; try done; eauto.
  intros [|]; done.
Qed.

Lemma encrypted_slot_not_key_slot (key : string) : encrypted_slot key ≠ key_slot.
Proof. unfold encrypted_slot, key_slot. rewrite str_app_cons. discriminate. Qed.

Lemma encrypted_slot_not_key (key : string) : encrypted_slot key ≠ key.
Proof.
  unfold encrypted_slot. intros Heq.
  apply (f_equal String.length) in Heq. rewrite str_length_app in Heq. simpl in Heq. lia.
Qed.

Lemma getOrCreateKey_again (w : World) (k : Key H) :
  holds_key H k w → getOrCreateKey H w = (Ok k, w).
Proof.
  intros [keyData [keyBuffer [Hne [Hslot [Hb Hk]]]]].
  unfold getOrCreateKey, bind, storage_get.
  assert (present (localStorage w !! key_slot) = Some keyData) as ->
    by (by apply present_Some).
  rewrite Hb. simpl. by rewrite Hk.
Qed.

(** What a call of [getOrCreateKey] that returns has done: the key is in
    the slot afterwards, and either nothing changed or the key was made
    and stored in this call. *)
Lemma getOrCreateKey_ok (laws : HostLaws H) (w w' : World) (k : Key H) :
  getOrCreateKey H w = (Ok k, w') →
  holds_key H k w' ∧ (w' = w ∨ ∃ keyData, w' = keyed keyData w).
Proof.
  unfold getOrCreateKey, bind, storage_get, holds_key, keyed.
  destruct (present (localStorage w !! key_slot)) as [keyData|] eqn:Hslot.
  - apply present_Some in Hslot as [Hslot Hne].
    destruct (from_base64 H keyData) as [keyBuffer|] eqn:Hb; simpl; [|done].
    destruct (importKey H keyBuffer) as [k'|] eqn:Hk; simpl; [|done].
    intros [= <- <-]. split; [|by left]. by exists keyData, keyBuffer.
  - unfold subtle_generateKey.
    destruct (generateKey H (entropy w)) as [key|] eqn:Hg; [|done].
    destruct (to_base64 H (exportKey H key)) as [keyData|] eqn:Hb; simpl; [|done].
    intros [= <- <-]. split; [|right; by exists keyData].
    exists keyData, (exportKey H key). simpl. rewrite lookup_insert_eq.
    repeat split.
    + intros ->. apply (base64_nonempty H laws) in Hb. by apply (export_nonempty H laws) in Hb.
    + by apply (from_to_base64 H laws).
    + by apply (import_export H laws).
Qed.

(** A call of [getOrCreateKey] that throws leaves the other slots alone. *)
Lemma getOrCreateKey_slots (w w' : World) (r : result (Key H)) (slot : string) :
  getOrCreateKey H w = (r, w') → slot ≠ key_slot →
  localStorage w' !! slot = localStorage w !! slot.
Proof.
  unfold getOrCreateKey, bind, storage_get. intros Hrun Hne.
  destruct (present (localStorage w !! key_slot)) as [keyData|].
  - destruct (from_base64 H keyData) as [keyBuffer|]; simpl in Hrun.
    + destruct (importKey H keyBuffer); simpl in Hrun; by injection Hrun as <- <-.
    + by injection Hrun as <- <-.
  - unfold subtle_generateKey in Hrun.
    destruct (generateKey H (entropy w)) as [key|]; [|by injection Hrun as <- <-].
    destruct (to_base64 H (exportKey H key)) as [keyData|]; simpl in Hrun;
      injection Hrun as <- <-; simpl; [|done].
    by rewrite lookup_insert_ne.
Qed.

(** What a run of the [try] block of [setItem] that completes has done. *)
Lemma setItem_secure_ok (key : string) (data : V) (w w' : World) :
  setItem_secure H key data w = (Ok tt, w') →
  ∃ k w1 cipher encrypted,
    getOrCreateKey H w = (Ok k, w1)
    ∧ encrypt H k (random_bytes H (entropy w1) 12) (utf8_encode H (stringify H data))
      = Some cipher
    ∧ to_base64 H (random_bytes H (entropy w1) 12 ++ cipher)%list = Some encrypted
    ∧ w' = with_localStorage (insert (encrypted_slot key) encrypted)
             (with_entropy (S (entropy w1)) w1).
Proof.
  unfold setItem_secure, bind at 1.
  destruct (getOrCreateKey H w) as [[k|e] w1] eqn:Hkey; [|done].
  unfold bind, getRandomValues, or_throw, storage_set. simpl.
  destruct (encrypt H k _ _) as [cipher|] eqn:Henc; simpl; [|done].
  destruct (to_base64 H _) as [encrypted|] eqn:Hb; simpl; [|done].
  intros [= <-]. by exists k, w1, cipher, encrypted.
Qed.

(** A run of the [try] block that throws has written no slot but, at
    most, the key slot. *)
Lemma setItem_secure_fail (key : string) (data : V) (w w' : World) (e slot : string) :
  setItem_secure H key data w = (Throw e, w') → slot ≠ key_slot →
  localStorage w' !! slot = localStorage w !! slot.
Proof.
  unfold setItem_secure, bind at 1. intros Hrun Hne.
  destruct (getOrCreateKey H w) as [[k|e'] w1] eqn:Hkey.
  - pose proof (getOrCreateKey_slots _ _ _ slot Hkey Hne) as Hslots.
    revert Hrun. unfold bind, getRandomValues, or_throw, storage_set. simpl.
    destruct (encrypt H k _ _) as [cipher|]; simpl; [|by intros [= _ <-]].
    destruct (to_base64 H _) as [encrypted|]; simpl; [done|by intros [= _ <-]].
  - injection Hrun as _ <-. by apply (getOrCreateKey_slots _ _ _ slot Hkey).
Qed.

(** [setItem] always returns. *)
Lemma setItem_returns (key : string) (data : V) (w : World) :
  fst (setItem H key data w) = Ok tt.
Proof.
  unfold setItem, try_catch.
  destruct (setItem_secure H key data w) as [[[]|e] w1]; done.
Qed.

(** Reading an encrypted slot under the key it was written with. *)
Lemma getItem_encrypted (laws : HostLaws H) (key : string) (data : V) (w : World)
    (k : Key H) (iv cipher : bytes) (encrypted : string) :
  holds_key H k w →
  localStorage w !! encrypted_slot key = Some encrypted →
  to_base64 H (iv ++ cipher)%list = Some encrypted →
  length iv = 12%nat →
  encrypt H k iv (utf8_encode H (stringify H data)) = Some cipher →
  parse H (stringify H data) = Some data →
  getItem H key w = (Ok (Some data), w).
Proof.
  intros Hkey Hslot Hb Hiv Henc Hparse.
  unfold getItem, try_catch, bind at 1, storage_get.
  assert (present (localStorage w !! encrypted_slot key) = Some encrypted) as ->.
  { apply present_Some. split; [done|]. intros ->.
    apply (base64_nonempty H laws) in Hb. destruct iv; [done|discriminate]. }
  unfold bind at 1. rewrite (getOrCreateKey_again w k Hkey).
  unfold bind, or_throw. rewrite (from_to_base64 H laws _ _ Hb). simpl.
  rewrite <- Hiv, take_app_length, drop_app_length.
  rewrite (decrypt_encrypt H laws _ _ _ _ Henc). simpl.
  rewrite (decode_encode H laws), Hparse. done.
Qed.

(** After a completed [try] block, [getItem] reads the value back and
    changes nothing, in every world that kept the key slot and the
    encrypted slot. *)
Lemma getItem_after_secure_any (laws : HostLaws H) (key : string) (data : V)
    (w w' w'' : World) :
  setItem_secure H key data w = (Ok tt, w') →
  parse H (stringify H data) = Some data →
  localStorage w'' !! key_slot = localStorage w' !! key_slot →
  localStorage w'' !! encrypted_slot key = localStorage w' !! encrypted_slot key →
  getItem H key w'' = (Ok (Some data), w'')
  ∧ ∃ encrypted, present (localStorage w' !! encrypted_slot key) = Some encrypted.
Proof.
  intros Hset Hparse Hks Hes.
  apply setItem_secure_ok in Hset as [k [w1 [cipher [encrypted [Hkey [Henc [Hb ->]]]]]]].
  apply (getOrCreateKey_ok laws) in Hkey as [[keyData [keyBuffer [Hne [Hslot [Hkb Hk]]]]] _].
  simpl in Hks, Hes. rewrite lookup_insert_eq in Hes.
  rewrite lookup_insert_ne in Hks by apply encrypted_slot_not_key_slot.
  split.
  - eapply (getItem_encrypted laws key data _ k); try done.
    + exists keyData, keyBuffer. by rewrite Hks.
    + apply (random_length H laws).
  - exists encrypted. simpl. rewrite lookup_insert_eq. apply present_Some. split; [done|].
    intros ->. apply (base64_nonempty H laws) in Hb.
    pose proof (random_length H laws (entropy w1) 12) as Hlen.
    destruct (random_bytes H (entropy w1) 12); [done|discriminate].
Qed.

Lemma getItem_after_secure (laws : HostLaws H) (key : string) (data : V) (w w' : World) :
  setItem_secure H key data w = (Ok tt, w') →
  parse H (stringify H data) = Some data →
  getItem H key w' = (Ok (Some data), w').
Proof.
  intros Hset Hparse.
  by destruct (getItem_after_secure_any laws key data w w' w' Hset Hparse).
Qed.

(** X1. The round trip of the vault, where it holds. For a value that JSON
    can carry ([parse] reads its [stringify] back), [setItem(key, data)]
    followed by [getItem(key)] returns the value, provided the encrypting
    [try] block of [setItem] completed or, when it fell back to the
    plaintext slot, no encrypted slot for the key was already stored.
    [getItem] imports the device key anew from its slot, also when
    [setItem] has just made it. *)
Theorem vault_round_trip (laws : HostLaws H) (key : string) (data : V) (w : World) :
  parse H (stringify H data) = Some data →
  fst (setItem_secure H key data w) = Ok tt
  ∨ present (localStorage w !! encrypted_slot key) = None →
  fst (getItem H key (snd (setItem H key data w))) = Ok (Some data).
Proof.
  intros Hparse Hcase. unfold setItem, try_catch.
  destruct (setItem_secure H key data w) as [[[]|e] w1] eqn:Hset.
  - simpl. by rewrite (getItem_after_secure laws key data w w1).
  - destruct Hcase as [Hok|Hfree]; [done|].
    pose proof (setItem_secure_fail _ _ _ _ _ (encrypted_slot key) Hset
                  (encrypted_slot_not_key_slot key)) as Hsame.
    unfold bind, log, storage_set. simpl.
    unfold getItem, try_catch, bind at 1, storage_get. simpl.
    rewrite lookup_insert_ne by (apply not_eq_sym, encrypted_slot_not_key).
    rewrite Hsame, Hfree.
    unfold bind at 1. simpl. rewrite lookup_insert_eq.
    assert (present (Some (stringify H data)) = Some (stringify H data)) as ->
      by (apply present_Some; split; [done|apply (stringify_nonempty H laws)]).
    unfold bind at 1, or_throw. rewrite Hparse. simpl.
    unfold bind at 1.
    match goal with |- context [setItem H key data ?w2] =>
      pose proof (setItem_returns key data w2) as Hret;
      destruct (setItem H key data w2) as [r w3] end.
    simpl in Hret. subst r. done.
Qed.

(** C8 (amended). Let a legacy plaintext slot hold JSON text, with no
    encrypted slot beside it, let the slot not be the vault's own key
    slot, and let the encrypting [try] block of [setItem] complete. Then
    the first [getItem] returns the data, leaves an encrypted slot and no
    legacy slot, and touches no slot but these two and the key slot; a
    second [getItem] returns the same data and changes nothing. *)
Theorem migration_idempotent (laws : HostLaws H) (key regular : string) (data : V)
    (w : World) :
  key ≠ key_slot →
  present (localStorage w !! encrypted_slot key) = None →
  present (localStorage w !! key) = Some regular →
  parse H regular = Some data →
  parse H (stringify H data) = Some data →
  fst (setItem_secure H key data w) = Ok tt →
  let w1 := snd (getItem H key w) in
  fst (getItem H key w) = Ok (Some data)
  ∧ (∃ encrypted, present (localStorage w1 !! encrypted_slot key) = Some encrypted)
  ∧ localStorage w1 !! key = None
  ∧ (∀ slot, slot ≠ key → slot ≠ encrypted_slot key → slot ≠ key_slot →
       localStorage w1 !! slot = localStorage w !! slot)
  ∧ getItem H key w1 = (Ok (Some data), w1).
Proof.
  intros Hkey Hfree Hlegacy Hparse Hser Hok.
  destruct (setItem_secure H key data w) as [[[]|e] w'] eqn:Hset; [|done]. clear Hok.
  assert (getItem H key w = (Ok (Some data), with_localStorage (delete key) w')) as Hrun.
  { unfold getItem, try_catch, bind at 1, storage_get. rewrite Hfree.
    unfold bind at 1. rewrite Hlegacy.
    unfold bind at 1, or_throw. rewrite Hparse. simpl.
    unfold bind at 1, setItem, try_catch. rewrite Hset. done. }
  rewrite Hrun. simpl.
  destruct (getItem_after_secure_any laws key data w w' (with_localStorage (delete key) w')
              Hset Hser) as [Hagain [encrypted Henc]].
  { simpl. by rewrite lookup_delete_ne. }
  { simpl. rewrite lookup_delete_ne; [done|]. apply not_eq_sym, encrypted_slot_not_key. }
  split; [done|]. split.
  { exists encrypted. rewrite lookup_delete_ne; [done|].
    apply not_eq_sym, encrypted_slot_not_key. }
  split; [by rewrite lookup_delete_eq|]. split; [|done].
  intros slot Hs1 Hs2 Hs3. rewrite lookup_delete_ne by done.
  apply setItem_secure_ok in Hset as [k [wk [cipher [enc [Hk [_ [_ ->]]]]]]].
  simpl. rewrite lookup_insert_ne by done.
  by apply (getOrCreateKey_slots _ _ _ slot Hk).
Qed.

End VaultFacts.

(** ** The in-memory host is a host *)

Section DemoFacts.

Import JS Model CryptoManager.
Open Scope string_scope.

Lemma print_N_aux_nonempty (fuel : nat) :
  ∀ n acc, acc ≠ "" → Demo.print_N_aux fuel n acc ≠ "".
Proof.
  induction fuel as [|fuel IH]; intros n acc Hacc; simpl; [done|].
  destruct (n / 10 =? 0)%N; [done|]. by apply IH.
Qed.

Lemma print_nonempty (v : value) : Demo.print v ≠ "".
Proof.
  destruct v as [| |[]|n|s|fields]; try done.
  - destruct n as [|p|p]; try done; unfold Demo.print, Demo.print_Z, Demo.print_N;
      simpl; (destruct (_ =? 0)%N; [done|by apply print_N_aux_nonempty]).
Qed.

Lemma demo_laws (crypto_available : bool) (max_args : nat) :
  HostLaws (Demo.host crypto_available max_args).
Proof.
  split; simpl.
  - apply string_of_list_byte_of_string.
  - intros b s. destruct (length b <=? max_args)%nat; [|done].
    intros [= <-]. by rewrite list_byte_of_string_of_list_byte.
  - intros b. destruct (length b <=? max_args)%nat; [|done].
    destruct b; [done|discriminate].
  - intros k. unfold Demo.key_bytes at 1. simpl. by rewrite decide_True.
  - done.
  - intros k iv plain cipher [= <-].
    rewrite decide_True; [by rewrite drop_app_length|].
    split; [done|]. by rewrite take_app_length.
  - intros n len. apply repeat_length.
  - apply print_nonempty.
Qed.

End DemoFacts.

(** ** The vault on concrete inputs *)

Section VaultExamples.

Import JS Model CryptoManager.
Open Scope string_scope.

(** The round trip at a record map, from an empty store: the key is made
    by [setItem] and imported again by [getItem]. *)
Lemma vault_round_trip_example :
  fst (getItem (Demo.host true 1000) "qr-codes"
         (snd (setItem (Demo.host true 1000) "qr-codes"
                 (Demo.records "abc" "https://example.org") Demo.offline)))
  = Ok (Some (Demo.records "abc" "https://example.org")).
Proof.
  refine (vault_round_trip (Demo.host true 1000) (demo_laws true 1000) "qr-codes"
            (Demo.records "abc" "https://example.org") Demo.offline _ _).
  - vm_compute. reflexivity.
  - left. vm_compute. reflexivity.
Defined.

(** C7 fails on the code. The host takes at most 40 arguments in a call
    (browsers take some 10^5, which a record map with an embedded logo
    exceeds). A small value is stored encrypted. Storing a longer one
    then makes [String.fromCharCode(...combined)] throw, so [setItem]
    falls back to the plaintext slot and leaves the encrypted slot as it
    was; [getItem] reads the encrypted slot first and returns the small
    value, not the one just stored. *)
Theorem vault_round_trip_stale_after_fallback :
  let H := Demo.host true 40 in
  let w := snd (setItem H "k" (VNum 1) Demo.offline) in
  let data := VStr "a text that is longer than the forty arguments a call takes" in
  HostLaws H
  ∧ parse H (stringify H data) = Some data
  ∧ fst (setItem_secure H "k" (VNum 1) Demo.offline) = Ok tt
  ∧ fst (setItem_secure H "k" data w) = Throw "btoa failed"
  ∧ localStorage (snd (setItem H "k" data w)) !! "k" = Some (stringify H data)
  ∧ fst (getItem H "k" (snd (setItem H "k" data w))) = Ok (Some (VNum 1))
  ∧ fst (getItem H "k" (snd (setItem H "k" data w))) ≠ Ok (Some data).
Proof.
  intros H w data. split; [apply demo_laws|]. split; [vm_compute; reflexivity|].
  split; [vm_compute; reflexivity|]. split; [vm_compute; reflexivity|].
  split; [vm_compute; reflexivity|]. split; [vm_compute; reflexivity|].
  vm_compute. discriminate.
Qed.

(** Migration of a legacy slot that holds a record map. *)
Lemma migration_idempotent_witness :
  let H := Demo.host true 1000 in
  let data := Demo.records "abc" "https://example.org" in
  let w := Demo.stored "qr-codes" (stringify H data) Demo.offline in
  let w1 := snd (getItem H "qr-codes" w) in
  fst (getItem H "qr-codes" w) = Ok (Some data)
  ∧ localStorage w1 !! "qr-codes" = None
  ∧ getItem H "qr-codes" w1 = (Ok (Some data), w1).
Proof.
  intros H data w w1.
  pose proof (migration_idempotent H (demo_laws true 1000) "qr-codes"
                (stringify H data) data w) as Hmig.
  destruct Hmig as [H1 [_ [H3 [_ H5]]]].
  - discriminate.
  - vm_compute. reflexivity.
  - vm_compute. reflexivity.
  - vm_compute. reflexivity.
  - vm_compute. reflexivity.
  - vm_compute. reflexivity.
  - split; [exact H1|]. split; [exact H3|exact H5].
Defined.

(** C8 as stated fails. Where [crypto.subtle] makes no key, [setItem]
    writes the migrated data back to the plaintext slot, which [getItem]
    then removes: after the first run there is neither an encrypted slot
    nor a legacy slot, and the second run returns [null]. *)
Lemma migration_without_encryption_loses_data :
  let H := Demo.host false 1000 in
  let data := Demo.records "abc" "https://example.org" in
  let w := Demo.stored "qr-codes" (stringify H data) Demo.offline in
  let w1 := snd (getItem H "qr-codes" w) in
  HostLaws H
  ∧ present (localStorage w !! encrypted_slot "qr-codes") = None
  ∧ present (localStorage w !! "qr-codes") = Some (stringify H data)
  ∧ parse H (stringify H data) = Some data
  ∧ fst (getItem H "qr-codes" w) = Ok (Some data)
  ∧ localStorage w1 !! encrypted_slot "qr-codes" = None
  ∧ localStorage w1 !! "qr-codes" = None
  ∧ fst (getItem H "qr-codes" w1) = Ok None.
Proof.
  intros H data w w1. split; [apply demo_laws|].
  repeat split; vm_compute; reflexivity.
Qed.

End VaultExamples.

(** ** Classification and dispatch of the stored text *)

Section DispatchFacts.

Import JS Model QRRedirectManager.
Open Scope string_scope.

Context (parseURL : string → option URL).

Lemma toLowerCase_app (a b : string) :
  toLowerCase (a +:+ b) = toLowerCase a +:+ toLowerCase b.
Proof.
  induction a as [|c a IH]; [done|]. rewrite str_app_cons. simpl.
  rewrite str_app_cons. congruence.
Qed.

(** A split of the lower-cased text comes from a split of the text. *)
Lemma toLowerCase_split (s a b : string) :
  toLowerCase s = a +:+ b →
  ∃ sa sb, s = sa +:+ sb ∧ toLowerCase sa = a ∧ toLowerCase sb = b.
Proof.
  revert s. induction a as [|c a IH]; intros s Hs.
  - by exists "", s.
  - destruct s as [|x s]; [discriminate|].
    rewrite str_app_cons in Hs. simpl in Hs. injection Hs as Hc Hs.
    destruct (IH s Hs) as [sa [sb [-> [Ha Hb]]]].
    exists (String x sa), sb. rewrite str_app_cons. simpl. by rewrite Hc, Ha.
Qed.

Lemma includes_contains (s p : string) : includes s p = true ↔ contains s p.
Proof. apply includes_spec. Qed.

Lemma includes_lower (s p : string) :
  includes (toLowerCase s) p = true ↔ contains_ci s p.
Proof.
  rewrite includes_spec. unfold contains_ci. split.
  - intros [pre [post Hs]].
    apply toLowerCase_split in Hs as [sa [rest [-> [Ha Hrest]]]].
    apply toLowerCase_split in Hrest as [w [sb [-> [Hw Hb]]]].
    by exists sa, w, sb.
  - intros [pre [w [post [-> Hw]]]].
    exists (toLowerCase pre), (toLowerCase post).
    by rewrite !toLowerCase_app, Hw.
Qed.

Lemma endsWith_spec (s suffix : string) :
  endsWith s suffix = true ↔ ∃ pre, s = pre +:+ suffix.
Proof.
  induction s as [|c s IH]; cbn [endsWith]; rewrite orb_true_iff, String.eqb_eq.
  - split.
    + intros [<-|]; [by exists ""|done].
    + intros [pre H]. left. destruct pre; [done|discriminate].
  - rewrite IH. split.
    + intros [<-|[pre ->]]; [by exists ""|]. by exists (String c pre).
    + intros [pre H]. destruct pre as [|x pre]; [by left|].
      right. rewrite str_app_cons in H. injection H as -> ->. by exists pre.
Qed.

Lemma isWhitelistedDomain_spec (s : string) :
  isWhitelistedDomain parseURL s = true ↔ allow_listed parseURL s.
Proof.
  unfold isWhitelistedDomain, allow_listed.
  destruct (parseURL s) as [url|]; [|split; [done|by intros [? [? [? _]]]]].
  rewrite existsb_exists. split.
  - intros [domain [Hin Hd]]. exists url, domain. split; [done|].
    split; [by apply list_elem_of_In|].
    apply orb_true_iff in Hd as [Hd|Hd]; [left; by apply String.eqb_eq|].
    right. by apply endsWith_spec.
  - intros [url' [domain [[= <-] [Hin Hd]]]]. exists domain.
    split; [by apply list_elem_of_In|].
    apply orb_true_iff. destruct Hd as [Hd|Hd]; [left; by apply String.eqb_eq|].
    right. by apply endsWith_spec.
Qed.

(** C4. A text is classified as navigable exactly when it parses as a URL
    with scheme http or https and contains, in no letter case, any of
    [javascript:], [data:], [vbscript:], [file:], [ftp:]; or it does not
    parse, contains one of [.com], [.org], [.net], [www.], and parses once
    [https://] is put in front of it. *)
Theorem isValidURL_spec (s : string) :
  isValidURL parseURL s = true
  ↔ (∃ url, parseURL s = Some url
            ∧ (protocol url = "http:" ∨ protocol url = "https:")
            ∧ ∀ pattern, pattern ∈ ["javascript:"; "data:"; "vbscript:"; "file:"; "ftp:"] →
                         ¬ contains_ci s pattern)
    ∨ (parseURL s = None
       ∧ (contains s ".com" ∨ contains s ".org" ∨ contains s ".net" ∨ contains s "www.")
       ∧ is_Some (parseURL ("https://" +:+ s))).
Proof.
  unfold isValidURL. destruct (parseURL s) as [url|] eqn:Hparse.
  - assert (existsb (String.eqb (protocol url)) ["http:"; "https:"] = true
            ↔ protocol url = "http:" ∨ protocol url = "https:") as Hscheme.
    { cbn [existsb]. rewrite orb_false_r, orb_true_iff, !String.eqb_eq. tauto. }
    assert (existsb (λ pattern, includes (toLowerCase s) pattern) dangerousPatterns = false
            ↔ ∀ pattern, pattern ∈ dangerousPatterns → ¬ contains_ci s pattern) as Hdanger.
    { rewrite <- not_true_iff_false, existsb_exists. split.
      - intros Hno pattern Hin Hc. apply Hno. exists pattern.
        split; [by apply list_elem_of_In|by apply includes_lower].
      - intros Hno [pattern [Hin Hc]]. apply (Hno pattern); [by apply list_elem_of_In|].
        by apply includes_lower. }
    destruct (existsb (String.eqb (protocol url)) _) eqn:Hs; cbn [negb].
    + destruct (existsb (λ pattern, includes (toLowerCase s) pattern) _) eqn:Hd.
      * split; [done|]. intros [[url' [[= <-] [_ Hno]]]|[? _]]; [|done].
        apply Hdanger in Hno. congruence.
      * split; [|done]. intros _. left. exists url. split; [done|].
        split; [by apply Hscheme|by apply Hdanger].
    + split; [done|]. intros [[url' [[= <-] [Hp _]]]|[? _]]; [|done].
      apply Hscheme in Hp. congruence.
  - rewrite <- !includes_contains.
    destruct (includes s ".com" || includes s ".org" || includes s ".net"
              || includes s "www.") eqn:Hany.
    + rewrite !orb_true_iff in Hany.
      destruct (parseURL ("https://" +:+ s)) as [url|].
      * split; [|done]. intros _. right. split; [done|]. split; [tauto|by eexists].
      * split; [done|]. intros [[? [? _]]|[_ [_ [? ?]]]]; done.
    + rewrite !orb_false_iff in Hany. split; [done|].
      intros [[? [? _]]|[_ [Hc _]]]; [done|].
      destruct Hany as [[[H1 H2] H3] H4]. rewrite H1, H2, H3, H4 in Hc.
      repeat destruct Hc as [Hc|Hc]; done.
Qed.

Context (confirm : string → bool).

(** C5. For a navigable text: when the host is an allowed domain or a
    subdomain of one, the page navigates at once and asks nothing;
    otherwise it asks for confirmation first, then navigates if the user
    agrees and shows the text if not. In particular the Meet link
    navigates at once and the link to evil-example.com asks first. *)
Theorem redirect_policy :
  (∀ text, isValidURL parseURL text = true →
     (allow_listed parseURL text →
        redirectToOriginal parseURL confirm text = [Navigate text])
     ∧ (¬ allow_listed parseURL text →
        redirectToOriginal parseURL confirm text
        = [Confirm (confirmation text);
           if confirm (confirmation text) then Navigate text else ShowText text]))
  ∧ (parseURL "https://meet.google.com/abc-defg-hij"
       = Some {| protocol := "https:"; hostname := "meet.google.com" |} →
     redirectToOriginal parseURL confirm "https://meet.google.com/abc-defg-hij"
     = [Navigate "https://meet.google.com/abc-defg-hij"])
  ∧ (parseURL "https://evil-example.com/phish"
       = Some {| protocol := "https:"; hostname := "evil-example.com" |} →
     redirectToOriginal parseURL confirm "https://evil-example.com/phish"
     = [Confirm (confirmation "https://evil-example.com/phish");
        if confirm (confirmation "https://evil-example.com/phish")
        then Navigate "https://evil-example.com/phish"
        else ShowText "https://evil-example.com/phish"]).
Proof.
  split; [|split].
  - intros text Hvalid. unfold redirectToOriginal. rewrite Hvalid. split.
    + intros Hallow. apply isWhitelistedDomain_spec in Hallow. by rewrite Hallow.
    + intros Hno.
      destruct (isWhitelistedDomain parseURL text) eqn:Hw.
      * by apply isWhitelistedDomain_spec in Hw.
      * by destruct (confirm (confirmation text)).
  - intros Hmeet. unfold redirectToOriginal, isValidURL, isWhitelistedDomain.
    rewrite Hmeet. vm_compute. reflexivity.
  - intros Hevil. unfold redirectToOriginal, isValidURL, isWhitelistedDomain.
    rewrite Hevil. cbn [protocol hostname].
    replace (negb (existsb (String.eqb "https:") ["http:"; "https:"])) with false
      by (vm_compute; reflexivity).
    replace (existsb (λ pattern, includes (toLowerCase "https://evil-example.com/phish") pattern)
               dangerousPatterns) with false by (vm_compute; reflexivity).
    replace (existsb _ allowedDomains) with false by (vm_compute; reflexivity).
    by destruct (confirm _).
Qed.

End DispatchFacts.

(** ** Dispatch on concrete inputs *)

Section DispatchExamples.

Import JS Model QRRedirectManager.
Open Scope string_scope.

(** The policy with the URL parser of the in-memory host and a user who
    declines. *)
Lemma redirect_policy_witness :
  redirectToOriginal Demo.parseURL (λ _, false) "https://meet.google.com/abc-defg-hij"
  = [Navigate "https://meet.google.com/abc-defg-hij"]
  ∧ redirectToOriginal Demo.parseURL (λ _, false) "https://evil-example.com/phish"
    = [Confirm (confirmation "https://evil-example.com/phish");
       ShowText "https://evil-example.com/phish"]
  ∧ redirectToOriginal Demo.parseURL (λ _, false) "https://sub.zoom.us/j/1"
    = [Navigate "https://sub.zoom.us/j/1"].
Proof.
  destruct (redirect_policy Demo.parseURL (λ _, false)) as [Hall [Hmeet Hevil]].
  split; [apply Hmeet; vm_compute; reflexivity|].
  split; [apply Hevil; vm_compute; reflexivity|].
  assert (isValidURL Demo.parseURL "https://sub.zoom.us/j/1" = true) as Hvalid
    by (vm_compute; reflexivity).
  pose proof (Hall "https://sub.zoom.us/j/1" Hvalid) as [Hallow _].
  apply Hallow. exists {| protocol := "https:"; hostname := "sub.zoom.us" |}, "zoom.us".
  split; [vm_compute; reflexivity|]. split; [|right; by exists "sub"].
  apply list_elem_of_In. simpl. tauto.
Defined.

End DispatchExamples.

(** ** The record store *)

Section StoreFacts.

Import JS Model CryptoManager FirebaseManager.
Open Scope string_scope.

Context (H : Host value).


(** With an encrypted slot and a key slot in place, [getItem] writes
    nothing: at most it logs. *)
Lemma getItem_steady {V : Type} (G : Host V) (key : string) (w : World) :
  is_Some (present (localStorage w !! encrypted_slot key)) →
  is_Some (present (localStorage w !! key_slot)) →
  ∃ lines, snd (getItem G key w) = with_console lines w.
Proof.
  intros [encrypted Henc] [keyData Hkey].
  assert (∀ w0 : World, w0 = with_console (console w0) w0) as Hsame by (by intros []).
  unfold getItem, try_catch, bind at 1, storage_get. rewrite Henc.
  unfold bind at 1, getOrCreateKey, bind at 1, storage_get. rewrite Hkey.
  unfold bind, or_throw, log.
  destruct (from_base64 G keyData) as [keyBuffer|]; simpl; [|by eexists].
  destruct (importKey G keyBuffer) as [k|]; simpl; [|by eexists].
  destruct (from_base64 G encrypted) as [combined|]; simpl; [|by eexists].
  destruct (decrypt G k _ _) as [plain|]; simpl; [|by eexists].
  destruct (parse G _) as [data|]; simpl; by eexists.
Qed.

(** C10 (amended). On the local tier, let the record map read from the
    vault be an object, and let the id name neither a record of the map
    (its entry is missing or falsy) nor a property that every object
    inherits ([constructor], [toString], ...; for such a name the read
    [localQRs[qrId]] finds the inherited value and the call takes the
    branch of a stored record). Then [incrementScanCount(qrId)] returns
    normally and writes nothing back: beyond its console line it leaves
    the page exactly as the vault read that opens the call leaves it
    (that read may make the device key or migrate a legacy slot). When
    the encrypted slot and the key slot are in place, [localStorage] and
    the remote records are as before the call: no record is created and
    no other record is touched. *)
Theorem incrementScanCount_absent (now server_now : Z) (qrId : string)
    (w w1 : World) (fields : list (string * value)) :
  firebase_sdk w && database w = false →
  load_local H w = (Ok (VObj fields), w1) →
  ObjectPrototype.inherited qrId = false →
  truthy (assoc qrId fields) = false →
  incrementScanCount H now server_now qrId w
  = (Ok tt, with_console (console w1 ++ ["Scan count incremented locally for:"]) w1)
  ∧ w1 = snd (getItem H "qr-codes" w)
  ∧ (is_Some (present (localStorage w !! encrypted_slot "qr-codes")) →
     is_Some (present (localStorage w !! key_slot)) →
     localStorage w1 = localStorage w ∧ remote w1 = remote w).
Proof.
  intros Hlocal Hload _ Habsent.
  assert (w1 = snd (getItem H "qr-codes" w)) as Hw1.
  { revert Hload. unfold load_local, bind, ret.
    destruct (getItem H "qr-codes" w) as [[stored|e] w'']; [|done]. by intros [= _ <-]. }
  split; [|split; [done|]].
  - unfold incrementScanCount, try_catch, bind at 1, uses_remote. rewrite Hlocal.
    unfold bind at 1. rewrite Hload.
    unfold bind at 1. cbn [get_prop]. rewrite Habsent. done.
  - intros Henc Hkey.
    destruct (getItem_steady H "qr-codes" w Henc Hkey) as [lines Hsteady].
    rewrite Hw1, Hsteady. done.
Qed.

(** *** Each operation works on one tier *)

Lemma keeps_ret {A : Type} (a : A) : keeps_backend (ret a).
Proof. by intros w. Qed.

Lemma keeps_throw {A : Type} (e : string) : keeps_backend (throw (A:=A) e).
Proof. by intros w. Qed.

Lemma keeps_bind {A B : Type} (m : M A) (k : A → M B) :
  keeps_backend m → (∀ a, keeps_backend (k a)) → keeps_backend (bind m k).
Proof.
  intros Hm Hk w. unfold bind. specialize (Hm w).
  destruct (m w) as [[a|e] w']; simpl in *; [|done]. by rewrite Hk.
Qed.

Lemma keeps_try {A : Type} (m : M A) (h : string → M A) :
  keeps_backend m → (∀ e, keeps_backend (h e)) → keeps_backend (try_catch m h).
Proof.
  intros Hm Hh w. unfold try_catch. specialize (Hm w).
  destruct (m w) as [[a|e] w']; simpl in *; [done|]. by rewrite Hh.
Qed.

Lemma keeps_or_throw {A : Type} (e : string) (o : option A) : keeps_backend (or_throw e o).
Proof. destruct o; [apply keeps_ret|apply keeps_throw]. Qed.

Lemma keeps_log (line : string) : keeps_backend (log line).
Proof. by intros w. Qed.

Lemma keeps_storage_get (k : string) : keeps_backend (storage_get k).
Proof. by intros w. Qed.

Lemma keeps_storage_set (k v : string) : keeps_backend (storage_set k v).
Proof. by intros w. Qed.

Lemma keeps_storage_remove (k : string) : keeps_backend (storage_remove k).
Proof. by intros w. Qed.

Lemma keeps_getOrCreateKey {V : Type} (G : Host V) : keeps_backend (getOrCreateKey G).
Proof.
  unfold getOrCreateKey. apply keeps_bind; [apply keeps_storage_get|]. intros keyData.
  destruct (present keyData).
  - apply keeps_bind; [apply keeps_or_throw|]. intros ?. apply keeps_or_throw.
  - apply keeps_bind.
    + intros w. unfold subtle_generateKey. by destruct (generateKey G (entropy w)).
    + intros key. apply keeps_bind; [apply keeps_or_throw|]. intros ?.
      apply keeps_bind; [apply keeps_storage_set|]. intros ?. apply keeps_ret.
Qed.

Lemma keeps_setItem {V : Type} (G : Host V) (key : string) (data : V) :
  keeps_backend (setItem G key data).
Proof.
  unfold setItem. apply keeps_try.
  - unfold setItem_secure. apply keeps_bind; [apply keeps_getOrCreateKey|]. intros k.
    apply keeps_bind; [by intros w|]. intros iv.
    apply keeps_bind; [apply keeps_or_throw|]. intros cipher.
    apply keeps_bind; [apply keeps_or_throw|]. intros encrypted.
    apply keeps_storage_set.
  - intros e. apply keeps_bind; [apply keeps_log|]. intros ?. apply keeps_storage_set.
Qed.

Lemma keeps_getItem {V : Type} (G : Host V) (key : string) : keeps_backend (getItem G key).
Proof.
  unfold getItem. apply keeps_try.
  - apply keeps_bind; [apply keeps_storage_get|]. intros encrypted.
    destruct (present encrypted).
    + apply keeps_bind; [apply keeps_getOrCreateKey|]. intros k.
      apply keeps_bind; [apply keeps_or_throw|]. intros combined.
      apply keeps_bind; [apply keeps_or_throw|]. intros plain.
      apply keeps_bind; [apply keeps_or_throw|]. intros parsed. apply keeps_ret.
    + apply keeps_bind; [apply keeps_storage_get|]. intros regular.
      destruct (present regular); [|apply keeps_ret].
      apply keeps_bind; [apply keeps_or_throw|]. intros data.
      apply keeps_bind; [apply keeps_setItem|]. intros ?.
      apply keeps_bind; [apply keeps_storage_remove|]. intros ?. apply keeps_ret.
  - intros e. apply keeps_bind; [apply keeps_log|]. intros ?. apply keeps_ret.
Qed.

Lemma keeps_load_local : keeps_backend (load_local H).
Proof.
  unfold load_local. apply keeps_bind; [apply keeps_getItem|]. intros ?. apply keeps_ret.
Qed.

(** The tier of an operation is decided by the test
    [typeof firebase !== 'undefined' && window.database] alone, anew in
    each call: when it holds the operation leaves [localStorage] as it
    was, when it fails the operation leaves the Firebase part of the page
    as it was. The connectivity flag [databaseAvailable] is not read. *)
Lemma operations_use_one_tier (qrId originalText name : string) (logoPath : value)
    (now server_now : Z) (w : World) :
  (firebase_sdk w && database w = true →
     localStorage (snd (createQRCode H qrId now server_now originalText name logoPath w))
     = localStorage w
     ∧ localStorage (snd (getQRCode H qrId w)) = localStorage w
     ∧ localStorage (snd (incrementScanCount H now server_now qrId w)) = localStorage w
     ∧ localStorage (snd (getRecentQRCodes H w)) = localStorage w)
  ∧ (firebase_sdk w && database w = false →
     backend (snd (createQRCode H qrId now server_now originalText name logoPath w))
     = backend w
     ∧ backend (snd (getQRCode H qrId w)) = backend w
     ∧ backend (snd (incrementScanCount H now server_now qrId w)) = backend w
     ∧ backend (snd (getRecentQRCodes H w)) = backend w).
Proof.
  split; intros Htier.
  - unfold createQRCode, getQRCode, incrementScanCount, getRecentQRCodes.
    unfold try_catch, bind, uses_remote, ref_set, ref_once, ref_transaction, ref_recent, log.
    rewrite Htier. repeat split.
    + by destruct (remote_up w).
    + by destruct (remote_up w).
    + destruct (remote_up w); [|done].
      by destruct (if truthy _ then _ else _).
    + by destruct (remote_up w).
  - assert (∀ (A : Type) (m1 m2 : M A), keeps_backend m2 →
              backend (snd (bind uses_remote (λ r : bool, if r then m1 else m2) w))
              = backend w) as Hbranch.
    { intros A m1 m2 Hm2. unfold bind at 1, uses_remote. rewrite Htier. apply Hm2. }
    assert (∀ (A : Type) (m1 m2 : M A) (h : string → M A),
              keeps_backend m2 → (∀ e, keeps_backend (h e)) →
              backend (snd (try_catch (bind uses_remote (λ r : bool, if r then m1 else m2)) h w))
              = backend w) as Htry.
    { intros A m1 m2 h Hm2 Hh. unfold try_catch.
      specialize (Hbranch A m1 m2 Hm2).
      destruct (bind uses_remote _ w) as [[a|e] w']; simpl in *; [done|].
      by rewrite Hh. }
    repeat split.
    + unfold createQRCode, try_catch, bind at 1.
      unfold bind at 1, uses_remote. rewrite Htier.
      match goal with |- context [bind ?m ?k w] =>
        assert (keeps_backend (bind m k)) as Hk end.
      { apply keeps_bind; [apply keeps_load_local|]. intros ?.
        apply keeps_bind; [apply keeps_setItem|]. intros ?. apply keeps_log. }
      specialize (Hk w).
      match goal with |- context [bind ?m ?k w] => destruct (bind m k w) as [[a|e] w'] end;
        simpl in *; done.
    + unfold getQRCode. apply Htry.
      * apply keeps_bind; [apply keeps_load_local|]. intros ?. apply keeps_ret.
      * intros e. apply keeps_bind; [apply keeps_log|]. intros ?. apply keeps_throw.
    + unfold incrementScanCount. apply Htry.
      * apply keeps_bind; [apply keeps_load_local|]. intros localQRs.
        apply keeps_bind; [|intros ?; apply keeps_log].
        destruct (truthy _); [apply keeps_setItem|apply keeps_ret].
      * intros e. apply keeps_bind; [apply keeps_log|]. intros ?. apply keeps_throw.
    + unfold getRecentQRCodes. apply Htry.
      * apply keeps_bind; [apply keeps_load_local|]. intros ?. apply keeps_ret.
      * intros e. apply keeps_bind; [apply keeps_log|]. intros ?. apply keeps_ret.
Qed.

End StoreFacts.

(** ** The record store on concrete inputs *)

Section StoreExamples.

Import JS Model CryptoManager FirebaseManager.
Open Scope string_scope.

(** An offline page whose vault holds the record [abc]: the increment of
    an id that is not stored changes neither [localStorage] nor the
    remote records. *)
Lemma incrementScanCount_absent_witness :
  let H := Demo.host true 1000 in
  let w := snd (setItem H "qr-codes" (Demo.records "abc" "https://example.org")
                  Demo.offline) in
  fst (incrementScanCount H 1700000000500 0 "zzz" w) = Ok tt
  ∧ localStorage (snd (incrementScanCount H 1700000000500 0 "zzz" w)) = localStorage w.
Proof.
  intros H w.
  pose proof (incrementScanCount_absent H 1700000000500 0 "zzz" w
                (snd (load_local H w))
                [("abc", Demo.record "abc" "https://example.org")]) as Hthm.
  destruct Hthm as [Hrun [_ Hsteady]].
  - vm_compute. reflexivity.
  - vm_compute. reflexivity.
  - reflexivity.
  - reflexivity.
  - rewrite Hrun. split; [reflexivity|].
    apply Hsteady; vm_compute; eexists; reflexivity.
Defined.

(** C10 as stated fails. On an offline page whose records are still in
    the legacy plaintext slot, the increment of an id that is not stored
    (and that names no inherited property) returns normally, but the
    vault read that opens it migrates the slot: storage is written, the
    plaintext slot is gone and an encrypted slot and a key slot have
    appeared. *)
Lemma incrementScanCount_absent_migrates :
  let H := Demo.host true 1000 in
  let data := Demo.records "abc" "https://example.org" in
  let w := Demo.stored "qr-codes" (stringify H data) Demo.offline in
  let w' := snd (incrementScanCount H 1700000000500 0 "zzz" w) in
  firebase_sdk w && database w = false
  ∧ fst (load_local H w) = Ok data
  ∧ ObjectPrototype.inherited "zzz" = false
  ∧ truthy (get_prop data "zzz") = false
  ∧ fst (incrementScanCount H 1700000000500 0 "zzz" w) = Ok tt
  ∧ localStorage w !! "qr-codes" = Some (stringify H data)
  ∧ localStorage w' !! "qr-codes" = None
  ∧ localStorage w !! encrypted_slot "qr-codes" = None
  ∧ is_Some (localStorage w' !! encrypted_slot "qr-codes")
  ∧ localStorage w' ≠ localStorage w.
Proof.
  intros H data w w'.
  assert (localStorage w !! "qr-codes" = Some (stringify H data)) as Hbefore
    by (vm_compute; reflexivity).
  assert (localStorage w' !! "qr-codes" = None) as Hafter by (vm_compute; reflexivity).
  split; [vm_compute; reflexivity|]. split; [vm_compute; reflexivity|].
  split; [reflexivity|].
  split; [vm_compute; reflexivity|]. split; [vm_compute; reflexivity|].
  split; [exact Hbefore|]. split; [exact Hafter|].
  split; [vm_compute; reflexivity|].
  split; [vm_compute; eexists; reflexivity|].
  intros Heq. rewrite Heq, Hbefore in Hafter. discriminate Hafter.
Qed.

(** C2 fails on the code. Firebase is initialised and its handle is set,
    the connectivity listener has reported a disconnect, so the status
    reads "disconnected"; the vault holds a local record [abc] and the
    database a different one. Every operation still works on the remote
    tier: [getQRCode] returns the remote record, [incrementScanCount] and
    [createQRCode] change the remote records and leave [localStorage]
    alone, [getRecentQRCodes] lists the remote records. *)
Theorem store_uses_remote_while_disconnected :
  let H := Demo.host true 1000 in
  let w0 := snd (setItem H "qr-codes" (Demo.records "abc" "local text") Demo.online) in
  let w1 := with_remote (insert "abc" (Demo.record "abc" "remote text")) w0 in
  let w := snd (FirebaseStatus.on_connected false w1) in
  FirebaseStatus.getStatus w = "disconnected"
  ∧ FirebaseStatus.isAvailable w = false
  ∧ fst (getItem H "qr-codes" w) = Ok (Some (Demo.records "abc" "local text"))
  ∧ fst (getQRCode H "abc" w) = Ok (Demo.record "abc" "remote text")
  ∧ (let w' := snd (incrementScanCount H 1700000000500 1700000000900 "abc" w) in
     get_prop (default VNull (remote w' !! "abc")) "scanCount" = VNum 1
     ∧ localStorage w' = localStorage w)
  ∧ (let w' := snd (createQRCode H "new" 1700000000500 1700000000900 "text" "Name" VNull w) in
     is_Some (remote w' !! "new") ∧ localStorage w' = localStorage w)
  ∧ fst (getRecentQRCodes H w) = Ok [Demo.record "abc" "remote text"].
Proof.
  intros H w0 w1 w.
  assert (firebase_sdk w && database w = true) as Htier by (vm_compute; reflexivity).
  pose proof (operations_use_one_tier H "abc" "" "" VNull 1700000000500 1700000000900 w)
    as [Hinc _].
  pose proof (operations_use_one_tier H "new" "text" "Name" VNull 1700000000500 1700000000900 w)
    as [Hnew _].
  destruct (Hinc Htier) as [_ [_ [Hi _]]]. destruct (Hnew Htier) as [Hc _].
  split; [vm_compute; reflexivity|]. split; [vm_compute; reflexivity|].
  split; [vm_compute; reflexivity|]. split; [vm_compute; reflexivity|].
  split; [split; [vm_compute; reflexivity|exact Hi]|].
  split; [split; [vm_compute; eexists; reflexivity|exact Hc]|].
  vm_compute. reflexivity.
Qed.

End StoreExamples.

(** ** Resolution of the record *)

Section ResolverFacts.

Import JS Model CryptoManager QRRedirectManager.
Open Scope string_scope.

Context (H : Host value) (securityUtils : bool).










Lemma bind_ok {A B : Type} (m : M A) (k : A → M B) (w w' : World) (a : A) :
  m w = (Ok a, w') → bind m k w = k a w'.
Proof. intros Hm. unfold bind. by rewrite Hm. Qed.

(** The first hit wins: a record from the remote tier is returned at
    once; no later source is tried. *)
Lemma resolve_first_hit (manager : option Manager) (qrId : string)
    (fallbackData : option string) (w w1 : World) (found : value * string) :
  try_firebase manager qrId w = (Ok found, w1) →
  truthy (fst found) = true →
  resolve H manager securityUtils qrId fallbackData w = (Ok found, w1).
Proof.
  intros Hremote Hhit. unfold resolve.
  rewrite (bind_ok _ _ _ _ _ Hremote), Hhit.
  unfold bind, ret. by rewrite Hhit.
Qed.

(** A miss or a failure of the remote tier and a hit in the vault: the
    record of the vault is returned, whatever the URL carries, and the
    call ends with the console line of that hit: neither the legacy slot
    nor the payload of the URL is tried. *)
Lemma resolve_encrypted_hit (manager : option Manager) (qrId : string)
    (fallbackData : option string) (w w1 w2 : World) (found : value * string)
    (stored : option value) :
  securityUtils = true →
  try_firebase manager qrId w = (Ok found, w1) →
  truthy (fst found) = false →
  getItem H "qr-codes" (snd (log "Trying localStorage fallback..." w1)) = (Ok stored, w2) →
  truthy (or_else (get_prop (or_else (default VNull stored) (VObj [])) qrId) VNull) = true →
  resolve H manager securityUtils qrId fallbackData w
  = (Ok (or_else (get_prop (or_else (default VNull stored) (VObj [])) qrId) VNull,
         "encrypted_storage"),
     snd (log "Data found in encrypted localStorage" w2)).
Proof.
  intros Hsu Hremote Hmiss Hvault Hhit. unfold resolve.
  rewrite (bind_ok _ _ _ _ _ Hremote), Hmiss.
  assert (try_localStorage H securityUtils qrId found w1
          = (Ok (or_else (get_prop (or_else (default VNull stored) (VObj [])) qrId) VNull,
                 "encrypted_storage"),
             snd (log "Data found in encrypted localStorage" w2))) as Hlocal.
  { unfold try_localStorage. rewrite Hsu.
    erewrite bind_ok; [|reflexivity].
    unfold try_catch. erewrite bind_ok; [|exact Hvault].
    rewrite Hhit. reflexivity. }
  rewrite (bind_ok _ _ _ _ _ Hlocal). simpl. by rewrite Hhit.
Qed.

Context (parseURL : string → option URL) (confirm : string → bool) (isMobile : bool).




End ResolverFacts.

(** ** The redirect page on concrete inputs *)

Section ResolverExamples.

Import JS Model CryptoManager QRRedirectManager.
Open Scope string_scope.


(** The order of the sources where it holds: the database misses, the
    vault holds the record, the legacy slot holds a stale one and the URL
    carries a payload. The record of the vault is returned, and the
    console shows the attempts on the first two sources only. *)
Lemma resolve_returns_vault_record :
  let H := Demo.host true 1000 in
  let fm := firebaseManager H 1700000000500 1700000000900 in
  let w0 := snd (setItem H "qr-codes" (Demo.records "abc" "https://example.org")
                   Demo.online) in
  let w := Demo.stored "qr-codes" (stringify H (Demo.records "abc" "stale")) w0 in
  let payload := stringify H (VObj [("text", VStr "payload")]) in
  let run := resolve H (Some fm) true "abc" (Some payload) w in
  fst run = Ok (Demo.record "abc" "https://example.org", "encrypted_storage")
  ∧ console (snd run)
    = ["Attempting Firebase access..."; "Trying localStorage fallback...";
       "Data found in encrypted localStorage"].
Proof.
  intros H fm w0 w payload run. split; vm_compute; reflexivity.
Qed.

(** A record rebuilt from the payload of the URL, when every store
    misses: its scan count is 0. *)
Lemma resolve_rebuilds_from_payload :
  let H := Demo.host true 1000 in
  let fm := firebaseManager H 1700000000500 1700000000900 in
  let payload := stringify H (VObj [("text", VStr "https://example.org");
                                    ("name", VStr "Demo");
                                    ("created", VNum 1700000000000)]) in
  let run := resolve H (Some fm) true "abc" (Some payload) Demo.offline in
  fst run
  = Ok (VObj [("id", VStr "abc"); ("name", VStr "Demo");
              ("originalText", VStr "https://example.org");
              ("createdAt", VNum 1700000000000); ("scanCount", VNum 0)],
        "url_fallback").
Proof.
  intros H fm payload run. vm_compute. reflexivity.
Qed.

(** C1 fails on the code. The database misses; the vault holds an
    encrypted map without the record; the record is in the legacy
    plaintext slot [qr-codes]. The attempt on the vault returns
    normally, so the attempt on the legacy slot, which sits in its
    [catch], is not made: the console shows two attempts, nothing is
    found and the page shows its error. *)
Theorem resolver_skips_legacy_slot :
  let H := Demo.host true 1000 in
  let fm := firebaseManager H 1700000000500 1700000000900 in
  let w0 := snd (setItem H "qr-codes" (Demo.records "other" "https://example.org/other")
                   Demo.online) in
  let w := Demo.stored "qr-codes" (stringify H (Demo.records "abc" "https://example.org")) w0 in
  let run := resolve H (Some fm) true "abc" None w in
  fst (fm_getQRCode fm "abc" w) = Ok VNull
  ∧ fst (getItem H "qr-codes" w) = Ok (Some (Demo.records "other" "https://example.org/other"))
  ∧ parse H <$> localStorage w !! "qr-codes"
    = Some (Some (Demo.records "abc" "https://example.org"))
  ∧ fst run = Ok (VNull, "none")
  ∧ console (snd run) = ["Attempting Firebase access..."; "Trying localStorage fallback..."]
  ∧ fst (init H Demo.parseURL (λ _, true) (Some fm) true false (Some "abc") None w)
    = Ok [ShowError "QR code not found or has expired. This may be due to a database connection issue."].
Proof.
  intros H fm w0 w run.
  split; [vm_compute; reflexivity|]. split; [vm_compute; reflexivity|].
  split; [vm_compute; reflexivity|]. split; [vm_compute; reflexivity|].
  split; [vm_compute; reflexivity|]. vm_compute. reflexivity.
Qed.

End ResolverExamples.

(** ** The vault: keys, slots and failed reads *)

Section VaultComposition.

Import JS Model CryptoManager.
Open Scope string_scope.

Context {V : Type} (H : Host V).

Lemma encrypted_slot_inj (key1 key2 : string) :
  encrypted_slot key1 = encrypted_slot key2 → key1 = key2.
Proof.
  unfold encrypted_slot. rewrite !str_app_cons, !str_app_nil_l. by intros [= ->].
Qed.

(** With a key slot in place [getOrCreateKey] writes nothing. *)
Lemma getOrCreateKey_keeps_world (w : World) :
  is_Some (present (localStorage w !! key_slot)) → snd (getOrCreateKey H w) = w.
Proof.
  intros [keyData Hslot]. unfold getOrCreateKey, bind at 1, storage_get. rewrite Hslot.
  unfold bind, or_throw.
  destruct (from_base64 H keyData) as [keyBuffer|]; simpl; [|done].
  by destruct (importKey H keyBuffer).
Qed.

(** With an encrypted slot and a key slot in place, what [getItem] returns
    is a function of these two slots. *)
Lemma getItem_reads_two_slots (key : string) (w w' : World) :
  is_Some (present (localStorage w !! encrypted_slot key)) →
  is_Some (present (localStorage w !! key_slot)) →
  localStorage w' !! encrypted_slot key = localStorage w !! encrypted_slot key →
  localStorage w' !! key_slot = localStorage w !! key_slot →
  fst (getItem H key w') = fst (getItem H key w).
Proof.
  intros [encrypted Henc] [keyData Hkey] Hes Hks.
  unfold getItem, try_catch, getOrCreateKey, bind, storage_get, or_throw, log.
  cbv beta. rewrite Hes, Henc. cbv beta iota. rewrite Hks, Hkey.
  destruct (from_base64 H keyData) as [keyBuffer|]; simpl; [|done].
  destruct (importKey H keyBuffer) as [k|]; simpl; [|done].
  destruct (from_base64 H encrypted) as [combined|]; simpl; [|done].
  destruct (decrypt H k _ _) as [plain|]; simpl; [|done].
  by destruct (parse H _) as [data|].
Qed.

(** X2. The device key is made once. After a call of [getOrCreateKey]
    that returned a key, every later call on a page whose key slot is
    still the same returns that key again, imported from the slot: it
    draws no randomness and writes nothing. *)
Theorem getOrCreateKey_reuses_key (laws : HostLaws H) (w w1 w2 : World) (k : Key H) :
  getOrCreateKey H w = (Ok k, w1) →
  localStorage w2 !! key_slot = localStorage w1 !! key_slot →
  getOrCreateKey H w2 = (Ok k, w2).
Proof.
  intros Hfirst Hsame.
  apply (getOrCreateKey_ok H laws) in Hfirst as [[keyData [keyBuffer [Hne [Hslot [Hb Hk]]]]] _].
  apply getOrCreateKey_again. exists keyData, keyBuffer. by rewrite Hsame.
Qed.

(** X3. Values stored under different names do not interfere. When a
    value is stored under [key2] (encrypted slot and key slot in place), a
    [setItem] under another name [key1] whose encryption completes does
    not change what [getItem(key2)] returns. *)
Theorem vault_keys_independent (key1 key2 : string) (data1 : V) (w : World) :
  key1 ≠ key2 →
  is_Some (present (localStorage w !! encrypted_slot key2)) →
  is_Some (present (localStorage w !! key_slot)) →
  fst (setItem_secure H key1 data1 w) = Ok tt →
  fst (getItem H key2 (snd (setItem H key1 data1 w))) = fst (getItem H key2 w).
Proof.
  intros Hne Henc Hkey Hok.
  unfold setItem, try_catch.
  destruct (setItem_secure H key1 data1 w) as [[[]|e] w'] eqn:Hset; [|done]. simpl.
  apply setItem_secure_ok in Hset as [k [w1 [cipher [encrypted [Hk [_ [_ ->]]]]]]].
  pose proof (getOrCreateKey_keeps_world w Hkey) as Hw1. rewrite Hk in Hw1. simpl in Hw1.
  subst w1.
  apply getItem_reads_two_slots; try done; simpl.
  - rewrite lookup_insert_ne; [done|]. intros Heq. by apply encrypted_slot_inj in Heq.
  - rewrite lookup_insert_ne; [done|]. apply encrypted_slot_not_key_slot.
Qed.

(** X4. A stored value that cannot be decrypted reads as [null]. When the
    encrypted slot of a name holds text that is not base64 or that does
    not decrypt under the device key, [getItem] returns [null] and adds a
    console line; it writes nothing, and it does not fall back to a
    plaintext slot of that name, whatever that slot holds. *)
Theorem getItem_undecryptable (key encrypted : string) (k : Key H) (w : World) :
  present (localStorage w !! encrypted_slot key) = Some encrypted →
  holds_key H k w →
  (from_base64 H encrypted = None
   ∨ ∃ combined, from_base64 H encrypted = Some combined
                 ∧ decrypt H k (take 12 combined) (drop 12 combined) = None) →
  getItem H key w
  = (Ok None, with_console (console w ++ ["Secure retrieval failed:"]) w).
Proof.
  intros Henc Hkey Hbad.
  unfold getItem, try_catch, bind at 1, storage_get. rewrite Henc.
  unfold bind at 1. rewrite (getOrCreateKey_again H w k Hkey).
  unfold bind, or_throw, log.
  destruct Hbad as [->|[combined [-> Hdec]]]; simpl; [done|].
  by rewrite Hdec.
Qed.

End VaultComposition.

(** ** The vault on further concrete inputs *)

Section VaultCompositionExamples.

Import JS Model CryptoManager.
Open Scope string_scope.

Lemma getOrCreateKey_reuses_key_witness :
  let H := Demo.host true 1000 in
  let w1 := snd (getOrCreateKey H Demo.offline) in
  getOrCreateKey H w1 = (Ok (Demo.nth_byte 0), w1).
Proof.
  intros H w1.
  refine (getOrCreateKey_reuses_key H (demo_laws true 1000) Demo.offline w1 w1
            (Demo.nth_byte 0) _ _).
  - vm_compute. reflexivity.
  - reflexivity.
Defined.

Lemma vault_keys_independent_witness :
  let H := Demo.host true 1000 in
  let w := snd (setItem H "qr-codes" (Demo.records "abc" "https://example.org")
                  Demo.offline) in
  fst (getItem H "qr-codes" (snd (setItem H "qr-analytics" (VNum 7) w)))
  = fst (getItem H "qr-codes" w).
Proof.
  intros H w.
  refine (vault_keys_independent H "qr-analytics" "qr-codes" (VNum 7) w _ _ _ _).
  - discriminate.
  - vm_compute. eexists. reflexivity.
  - vm_compute. eexists. reflexivity.
  - vm_compute. reflexivity.
Defined.

(** A page whose encrypted slot was overwritten with text that is no
    cipher text, beside a plaintext slot of the same name. *)
Lemma getItem_undecryptable_witness :
  let H := Demo.host true 1000 in
  let w0 := snd (setItem H "qr-codes" (Demo.records "abc" "https://example.org")
                   Demo.offline) in
  let w := Demo.stored "qr-codes" (stringify H (Demo.records "abc" "plain"))
             (Demo.stored (encrypted_slot "qr-codes") "garbage" w0) in
  getItem H "qr-codes" w
  = (Ok None, with_console (console w ++ ["Secure retrieval failed:"]) w).
Proof.
  intros H w0 w.
  refine (getItem_undecryptable H "qr-codes" "garbage" (Demo.nth_byte 0) w _ _ _).
  - vm_compute. reflexivity.
  - exists (string_of_list_byte (Demo.key_bytes (Demo.nth_byte 0))),
           (Demo.key_bytes (Demo.nth_byte 0)).
    split; [vm_compute; discriminate|].
    split; [vm_compute; reflexivity|].
    split; [vm_compute; reflexivity|vm_compute; reflexivity].
  - right. exists (list_byte_of_string "garbage").
    split; [reflexivity|vm_compute; reflexivity].
Defined.

End VaultCompositionExamples.

(** ** The record store: what is written is what is read *)

Section StoreRoundTrips.

Import JS Model CryptoManager FirebaseManager.
Open Scope string_scope.

Context (H : Host value).

Lemma assoc_set_same (k : string) (v : value) (fields : list (string * value)) :
  assoc k (assoc_set k v fields) = v.
Proof.
  induction fields as [|[k' v'] rest IH]; simpl.
  - by rewrite String.eqb_refl.
  - destruct (String.eqb k' k) eqn:Heq; simpl.
    + by rewrite String.eqb_refl.
    + by rewrite Heq.
Qed.

Lemma assoc_set_other (k k' : string) (v : value) (fields : list (string * value)) :
  k' ≠ k → assoc k' (assoc_set k v fields) = assoc k' fields.
Proof.
  intros Hne. induction fields as [|[k0 v0] rest IH]; simpl.
  - apply not_eq_sym, String.eqb_neq in Hne. by rewrite Hne.
  - destruct (String.eqb k0 k) eqn:Heq; simpl.
    + apply String.eqb_eq in Heq as ->.
      apply not_eq_sym, String.eqb_neq in Hne. by rewrite Hne.
    + by rewrite IH.
Qed.

(** What the two assignments of [incrementScanCount] do to a record. *)
Lemma scanned_fields (fields : list (string * value)) (time n : Z) :
  or_else (assoc "scanCount" fields) (VNum 0) = VNum n →
  get_prop (scanned (VObj fields) time) "scanCount" = VNum (n + 1)
  ∧ get_prop (scanned (VObj fields) time) "lastScanned" = VNum time
  ∧ ∀ field, field ≠ "scanCount" → field ≠ "lastScanned" →
      get_prop (scanned (VObj fields) time) field = assoc field fields.
Proof.
  intros Hcount. unfold scanned. simpl. rewrite Hcount. simpl. split; [|split].
  - rewrite assoc_set_other by discriminate. apply assoc_set_same.
  - apply assoc_set_same.
  - intros field H1 H2. by rewrite !assoc_set_other.
Qed.

(** After a write of the record map whose encryption completed, the local
    tier reads the map back for every id. *)
Lemma local_reads_written_map (laws : HostLaws H) (localQRs : value) (qrId : string)
    (w1 w2 w3 : World) :
  setItem_secure H "qr-codes" localQRs w1 = (Ok tt, w2) →
  parse H (stringify H localQRs) = Some localQRs →
  localStorage w3 = localStorage w2 →
  firebase_sdk w3 && database w3 = false →
  getQRCode H qrId w3
  = (Ok (or_else (get_prop (or_else localQRs (VObj [])) qrId) VNull), w3).
Proof.
  intros Hset Hparse Hsame Htier.
  destruct (getItem_after_secure_any H laws "qr-codes" localQRs w1 w2 w3 Hset Hparse)
    as [Hget _]; [by rewrite Hsame|by rewrite Hsame|].
  unfold getQRCode, try_catch, bind at 1, uses_remote. rewrite Htier.
  unfold load_local, bind. rewrite Hget. done.
Qed.

(** X6. On the remote tier a record that was created is read back: after
    [createQRCode], [getQRCode] of the new id returns a record with the
    given text and name, scan count 0 and the time stamp of the server
    (not the clock of the page); a record that had the same id is
    replaced, every other id reads as before, and [localStorage] is not
    touched. *)
Theorem remote_create_then_get (qrId originalText name : string) (logoPath : value)
    (now server_now : Z) (w : World) :
  firebase_sdk w && database w = true →
  remote_up w = true →
  let run := createQRCode H qrId now server_now originalText name logoPath w in
  fst run = Ok qrId
  ∧ (∃ record, fst (getQRCode H qrId (snd run)) = Ok record
       ∧ get_prop record "id" = VStr qrId
       ∧ get_prop record "name" = VStr name
       ∧ get_prop record "originalText" = VStr originalText
       ∧ get_prop record "scanCount" = VNum 0
       ∧ get_prop record "createdAt" = VNum server_now)
  ∧ (∀ other, other ≠ qrId →
       fst (getQRCode H other (snd run)) = fst (getQRCode H other w))
  ∧ localStorage (snd run) = localStorage w.
Proof.
  intros Htier Hup run. unfold run.
  unfold createQRCode, getQRCode, try_catch, bind, uses_remote, ref_set, ref_once, log.
  rewrite Htier, Hup. unfold with_console, with_remote. simpl.
  rewrite Htier, Hup. simpl.
  split; [done|]. split.
  - eexists. rewrite lookup_insert_eq. simpl. done.
  - split; [|done]. intros other Hne. by rewrite lookup_insert_ne.
Qed.

(** X7. On the remote tier a scan of a stored record adds one to its
    count and stamps it with the time of the server: a missing or falsy
    count counts as 0, the other fields of the record and all other
    records stay as they were. The count is a number for which the sum
    with 1 is exact, below 2^53 in absolute value; beyond, the sum of
    JavaScript numbers is rounded. *)
Theorem remote_increment_counts (qrId : string) (fields : list (string * value))
    (n now server_now : Z) (w : World) :
  firebase_sdk w && database w = true →
  remote_up w = true →
  remote w !! qrId = Some (VObj fields) →
  or_else (assoc "scanCount" fields) (VNum 0) = VNum n →
  ObjectPrototype.exact_successor n →
  let run := incrementScanCount H now server_now qrId w in
  fst run = Ok tt
  ∧ (∃ record, remote (snd run) !! qrId = Some record
       ∧ get_prop record "scanCount" = VNum (n + 1)
       ∧ get_prop record "lastScanned" = VNum server_now
       ∧ ∀ field, field ≠ "scanCount" → field ≠ "lastScanned" →
           get_prop record field = assoc field fields)
  ∧ (∀ other, other ≠ qrId → remote (snd run) !! other = remote w !! other)
  ∧ localStorage (snd run) = localStorage w.
Proof.
  intros Htier Hup Hrec Hcount _ run. unfold run.
  destruct (scanned_fields fields server_now n Hcount) as [Hc [Hl Hrest]].
  unfold incrementScanCount, try_catch, bind, uses_remote, ref_transaction, log.
  rewrite Htier, Hup, Hrec. unfold with_console, with_remote. simpl.
  split; [done|]. split.
  - exists (scanned (VObj fields) server_now). by rewrite lookup_insert_eq.
  - split; [|done]. intros other Hne. by rewrite lookup_insert_ne.
Qed.

(** X8. On the remote tier a scan of an id that the database does not
    hold returns normally and writes nothing: the transaction hands back
    the [null] it was given, no record is created, and the page is as
    before but for the console line. *)
Theorem remote_increment_absent (qrId : string) (now server_now : Z) (w : World) :
  firebase_sdk w && database w = true →
  remote_up w = true →
  remote w !! qrId = None →
  incrementScanCount H now server_now qrId w
  = (Ok tt, with_console (console w ++ ["Scan count incremented for:"]) w).
Proof.
  intros Htier Hup Hrec.
  unfold incrementScanCount, try_catch, bind, uses_remote, ref_transaction, log.
  rewrite Htier, Hup, Hrec. done.
Qed.

(** X9. A request to the database that fails is not retried on the local
    tier. With the SDK loaded and the database handle set, when the
    request is refused [createQRCode], [getQRCode] and
    [incrementScanCount] log the error and throw it on to the caller,
    [getRecentQRCodes] logs it and returns the empty list; none of them
    reads or writes [localStorage] or changes the remote records. *)
Theorem remote_failure_no_fallback (qrId originalText name : string) (logoPath : value)
    (now server_now : Z) (w : World) :
  firebase_sdk w && database w = true →
  remote_up w = false →
  createQRCode H qrId now server_now originalText name logoPath w
  = (Throw "network error", with_console (console w ++ ["Error creating QR code:"]) w)
  ∧ getQRCode H qrId w
    = (Throw "network error", with_console (console w ++ ["Error getting QR code:"]) w)
  ∧ incrementScanCount H now server_now qrId w
    = (Throw "network error",
       with_console (console w ++ ["Error incrementing scan count:"]) w)
  ∧ getRecentQRCodes H w
    = (Ok [], with_console (console w ++ ["Error getting recent QR codes:"]) w).
Proof.
  intros Htier Hup.
  unfold createQRCode, getQRCode, incrementScanCount, getRecentQRCodes.
  unfold try_catch, bind, uses_remote, ref_set, ref_once, ref_transaction, ref_recent.
  rewrite Htier, Hup. done.
Qed.

(** X10. On the local tier a record that was created is read back. Let
    the vault hold a record map (an object; a missing map counts as the
    empty one), let JSON carry the new map and let the encryption of the
    write complete. Then after [createQRCode] the new id reads as the
    record with scan count 0 and the time of the page's clock, every
    other id reads as in the old map, and the remote records are left
    alone. The ids are names that no object inherits: an assignment to
    [__proto__] makes no record, and a read of [constructor] finds the
    inherited function. *)
Theorem local_create_then_get (laws : HostLaws H) (qrId originalText name : string)
    (logoPath : value) (now server_now : Z) (w w1 : World)
    (fields : list (string * value)) :
  firebase_sdk w && database w = false →
  load_local H w = (Ok (VObj fields), w1) →
  ObjectPrototype.inherited qrId = false →
  let qrData := VObj [("id", VStr qrId); ("name", VStr name);
                      ("originalText", VStr originalText); ("logoPath", logoPath);
                      ("scanCount", VNum 0); ("createdAt", VNum now);
                      ("lastScanned", VNull)] in
  let localQRs := VObj (assoc_set qrId qrData fields) in
  parse H (stringify H localQRs) = Some localQRs →
  fst (setItem_secure H "qr-codes" localQRs w1) = Ok tt →
  let run := createQRCode H qrId now server_now originalText name logoPath w in
  fst run = Ok qrId
  ∧ fst (getQRCode H qrId (snd run)) = Ok qrData
  ∧ (∀ other, other ≠ qrId → ObjectPrototype.inherited other = false →
       fst (getQRCode H other (snd run)) = Ok (or_else (assoc other fields) VNull))
  ∧ remote (snd run) = remote w.
Proof.
  intros Htier Hload _ qrData localQRs Hparse Hok run.
  destruct (setItem_secure H "qr-codes" localQRs w1) as [[[]|e] w2] eqn:Hset; [|done].
  assert (run = (Ok qrId, with_console (console w2 ++ ["QR code created successfully locally:"]) w2))
    as Hrun.
  { unfold run, createQRCode, try_catch, bind at 1.
    unfold bind at 1, uses_remote. rewrite Htier.
    unfold bind at 1. rewrite Hload.
    unfold bind at 1. cbv beta iota. cbn [set_prop]. fold qrData. fold localQRs.
    unfold setItem, try_catch. rewrite Hset. done. }
  pose proof (keeps_load_local H w) as Hb1. rewrite Hload in Hb1. simpl in Hb1.
  pose proof (keeps_setItem H "qr-codes" localQRs w1) as Hb2.
  unfold setItem, try_catch in Hb2. rewrite Hset in Hb2. simpl in Hb2.
  assert (backend w2 = backend w) as Hb by congruence.
  unfold backend in Hb. injection Hb as Hsdk Hdb _ _ Hrem _.
  rewrite Hrun. simpl.
  assert (∀ id, getQRCode H id (with_console (console w2 ++ ["QR code created successfully locally:"]) w2)
                = (Ok (or_else (get_prop (or_else localQRs (VObj [])) id) VNull),
                   with_console (console w2 ++ ["QR code created successfully locally:"]) w2))
    as Hread.
  { intros id. apply (local_reads_written_map laws localQRs id w1 w2); try done.
    simpl. by rewrite Hsdk, Hdb. }
  split; [done|]. split; [|split; [|done]].
  - rewrite Hread. simpl. by rewrite assoc_set_same.
  - intros other Hne _. rewrite Hread. simpl. by rewrite assoc_set_other.
Qed.

(** X11. On the local tier a scan of a stored record adds one to its
    count and stamps it with the time of the page's clock. Under the
    conditions of the round trip of the vault, after
    [incrementScanCount] the record reads with count [n + 1], its other
    fields and every other record read as before. The count is a number
    for which the sum with 1 is exact, below 2^53 in absolute value, and
    the other ids are names that no object inherits. *)
Theorem local_increment_counts (laws : HostLaws H) (qrId : string) (now server_now n : Z)
    (w w1 : World) (fields record : list (string * value)) :
  firebase_sdk w && database w = false →
  load_local H w = (Ok (VObj fields), w1) →
  assoc qrId fields = VObj record →
  or_else (assoc "scanCount" record) (VNum 0) = VNum n →
  ObjectPrototype.exact_successor n →
  let localQRs := VObj (assoc_set qrId (scanned (VObj record) now) fields) in
  parse H (stringify H localQRs) = Some localQRs →
  fst (setItem_secure H "qr-codes" localQRs w1) = Ok tt →
  let run := incrementScanCount H now server_now qrId w in
  fst run = Ok tt
  ∧ (∃ record', fst (getQRCode H qrId (snd run)) = Ok record'
       ∧ get_prop record' "scanCount" = VNum (n + 1)
       ∧ get_prop record' "lastScanned" = VNum now
       ∧ ∀ field, field ≠ "scanCount" → field ≠ "lastScanned" →
           get_prop record' field = assoc field record)
  ∧ (∀ other, other ≠ qrId → ObjectPrototype.inherited other = false →
       fst (getQRCode H other (snd run)) = Ok (or_else (assoc other fields) VNull)).
Proof.
  intros Htier Hload Hrec Hcount _ localQRs Hparse Hok run.
  destruct (scanned_fields record now n Hcount) as [Hc [Hl Hrest]].
  destruct (setItem_secure H "qr-codes" localQRs w1) as [[[]|e] w2] eqn:Hset; [|done].
  assert (run = (Ok tt, with_console (console w2 ++ ["Scan count incremented locally for:"]) w2))
    as Hrun.
  { unfold run, incrementScanCount, try_catch, bind at 1, uses_remote. rewrite Htier.
    unfold bind at 1. rewrite Hload.
    unfold bind at 1. cbv beta iota. cbn [get_prop]. rewrite Hrec. cbn [truthy set_prop].
    fold localQRs. unfold setItem, try_catch. rewrite Hset. done. }
  pose proof (keeps_load_local H w) as Hb1. rewrite Hload in Hb1. simpl in Hb1.
  pose proof (keeps_setItem H "qr-codes" localQRs w1) as Hb2.
  unfold setItem, try_catch in Hb2. rewrite Hset in Hb2. simpl in Hb2.
  assert (backend w2 = backend w) as Hb by congruence.
  unfold backend in Hb. injection Hb as Hsdk Hdb _ _ Hrem _.
  rewrite Hrun. simpl.
  assert (∀ id, getQRCode H id (with_console (console w2 ++ ["Scan count incremented locally for:"]) w2)
                = (Ok (or_else (get_prop (or_else localQRs (VObj [])) id) VNull),
                   with_console (console w2 ++ ["Scan count incremented locally for:"]) w2))
    as Hread.
  { intros id. apply (local_reads_written_map laws localQRs id w1 w2); try done.
    simpl. by rewrite Hsdk, Hdb. }
  split; [done|]. split.
  - exists (scanned (VObj record) now). rewrite Hread. simpl. rewrite assoc_set_same.
    split; [by unfold scanned|]. done.
  - intros other Hne _. rewrite Hread. simpl. by rewrite assoc_set_other.
Qed.

(** X5. Each operation of the store works on one tier. The test
    [typeof firebase !== 'undefined' && window.database], made anew in
    each call, decides it: when it holds, the operation leaves
    [localStorage] as it was; when it fails, the operation leaves the
    Firebase side of the page, the remote records included, as it was. *)
Theorem store_tiers_are_disjoint (qrId originalText name : string) (logoPath : value)
    (now server_now : Z) (w : World) :
  (firebase_sdk w && database w = true →
     localStorage (snd (createQRCode H qrId now server_now originalText name logoPath w))
     = localStorage w
     ∧ localStorage (snd (getQRCode H qrId w)) = localStorage w
     ∧ localStorage (snd (incrementScanCount H now server_now qrId w)) = localStorage w
     ∧ localStorage (snd (getRecentQRCodes H w)) = localStorage w)
  ∧ (firebase_sdk w && database w = false →
     backend (snd (createQRCode H qrId now server_now originalText name logoPath w))
     = backend w
     ∧ backend (snd (getQRCode H qrId w)) = backend w
     ∧ backend (snd (incrementScanCount H now server_now qrId w)) = backend w
     ∧ backend (snd (getRecentQRCodes H w)) = backend w).
Proof. apply operations_use_one_tier. Qed.

End StoreRoundTrips.

(** ** The record store on further concrete inputs *)

Section StoreRoundTripExamples.

Import JS Model CryptoManager FirebaseManager.
Open Scope string_scope.

Lemma remote_create_then_get_witness :
  let H := Demo.host true 1000 in
  let run := createQRCode H "abc" 1700000000500 1700000000900 "https://example.org"
               "Demo" VNull Demo.online in
  fst run = Ok "abc"
  ∧ ∃ record, fst (getQRCode H "abc" (snd run)) = Ok record
      ∧ get_prop record "id" = VStr "abc"
      ∧ get_prop record "name" = VStr "Demo"
      ∧ get_prop record "originalText" = VStr "https://example.org"
      ∧ get_prop record "scanCount" = VNum 0
      ∧ get_prop record "createdAt" = VNum 1700000000900.
Proof.
  intros H run.
  pose proof (remote_create_then_get H "abc" "https://example.org" "Demo" VNull
                1700000000500 1700000000900 Demo.online) as Hthm.
  destruct Hthm as [Hid [Hget _]].
  - reflexivity.
  - reflexivity.
  - split; [exact Hid|exact Hget].
Defined.

Lemma remote_increment_counts_witness :
  let H := Demo.host true 1000 in
  let w := with_remote (insert "abc" (Demo.record "abc" "https://example.org"))
             Demo.online in
  let run := incrementScanCount H 1700000000500 1700000000900 "abc" w in
  fst run = Ok tt
  ∧ ∃ record, remote (snd run) !! "abc" = Some record
      ∧ get_prop record "scanCount" = VNum (0 + 1)
      ∧ get_prop record "lastScanned" = VNum 1700000000900
      ∧ ∀ field, field ≠ "scanCount" → field ≠ "lastScanned" →
          get_prop record field
          = assoc field [("id", VStr "abc"); ("name", VStr "Demo");
                         ("originalText", VStr "https://example.org");
                         ("logoPath", VNull); ("scanCount", VNum 0);
                         ("createdAt", VNum 1700000000000); ("lastScanned", VNull)].
Proof.
  intros H w run.
  pose proof (remote_increment_counts H "abc"
                [("id", VStr "abc"); ("name", VStr "Demo");
                 ("originalText", VStr "https://example.org");
                 ("logoPath", VNull); ("scanCount", VNum 0);
                 ("createdAt", VNum 1700000000000); ("lastScanned", VNull)]
                0 1700000000500 1700000000900 w) as Hthm.
  destruct Hthm as [Hok [Hrec _]].
  - reflexivity.
  - reflexivity.
  - vm_compute. reflexivity.
  - reflexivity.
  - unfold ObjectPrototype.exact_successor. lia.
  - split; [exact Hok|exact Hrec].
Defined.

Lemma remote_increment_absent_witness :
  let H := Demo.host true 1000 in
  incrementScanCount H 1700000000500 1700000000900 "zzz" Demo.online
  = (Ok tt, with_console (console Demo.online ++ ["Scan count incremented for:"])
              Demo.online).
Proof.
  intros H.
  refine (remote_increment_absent H "zzz" 1700000000500 1700000000900 Demo.online _ _ _).
  - reflexivity.
  - reflexivity.
  - vm_compute. reflexivity.
Defined.

(** The SDK is loaded and the handle is set, the database does not
    answer. *)
Lemma remote_failure_no_fallback_witness :
  let H := Demo.host true 1000 in
  let w := mkWorld ∅ 0 [] true true true true ∅ false in
  getQRCode H "abc" w
  = (Throw "network error", with_console (console w ++ ["Error getting QR code:"]) w).
Proof.
  intros H w.
  pose proof (remote_failure_no_fallback H "abc" "" "" VNull 0 0 w) as Hthm.
  destruct Hthm as [_ [Hget _]].
  - reflexivity.
  - reflexivity.
  - exact Hget.
Defined.

Lemma local_create_then_get_witness :
  let H := Demo.host true 1000 in
  let run := createQRCode H "abc" 1700000000500 1700000000900 "https://example.org"
               "Demo" VNull Demo.offline in
  fst (getQRCode H "abc" (snd run))
  = Ok (VObj [("id", VStr "abc"); ("name", VStr "Demo");
              ("originalText", VStr "https://example.org"); ("logoPath", VNull);
              ("scanCount", VNum 0); ("createdAt", VNum 1700000000500);
              ("lastScanned", VNull)]).
Proof.
  intros H run.
  pose proof (local_create_then_get H (demo_laws true 1000) "abc" "https://example.org"
                "Demo" VNull 1700000000500 1700000000900 Demo.offline Demo.offline [])
    as Hthm.
  destruct Hthm as [_ [Hget _]].
  - reflexivity.
  - vm_compute. reflexivity.
  - reflexivity.
  - vm_compute. reflexivity.
  - vm_compute. reflexivity.
  - exact Hget.
Defined.

Lemma local_increment_counts_witness :
  let H := Demo.host true 1000 in
  let w := snd (setItem H "qr-codes" (Demo.records "abc" "https://example.org")
                  Demo.offline) in
  let run := incrementScanCount H 1700000000500 1700000000900 "abc" w in
  ∃ record', fst (getQRCode H "abc" (snd run)) = Ok record'
    ∧ get_prop record' "scanCount" = VNum (0 + 1)
    ∧ get_prop record' "lastScanned" = VNum 1700000000500.
Proof.
  intros H w run.
  pose proof (local_increment_counts H (demo_laws true 1000) "abc" 1700000000500
                1700000000900 0 w w
                [("abc", Demo.record "abc" "https://example.org")]
                [("id", VStr "abc"); ("name", VStr "Demo");
                 ("originalText", VStr "https://example.org");
                 ("logoPath", VNull); ("scanCount", VNum 0);
                 ("createdAt", VNum 1700000000000); ("lastScanned", VNull)]) as Hthm.
  destruct Hthm as [_ [[record' [Hget [Hc [Hl _]]]] _]].
  - vm_compute. reflexivity.
  - vm_compute. reflexivity.
  - reflexivity.
  - reflexivity.
  - unfold ObjectPrototype.exact_successor. lia.
  - vm_compute. reflexivity.
  - vm_compute. reflexivity.
  - exists record'. split; [exact Hget|]. split; [exact Hc|exact Hl].
Defined.

End StoreRoundTripExamples.

(** ** The redirect page: which source answers, and what a scan counts *)

Section ResolverOrder.

Import JS Model CryptoManager QRRedirectManager.
Open Scope string_scope.

Context (H : Host value).

(** X12. The first hit wins. When [FirebaseManager.getQRCode] returns a
    record, the page takes it, with source [firebase], also when the URL
    carries a payload: the call ends with the console line of that hit, so
    the vault is not read (no key is made, no legacy slot is migrated)
    and the payload is not decoded. *)
Theorem resolve_remote_hit_wins (securityUtils : bool) (fm : Manager) (qrId : string)
    (fallbackData : option string) (record : value) (w w1 : World) :
  fm_getQRCode fm qrId (snd (log "Attempting Firebase access..." w)) = (Ok record, w1) →
  truthy record = true →
  resolve H (Some fm) securityUtils qrId fallbackData w
  = (Ok (record, "firebase"), snd (log "Data found in Firebase" w1)).
Proof.
  intros Hget Hhit.
  apply resolve_first_hit; [|done].
  unfold try_firebase, try_catch.
  erewrite bind_ok; [|reflexivity].
  erewrite bind_ok; [|exact Hget].
  by rewrite Hhit.
Qed.

(** X13. When the first step finds nothing (no manager on the page, a
    call that throws, or no record) and the record map of the vault holds
    the id, the page takes the record of the vault, with source
    [encrypted_storage], whatever the URL carries: the call ends with the
    console line of that hit. *)
Theorem resolve_vault_hit_wins (manager : option Manager) (qrId : string)
    (fallbackData : option string) (found : value * string)
    (fields : list (string * value)) (w w1 w2 : World) :
  try_firebase manager qrId w = (Ok found, w1) →
  truthy (fst found) = false →
  getItem H "qr-codes" (snd (log "Trying localStorage fallback..." w1))
  = (Ok (Some (VObj fields)), w2) →
  truthy (assoc qrId fields) = true →
  resolve H manager true qrId fallbackData w
  = (Ok (assoc qrId fields, "encrypted_storage"),
     snd (log "Data found in encrypted localStorage" w2)).
Proof.
  intros Hremote Hmiss Hvault Hhit.
  rewrite (resolve_encrypted_hit H true manager qrId fallbackData w w1 w2 found
             (Some (VObj fields)) eq_refl Hremote Hmiss Hvault).
  - simpl. unfold or_else. by rewrite Hhit.
  - simpl. unfold or_else. by rewrite Hhit.
Qed.

Context (parseURL : string → option URL) (confirm : string → bool).

(** X14. A scan is counted once. On a page whose store works on the
    database, a scan of a stored record adds exactly one to the count of
    that record and leaves every other record and [localStorage] as they
    were, whether or not the rest of the page's scripts are loaded and
    whatever the stored text is. The count is a number for which the sum
    with 1 is exact, below 2^53 in absolute value. *)
Theorem scan_counts_once (securityUtils isMobile : bool) (qrId fallbackData : option string)
    (id : string) (fields : list (string * value)) (n now server_now : Z) (w : World) :
  present qrId = Some id →
  firebase_sdk w && database w = true →
  remote_up w = true →
  remote w !! id = Some (VObj fields) →
  or_else (assoc "scanCount" fields) (VNum 0) = VNum n →
  ObjectPrototype.exact_successor n →
  let run := init H parseURL confirm (Some (firebaseManager H now server_now))
               securityUtils isMobile qrId fallbackData w in
  (∃ record, remote (snd run) !! id = Some record
     ∧ get_prop record "scanCount" = VNum (n + 1)
     ∧ get_prop record "lastScanned" = VNum server_now)
  ∧ (∀ other, other ≠ id → remote (snd run) !! other = remote w !! other)
  ∧ localStorage (snd run) = localStorage w.
Proof.
  intros Hid Htier Hup Hrec Hcount _ run.
  destruct (scanned_fields fields server_now n Hcount) as [Hc [Hl _]].
  set (fm := firebaseManager H now server_now) in *.
  set (wa := snd (log "Looking for QR ID:" (snd (log "Device type:" w)))).
  set (wb := snd (log "Data found in Firebase" (snd (log "Attempting Firebase access..." wa)))).
  set (wc := with_console (console wb ++ ["Successfully found QR data from:"]) wb).
  assert (resolve H (Some fm) securityUtils id fallbackData wa
          = (Ok (VObj fields, "firebase"), wb)) as Hres.
  { assert (fm_getQRCode fm id (snd (log "Attempting Firebase access..." wa))
            = (Ok (VObj fields), snd (log "Attempting Firebase access..." wa))) as Hget.
    { unfold fm, firebaseManager, fm_getQRCode, FirebaseManager.getQRCode.
      unfold try_catch, bind, FirebaseManager.uses_remote, FirebaseManager.ref_once.
      unfold wa, log, with_console. simpl. rewrite Htier, Hup. simpl. by rewrite Hrec. }
    apply resolve_first_hit; [|done].
    unfold try_firebase, try_catch.
    erewrite bind_ok; [|reflexivity]. erewrite bind_ok; [|exact Hget]. reflexivity. }
  assert (fm_incrementScanCount fm id wc
          = (Ok tt, with_console (console wc ++ ["Scan count incremented for:"])
                      (with_remote (insert id (FirebaseManager.scanned (VObj fields) server_now))
                         wc))) as Hinc.
  { unfold fm, firebaseManager, fm_incrementScanCount, FirebaseManager.incrementScanCount.
    unfold try_catch, bind, FirebaseManager.uses_remote, FirebaseManager.ref_transaction.
    unfold wc, wb, wa, log, with_console. simpl. rewrite Htier, Hup. simpl.
    by rewrite Hrec. }
  set (wd := with_console (console wc ++ ["Scan count incremented for:"])
               (with_remote (insert id (FirebaseManager.scanned (VObj fields) server_now))
                  wc)) in *.
  assert (snd run = if securityUtils then wd else snd (log "Redirect error:" wd)) as Hrun.
  { unfold run, init. rewrite Hid.
    erewrite bind_ok; [|reflexivity]. erewrite bind_ok; [|reflexivity].
    unfold try_catch at 1. fold wa. erewrite bind_ok; [|exact Hres].
    cbn [fst truthy negb]. erewrite bind_ok; [|reflexivity]. fold wc.
    unfold bind at 1, try_catch at 1. rewrite Hinc.
    destruct securityUtils; reflexivity. }
  assert (remote (snd run) = <[id := FirebaseManager.scanned (VObj fields) server_now]> (remote w)
          ∧ localStorage (snd run) = localStorage w) as [Hremote Hlocal].
  { rewrite Hrun. destruct securityUtils; split; reflexivity. }
  rewrite Hremote, Hlocal. split; [|split; [|done]].
  - exists (FirebaseManager.scanned (VObj fields) server_now). by rewrite lookup_insert_eq.
  - intros other Hne. by rewrite lookup_insert_ne.
Qed.

End ResolverOrder.

(** ** The redirect page on further concrete inputs *)

Section ResolverOrderExamples.

Import JS Model CryptoManager QRRedirectManager.
Open Scope string_scope.

(** The database holds the record, and the URL carries a payload with
    another text. *)
Lemma resolve_remote_hit_wins_witness :
  let H := Demo.host true 1000 in
  let fm := firebaseManager H 1700000000500 1700000000900 in
  let w := with_remote (insert "abc" (Demo.record "abc" "https://example.org"))
             Demo.online in
  let payload := stringify H (VObj [("text", VStr "payload")]) in
  fst (resolve H (Some fm) true "abc" (Some payload) w)
  = Ok (Demo.record "abc" "https://example.org", "firebase").
Proof.
  intros H fm w payload.
  rewrite (resolve_remote_hit_wins H true fm "abc" (Some payload)
             (Demo.record "abc" "https://example.org") w
             (snd (log "Attempting Firebase access..." w))).
  - reflexivity.
  - vm_compute. reflexivity.
  - reflexivity.
Defined.

(** No manager on the page; the vault holds the record. *)
Lemma resolve_vault_hit_wins_witness :
  let H := Demo.host true 1000 in
  let w := snd (setItem H "qr-codes" (Demo.records "abc" "https://example.org")
                  Demo.offline) in
  let payload := stringify H (VObj [("text", VStr "payload")]) in
  fst (resolve H None true "abc" (Some payload) w)
  = Ok (Demo.record "abc" "https://example.org", "encrypted_storage").
Proof.
  intros H w payload.
  rewrite (resolve_vault_hit_wins H None "abc" (Some payload) (VNull, "none")
             [("abc", Demo.record "abc" "https://example.org")] w
             (snd (log "FirebaseManager not available" w))
             (snd (log "Trying localStorage fallback..."
                     (snd (log "FirebaseManager not available" w))))).
  - reflexivity.
  - reflexivity.
  - reflexivity.
  - vm_compute. reflexivity.
  - reflexivity.
Defined.

Lemma scan_counts_once_witness :
  let H := Demo.host true 1000 in
  let fm := firebaseManager H 1700000000500 1700000000900 in
  let w := with_remote (insert "abc" (Demo.record "abc" "https://example.org"))
             Demo.online in
  let run := init H Demo.parseURL (λ _, true) (Some fm) true false (Some "abc") None w in
  ∃ record, remote (snd run) !! "abc" = Some record
    ∧ get_prop record "scanCount" = VNum (0 + 1)
    ∧ get_prop record "lastScanned" = VNum 1700000000900.
Proof.
  intros H fm w run.
  pose proof (scan_counts_once H Demo.parseURL (λ _, true) true false (Some "abc") None
                "abc"
                [("id", VStr "abc"); ("name", VStr "Demo");
                 ("originalText", VStr "https://example.org");
                 ("logoPath", VNull); ("scanCount", VNum 0);
                 ("createdAt", VNum 1700000000000); ("lastScanned", VNull)]
                0 1700000000500 1700000000900 w) as Hthm.
  destruct Hthm as [Hrec _].
  - reflexivity.
  - reflexivity.
  - reflexivity.
  - vm_compute. reflexivity.
  - reflexivity.
  - unfold ObjectPrototype.exact_successor. lia.
  - exact Hrec.
Defined.

End ResolverOrderExamples.

(** ** Validation of an uploaded logo *)

Section ImageFacts.

Import JS Model ImageValidation.
Open Scope string_scope.

Lemma every_spec (sig : bytes) :
  ∀ index bytes, every sig index bytes = true ↔ sig `prefix_of` drop index bytes.
Proof.
  induction sig as [|byte sig IH]; intros index bytes; simpl.
  - split; [intros _; apply prefix_nil|done].
  - destruct (bytes !! index) as [b|] eqn:Hb.
    + rewrite (drop_S _ _ _ Hb), andb_true_iff, IH. split.
      * intros [Heq Hrest]. apply Byte.byte_dec_bl in Heq as ->. by apply prefix_cons.
      * intros Hpre. split.
        -- apply prefix_cons_inv_1 in Hpre as ->. by apply Byte.byte_dec_lb.
        -- by apply prefix_cons_inv_2 in Hpre.
    + apply lookup_ge_None in Hb. rewrite drop_ge by done. simpl. split; [done|].
      intros Hpre. by apply prefix_nil_inv in Hpre.
Qed.

Lemma prefix_of_take (sig content : bytes) (n : nat) :
  (length sig ≤ n)%nat → sig `prefix_of` take n content ↔ sig `prefix_of` content.
Proof.
  intros Hlen. split.
  - intros Hpre. etrans; [exact Hpre|apply prefix_take].
  - intros [tail ->]. rewrite take_app_ge by done. by apply prefix_app_r.
Qed.

(** The test of one signature, on the first twelve bytes. *)
Lemma every_take (sig content : bytes) :
  (length sig ≤ 12)%nat →
  every sig 0 (take 12 content) = true ↔ sig `prefix_of` content.
Proof.
  intros Hlen. rewrite every_spec, drop_0. by apply prefix_of_take.
Qed.

(** The outcome of the signature check as a decision list. *)
Lemma validateImageSignature_cases (file : File) :
  validateImageSignature file
  = if every jpeg_magic 0 (take 12 (content file)) then Some "jpeg"
    else if every png_magic 0 (take 12 (content file)) then Some "png"
    else if every gif8_magic 0 (take 12 (content file))
            || every gif9_magic 0 (take 12 (content file)) then Some "gif"
    else if every riff_magic 0 (take 12 (content file)) then Some "webp"
    else None.
Proof.
  unfold validateImageSignature, signatures. cbn [first_match existsb].
  fold jpeg_magic. fold png_magic. fold gif8_magic. fold gif9_magic. fold riff_magic.
  rewrite !orb_false_r. reflexivity.
Qed.

Lemma magic_exclusive (a b : Byte.byte) (sig1 sig2 content : bytes) :
  a ≠ b → (a :: sig1) `prefix_of` content → (b :: sig2) `prefix_of` content → False.
Proof. intros Hne [k1 ->] [k2 [= ? _]]. done. Qed.

(** X15. The signature check reads the magic number at the start of the
    file and nothing else: the answer is [jpeg] exactly for a file that
    starts with FF D8 FF, [png] for the eight bytes of the PNG header,
    [gif] for [GIF8] or [GIF9], [webp] for [RIFF] (whatever follows, so
    every RIFF container passes as WebP), and [false] exactly when the
    file starts with none of them; a file shorter than its magic number
    has none. *)
Theorem validateImageSignature_spec (file : File) :
  (validateImageSignature file = Some "jpeg" ↔ jpeg_magic `prefix_of` content file)
  ∧ (validateImageSignature file = Some "png" ↔ png_magic `prefix_of` content file)
  ∧ (validateImageSignature file = Some "gif"
     ↔ gif8_magic `prefix_of` content file ∨ gif9_magic `prefix_of` content file)
  ∧ (validateImageSignature file = Some "webp" ↔ riff_magic `prefix_of` content file)
  ∧ (validateImageSignature file = None ↔ ¬ has_magic (content file)).
Proof.
  rewrite validateImageSignature_cases. unfold has_magic.
  pose proof (every_take jpeg_magic (content file)) as H1.
  pose proof (every_take png_magic (content file)) as H2.
  pose proof (every_take gif8_magic (content file)) as H3.
  pose proof (every_take gif9_magic (content file)) as H4.
  pose proof (every_take riff_magic (content file)) as H5.
  specialize (H1 ltac:(simpl; lia)). specialize (H2 ltac:(simpl; lia)).
  specialize (H3 ltac:(simpl; lia)). specialize (H4 ltac:(simpl; lia)).
  specialize (H5 ltac:(simpl; lia)).
  assert (jpeg_magic `prefix_of` content file → png_magic `prefix_of` content file → False)
    as X12 by (apply magic_exclusive; discriminate).
  assert (jpeg_magic `prefix_of` content file → gif8_magic `prefix_of` content file → False)
    as X13 by (apply magic_exclusive; discriminate).
  assert (jpeg_magic `prefix_of` content file → gif9_magic `prefix_of` content file → False)
    as X14 by (apply magic_exclusive; discriminate).
  assert (jpeg_magic `prefix_of` content file → riff_magic `prefix_of` content file → False)
    as X15 by (apply magic_exclusive; discriminate).
  assert (png_magic `prefix_of` content file → gif8_magic `prefix_of` content file → False)
    as X23 by (apply magic_exclusive; discriminate).
  assert (png_magic `prefix_of` content file → gif9_magic `prefix_of` content file → False)
    as X24 by (apply magic_exclusive; discriminate).
  assert (png_magic `prefix_of` content file → riff_magic `prefix_of` content file → False)
    as X25 by (apply magic_exclusive; discriminate).
  assert (gif8_magic `prefix_of` content file → riff_magic `prefix_of` content file → False)
    as X35 by (apply magic_exclusive; discriminate).
  assert (gif9_magic `prefix_of` content file → riff_magic `prefix_of` content file → False)
    as X45 by (apply magic_exclusive; discriminate).
  revert H1 H2 H3 H4 H5 X12 X13 X14 X15 X23 X24 X25 X35 X45.
  generalize (jpeg_magic `prefix_of` content file) (png_magic `prefix_of` content file)
    (gif8_magic `prefix_of` content file) (gif9_magic `prefix_of` content file)
    (riff_magic `prefix_of` content file).
  intros P1 P2 P3 P4 P5 H1 H2 H3 H4 H5 X12 X13 X14 X15 X23 X24 X25 X35 X45.
  assert (∀ b : bool, b = true ∨ b = false) as Hb by (intros []; tauto).
  assert (true ≠ false) as Htf by discriminate.
  destruct (every jpeg_magic 0 _).
  { assert P1 as p1 by (by apply H1). clear H1 H2 H3 H4 H5 Hb.
    split; [split; done|]. split; [split; [discriminate|tauto]|].
    split; [split; [discriminate|tauto]|]. split; [split; [discriminate|tauto]|].
    split; [discriminate|tauto]. }
  assert (¬ P1) as n1 by (intros p; apply H1 in p; discriminate). clear H1.
  destruct (every png_magic 0 _).
  { assert P2 as p2 by (by apply H2). clear H2 H3 H4 H5 Hb.
    split; [split; [discriminate|tauto]|]. split; [split; done|].
    split; [split; [discriminate|tauto]|]. split; [split; [discriminate|tauto]|].
    split; [discriminate|tauto]. }
  assert (¬ P2) as n2 by (intros p; apply H2 in p; discriminate). clear H2.
  destruct (every gif8_magic 0 _).
  { assert P3 as p3 by (by apply H3). clear H3 H4 H5 Hb. cbn [orb].
    split; [split; [discriminate|tauto]|]. split; [split; [discriminate|tauto]|].
    split; [split; [tauto|done]|]. split; [split; [discriminate|tauto]|].
    split; [discriminate|tauto]. }
  assert (¬ P3) as n3 by (intros p; apply H3 in p; discriminate). clear H3.
  destruct (every gif9_magic 0 _).
  { assert P4 as p4 by (by apply H4). clear H4 H5 Hb. cbn [orb].
    split; [split; [discriminate|tauto]|]. split; [split; [discriminate|tauto]|].
    split; [split; [tauto|done]|]. split; [split; [discriminate|tauto]|].
    split; [discriminate|tauto]. }
  assert (¬ P4) as n4 by (intros p; apply H4 in p; discriminate). clear H4. cbn [orb].
  destruct (every riff_magic 0 _).
  { assert P5 as p5 by (by apply H5). clear H5 Hb.
    split; [split; [discriminate|tauto]|]. split; [split; [discriminate|tauto]|].
    split; [split; [discriminate|tauto]|]. split; [split; done|].
    split; [discriminate|tauto]. }
  assert (¬ P5) as n5 by (intros p; apply H5 in p; discriminate). clear H5 Hb.
  split; [split; [discriminate|tauto]|]. split; [split; [discriminate|tauto]|].
  split; [split; [discriminate|tauto]|]. split; [split; [discriminate|tauto]|].
  split; [tauto|done].
Qed.

Lemma existsb_eqb_elem_of (x : string) (l : list string) :
  existsb (String.eqb x) l = true ↔ x ∈ l.
Proof.
  rewrite existsb_exists. split.
  - intros [y [Hin Heq]]. apply String.eqb_eq in Heq as ->. by apply list_elem_of_In.
  - intros Hin. exists x. split; [by apply list_elem_of_In|apply String.eqb_refl].
Qed.

Lemma validateImageSignature_magic (file : File) :
  match validateImageSignature file with
  | Some _ => has_magic (content file)
  | None => ¬ has_magic (content file)
  end.
Proof.
  rewrite validateImageSignature_cases. unfold has_magic.
  pose proof (every_take jpeg_magic (content file) ltac:(simpl; lia)) as H1.
  pose proof (every_take png_magic (content file) ltac:(simpl; lia)) as H2.
  pose proof (every_take gif8_magic (content file) ltac:(simpl; lia)) as H3.
  pose proof (every_take gif9_magic (content file) ltac:(simpl; lia)) as H4.
  pose proof (every_take riff_magic (content file) ltac:(simpl; lia)) as H5.
  assert (true = true) as Htt by done.
  assert (false ≠ true) as Hft by discriminate.
  destruct (every jpeg_magic 0 _); [tauto|].
  destruct (every png_magic 0 _); [tauto|].
  destruct (every gif8_magic 0 _); [cbn [orb]; tauto|].
  destruct (every gif9_magic 0 _); [cbn [orb]; tauto|].
  destruct (every riff_magic 0 _); [cbn [orb]; tauto|].
  cbn [orb]. tauto.
Qed.

Lemma suspicious_spec (fileName : string) :
  existsb (λ ext, includes (toLowerCase fileName) ext) suspiciousExtensions = false
  ↔ ∀ ext, ext ∈ suspiciousExtensions → ¬ QRRedirectManager.contains_ci fileName ext.
Proof.
  rewrite <- not_true_iff_false, existsb_exists. split.
  - intros Hno ext Hin Hc. apply Hno. exists ext. split; [by apply list_elem_of_In|].
    by apply includes_lower.
  - intros Hall [ext [Hin Hinc]]. apply (Hall ext); [by apply list_elem_of_In|].
    by apply includes_lower.
Qed.

(** X16. A logo is accepted exactly when its declared type, in lower
    case, is one of the five image types, it has at most 2 MiB
    (2097152 bytes; a file of exactly that size passes), it starts with
    the magic number of one of the formats, and its name contains none of
    the suspicious extensions anywhere, in any letter case; the declared
    type and the magic number need not be of the same format. The call
    never returns [false]: it returns [true] or throws. *)
Theorem validateImageFile_spec (file : File) :
  (validateImageFile (Some file) = Ok true
   ↔ toLowerCase (type file) ∈ allowedTypes
     ∧ (size file ≤ maxSize)%Z
     ∧ has_magic (content file)
     ∧ ∀ ext, ext ∈ suspiciousExtensions →
         ¬ QRRedirectManager.contains_ci (name file) ext)
  ∧ validateImageFile (Some file) ≠ Ok false.
Proof.
  unfold validateImageFile.
  pose proof (existsb_eqb_elem_of (toLowerCase (type file)) allowedTypes) as Htype.
  pose proof (validateImageSignature_magic file) as Hsig.
  pose proof (suspicious_spec (name file)) as Hname.
  pose proof (Z.ltb_spec maxSize (size file)) as Hsize.
  destruct (existsb (String.eqb _) allowedTypes); cbn [negb].
  2:{ split; [|discriminate]. split; [discriminate|]. intros [Ht _].
      apply Htype in Ht. discriminate. }
  destruct (maxSize <? size file)%Z.
  { split; [|discriminate]. split; [discriminate|]. intros [_ [Hs _]].
    inversion Hsize. lia. }
  destruct (validateImageSignature file) as [validFormat|].
  2:{ split; [|discriminate]. split; [discriminate|]. intros [_ [_ [Hm _]]]. done. }
  cbv zeta.
  destruct (existsb _ suspiciousExtensions).
  { split; [|discriminate]. split; [discriminate|]. intros [_ [_ [_ Hn]]].
    apply Hname in Hn. discriminate. }
  split; [|discriminate]. split; [|done]. intros _.
  split; [by apply Htype|]. split; [inversion Hsize; lia|].
  split; [done|by apply Hname].
Qed.

(** X17. Of the content of the file only the first eight bytes and the
    length are read: two files with the same name and declared type that
    agree on their first eight bytes and are both within, or both beyond,
    the size limit get the same verdict, whatever else they hold. *)
Theorem validateImageFile_reads_eight_bytes (f g : File) :
  name f = name g →
  type f = type g →
  take 8 (content f) = take 8 (content g) →
  ((size f ≤ maxSize)%Z ↔ (size g ≤ maxSize)%Z) →
  validateImageFile (Some f) = validateImageFile (Some g).
Proof.
  intros Hname Htype Hhead Hsize.
  assert (∀ sig : bytes, (length sig ≤ 8)%nat →
            every sig 0 (take 12 (content f)) = every sig 0 (take 12 (content g))) as Hsig.
  { intros sig Hlen. apply eq_true_iff_eq.
    rewrite !every_take by lia.
    rewrite <- (prefix_of_take sig (content f) 8 Hlen).
    rewrite <- (prefix_of_take sig (content g) 8 Hlen). by rewrite Hhead. }
  assert (validateImageSignature f = validateImageSignature g) as Hformat.
  { rewrite !validateImageSignature_cases.
    rewrite (Hsig jpeg_magic), (Hsig png_magic), (Hsig gif8_magic), (Hsig gif9_magic),
      (Hsig riff_magic); simpl; (done || lia). }
  assert ((maxSize <? size f)%Z = (maxSize <? size g)%Z) as Hlimit.
  { destruct (Z.ltb_spec maxSize (size f)), (Z.ltb_spec maxSize (size g)); (done || lia). }
  unfold validateImageFile. by rewrite Hname, Htype, Hformat, Hlimit.
Qed.

End ImageFacts.

(** ** Logos on concrete inputs *)

Section ImageExamples.

Import JS Model ImageValidation.
Open Scope string_scope.

(** A PNG header followed by different bytes, under a name and a type
    that pass. *)
Lemma validateImageFile_reads_eight_bytes_witness :
  validateImageFile (Some {| name := "logo.png"; type := "image/png";
                             content := (png_magic ++ [Byte.x00])%list |})
  = validateImageFile (Some {| name := "logo.png"; type := "image/png";
                               content := (png_magic ++ [Byte.x3c; Byte.x3f])%list |}).
Proof.
  refine (validateImageFile_reads_eight_bytes
            {| name := "logo.png"; type := "image/png";
               content := (png_magic ++ [Byte.x00])%list |}
            {| name := "logo.png"; type := "image/png";
               content := (png_magic ++ [Byte.x3c; Byte.x3f])%list |} _ _ _ _).
  - reflexivity.
  - reflexivity.
  - reflexivity.
  - split; intros _; vm_compute; discriminate.
Defined.

End ImageExamples.

(** ** The pattern generator *)

Section PatternFacts.

Import JS QRCodeLib.
Open Scope Z_scope.

Lemma to_int32_range (x : Z) : -2147483648 ≤ to_int32 x < 2147483648.
Proof.
  unfold to_int32.
  pose proof (Z.mod_pos_bound (x + 2147483648) 4294967296 ltac:(lia)). lia.
Qed.

(** [ToInt32] takes a multiple of 2^32 away. *)
Lemma to_int32_wraps (x : Z) : ∃ q, to_int32 x = x - 4294967296 * q.
Proof.
  exists ((x + 2147483648) / 4294967296). unfold to_int32.
  pose proof (Z.div_mod (x + 2147483648) 4294967296 ltac:(lia)). lia.
Qed.

Lemma to_int32_shift (x q : Z) : to_int32 (x - 4294967296 * q) = to_int32 x.
Proof.
  unfold to_int32.
  replace (x - 4294967296 * q + 2147483648)
    with (x + 2147483648 + (- q) * 4294967296) by lia.
  by rewrite Z_mod_plus_full.
Qed.

Lemma to_int32_small (x : Z) : -2147483648 ≤ x < 2147483648 → to_int32 x = x.
Proof. intros Hx. unfold to_int32. rewrite Z.mod_small; lia. Qed.

Lemma hash_step_spec (hash char : Z) :
  hash_step (to_int32 hash) char = to_int32 (31 * hash + char).
Proof.
  unfold hash_step. cbv zeta. rewrite Z.land_diag.
  rewrite (to_int32_small (to_int32 hash)) by apply to_int32_range.
  rewrite Z.shiftl_mul_pow2 by lia.
  destruct (to_int32_wraps hash) as [q1 ->].
  destruct (to_int32_wraps ((hash - 4294967296 * q1) * 2 ^ 5)) as [q2 ->].
  replace ((hash - 4294967296 * q1) * 2 ^ 5 - 4294967296 * q2
           - (hash - 4294967296 * q1) + char)
    with (31 * hash + char - 4294967296 * (31 * q1 + q2)) by lia.
  apply to_int32_shift.
Qed.

Lemma hash_loop_spec (text : string) :
  ∀ acc, hash_loop text (to_int32 acc) = to_int32 (polynomial text acc).
Proof.
  induction text as [|c text IH]; intros acc; simpl; [done|].
  by rewrite hash_step_spec, IH.
Qed.

(** X18. The number that seeds the pattern is the polynomial hash of the
    text with multiplier 31, taken as a signed 32-bit integer: the shift,
    the subtraction and the conjunction of the loop compute
    [31 * hash + char] and wrap it around at each character. *)
Theorem generatePattern_hash (text : string) :
  hash_loop text 0 = to_int32 (polynomial text 0)
  ∧ -2147483648 ≤ hash_loop text 0 < 2147483648.
Proof.
  assert (hash_loop text 0 = to_int32 (polynomial text 0)) as Hhash.
  { rewrite <- hash_loop_spec. by rewrite to_int32_small. }
  split; [done|]. rewrite Hhash. apply to_int32_range.
Qed.

Lemma next_seed_range (seed : Z) : 0 ≤ seed → 0 ≤ next_seed seed < 4294967296.
Proof.
  intros Hseed. unfold next_seed. rewrite Z.rem_mod_nonneg by lia.
  apply Z.mod_pos_bound. lia.
Qed.

Lemma seeds_range (text : string) (k : nat) :
  0 ≤ Nat.iter k next_seed (first_seed text) < 4294967297.
Proof.
  induction k as [|k IH]; simpl.
  - unfold first_seed. pose proof (to_int32_range (polynomial text 0)) as Hr.
    rewrite <- hash_loop_spec, to_int32_small in Hr by lia. lia.
  - pose proof (next_seed_range (Nat.iter k next_seed (first_seed text))). lia.
Qed.

(** X19. The generator of the pattern stays within the integers that a
    JavaScript number holds exactly: every seed it reaches is a natural
    number below 2^32 (the first one, the absolute value of the hash, at
    most 2^31), and the product and sum from which the next seed is
    taken stay below 2^53, so no step is rounded. *)
Theorem seeds_are_exact (text : string) (k : nat) :
  let seed := Nat.iter k next_seed (first_seed text) in
  0 ≤ seed < 4294967296
  ∧ 0 ≤ seed * 1664525 + 1013904223 < 9007199254740992.
Proof.
  cbv zeta. pose proof (seeds_range text k) as Hr.
  assert (0 ≤ Nat.iter k next_seed (first_seed text) < 4294967296) as Hs.
  { destruct k as [|k]; simpl.
    - unfold first_seed. pose proof (to_int32_range (polynomial text 0)) as Hp.
      rewrite <- hash_loop_spec, to_int32_small in Hp by lia. lia.
    - apply next_seed_range. pose proof (seeds_range text k). lia. }
  split; [done|]. nia.
Qed.

Lemma fill_row_spec (size row : Z) :
  ∀ todo col seed,
    snd (fill_row size row col todo seed) = Nat.iter todo next_seed seed
    ∧ length (fst (fill_row size row col todo seed)) = todo
    ∧ ∀ i, (i < todo)%nat →
        fst (fill_row size row col todo seed) !! i
        = Some (cell row (col + Z.of_nat i) size (Nat.iter (S i) next_seed seed)).
Proof.
  induction todo as [|todo IH]; intros col seed.
  - simpl. split; [done|]. split; [done|]. intros i Hi. lia.
  - cbn [fill_row]. cbv zeta.
    destruct (IH (col + 1) (next_seed seed)) as [Hseed [Hlen Hcells]].
    destruct (fill_row size row (col + 1) todo (next_seed seed)) as [cells seed'].
    cbn [fst snd length] in *.
    split; [rewrite Hseed; symmetry; apply Nat.iter_succ_r|]. split; [by rewrite Hlen|].
    intros [|i] Hi.
    + cbn. by rewrite Z.add_0_r.
    + change ((cell row col size (next_seed seed) :: cells) !! S i) with (cells !! i).
      rewrite Hcells by lia. rewrite (Nat.iter_succ_r (S i)).
      do 2 f_equal. lia.
Qed.

Lemma fill_rows_spec (size : nat) :
  ∀ todo row seed,
    length (fill_rows size row todo seed) = todo
    ∧ ∀ i, (i < todo)%nat →
        fill_rows size row todo seed !! i
        = Some (fst (fill_row (Z.of_nat size) (row + Z.of_nat i) 0 size
                       (Nat.iter (i * size) next_seed seed))).
Proof.
  induction todo as [|todo IH]; intros row seed.
  - simpl. split; [done|]. intros i Hi. lia.
  - cbn [fill_rows].
    destruct (fill_row_spec (Z.of_nat size) row size 0 seed) as [Hseed _].
    destruct (fill_row (Z.of_nat size) row 0 size seed) as [cells seed'] eqn:Hrow.
    simpl in Hseed. subst seed'.
    destruct (IH (row + 1) (Nat.iter size next_seed seed)) as [Hlen Hrows].
    split; [cbn [length]; by rewrite Hlen|].
    intros [|i] Hi.
    + cbn. by rewrite Z.add_0_r, Hrow.
    + change ((cells :: fill_rows size (row + 1) todo (Nat.iter size next_seed seed)) !! S i)
        with (fill_rows size (row + 1) todo (Nat.iter size next_seed seed) !! i).
      rewrite Hrows by lia. rewrite <- Nat.iter_add.
      replace (row + 1 + Z.of_nat i) with (row + Z.of_nat (S i)) by lia.
      by replace (i * size + size)%nat with (S i * size)%nat by lia.
Qed.

(** X20. The pattern is a square of [size] rows of [size] cells, and the
    cell at [(row, col)] is a function of the state the generator has
    after [row * size + col + 1] steps from the seed: it is dark exactly
    when the cell lies outside the three finder areas and that state is
    below 45 modulo 100. The generator makes a step for every cell, the
    cells of the finder areas included, and these are always left
    light. *)
Theorem generatePattern_cell (text : string) (size row col : nat) :
  (row < size)%nat →
  (col < size)%nat →
  length (generatePattern text size) = size
  ∧ at_cell (generatePattern text size) row col
    = Some (negb (isFinderPattern (Z.of_nat row) (Z.of_nat col) (Z.of_nat size))
            && (Z.rem (Nat.iter (row * size + col + 1) next_seed (first_seed text)) 100
                <? 45)).
Proof.
  intros Hrow Hcol. unfold generatePattern, at_cell. cbv zeta. fold (first_seed text).
  destruct (fill_rows_spec size size 0 (first_seed text)) as [Hlen Hrows].
  split; [done|]. rewrite (Hrows row Hrow).
  destruct (fill_row_spec (Z.of_nat size) (0 + Z.of_nat row) size 0
              (Nat.iter (row * size) next_seed (first_seed text))) as [_ [_ Hcells]].
  rewrite (Hcells col Hcol). unfold cell. rewrite !Z.add_0_l.
  rewrite <- Nat.iter_add.
  replace (S col + row * size)%nat with (row * size + col + 1)%nat by lia.
  by destruct (isFinderPattern _ _ _).
Qed.

End PatternFacts.

(** ** The pattern generator on concrete inputs *)

Section PatternExamples.

Import JS QRCodeLib.
Open Scope Z_scope.

(** A cell of the top-left finder area and the cell in the middle of the
    21 by 21 pattern that [generateQR] asks for. *)
Lemma generatePattern_cell_witness :
  at_cell (generatePattern "https://example.org" 21) 10 10
  = Some (negb (isFinderPattern 10 10 21)
          && (Z.rem (Nat.iter (10 * 21 + 10 + 1) next_seed
                       (first_seed "https://example.org")) 100 <? 45)).
Proof.
  pose proof (generatePattern_cell "https://example.org" 21 10 10) as Hthm.
  destruct Hthm as [_ Hcell].
  - lia.
  - lia.
  - exact Hcell.
Defined.

End PatternExamples.

(** ** The two versions of the redirect page *)

Section PageVersions.

Import JS Model QRRedirectManager.
Open Scope string_scope.

Lemma substring_length (text : string) :
  ∀ n, String.length (substring 0 n text) = Nat.min n (String.length text).
Proof.
  induction text as [|c text IH]; intros [|n]; simpl; try done.
  by rewrite IH.
Qed.

(** X21. The announcement of the redirect is cut to size. For a limit of
    at least 3, [shortenText] returns a text of at most [maxLength]
    characters: the text itself when it fits, else its first
    [maxLength - 3] characters followed by three dots, [maxLength]
    characters in all; shortening twice is shortening once. Below 3 the
    limit is not kept: a text that does not fit becomes the three dots
    alone. *)
Theorem shortenText_spec (text : string) (maxLength : Z) :
  let short := QRRedirectManagerV1.shortenText text maxLength in
  ((Z.of_nat (String.length text) ≤ maxLength)%Z → short = text)
  ∧ ((3 ≤ maxLength < Z.of_nat (String.length text))%Z →
       short = substring 0 (Z.to_nat (maxLength - 3)) text +:+ "..."
       ∧ Z.of_nat (String.length short) = maxLength)
  ∧ ((3 ≤ maxLength)%Z →
       (Z.of_nat (String.length short) ≤ maxLength)%Z
       ∧ QRRedirectManagerV1.shortenText short maxLength = short)
  ∧ ((maxLength < 3)%Z → (maxLength < Z.of_nat (String.length text))%Z → short = "...").
Proof.
  cbv zeta. unfold QRRedirectManagerV1.shortenText.
  assert ((3 ≤ maxLength < Z.of_nat (String.length text))%Z →
          Z.of_nat (String.length (substring 0 (Z.to_nat (maxLength - 3)) text +:+ "..."))
          = maxLength) as Hlen.
  { intros Hm. rewrite str_length_app, substring_length. simpl. lia. }
  destruct (Z.leb_spec (Z.of_nat (String.length text)) maxLength) as [Hfits|Hlong].
  - split; [done|]. split; [lia|]. split; [|lia]. intros _. split; [done|].
    destruct (Z.leb_spec (Z.of_nat (String.length text)) maxLength); [done|lia].
  - split; [lia|]. split; [intros Hm; split; [done|by apply Hlen]|]. split.
    + intros Hm. rewrite Hlen by lia. split; [lia|].
      destruct (Z.leb_spec maxLength maxLength); [done|lia].
    + intros Hm _. replace (Z.to_nat (maxLength - 3)) with 0%nat by lia.
      by destruct text.
Qed.

Context (parseURL : string → option URL) (confirm : string → bool).

(** X22. The second version of the page only narrows what the first
    version took for a link. Every text that the second [isValidURL]
    accepts the first one accepts too, and wherever the second version
    navigates, the first one navigated (without a whitelist and without
    asking). The first version navigates to every text that [new URL]
    parses, whatever its scheme. *)
Theorem second_version_narrows (originalText : string) :
  (isValidURL parseURL originalText = true →
   QRRedirectManagerV1.isValidURL parseURL originalText = true)
  ∧ (Navigate originalText ∈ redirectToOriginal parseURL confirm originalText →
     QRRedirectManagerV1.redirectToOriginal parseURL originalText = [Navigate originalText])
  ∧ (is_Some (parseURL originalText) →
     QRRedirectManagerV1.redirectToOriginal parseURL originalText = [Navigate originalText]).
Proof.
  assert (isValidURL parseURL originalText = true →
          QRRedirectManagerV1.isValidURL parseURL originalText = true) as Hnarrow.
  { unfold isValidURL, QRRedirectManagerV1.isValidURL.
    destruct (parseURL originalText); [done|].
    by destruct (_ || _). }
  split; [done|]. split.
  - unfold redirectToOriginal, QRRedirectManagerV1.redirectToOriginal. intros Hnav.
    destruct (isValidURL parseURL originalText) eqn:Hvalid.
    + by rewrite Hnarrow.
    + apply list_elem_of_In in Hnav. simpl in Hnav. intuition discriminate.
  - intros [url Hurl].
    unfold QRRedirectManagerV1.redirectToOriginal, QRRedirectManagerV1.isValidURL.
    by rewrite Hurl.
Qed.

End PageVersions.

(** ** The generator page *)

Section GeneratorFacts.

Import JS Model QRGenerator.
Open Scope string_scope.

Context (H : Host value) (P : Page) (clock : Clock).

(** X23. The handler asks the rate limiter before it validates the
    input. A call that the limiter refuses shows one alert and, but for
    the warning that [canMakeRequest] writes on the console, does
    nothing else, whatever was entered: the store and the limiter are as
    before, and the alert reports 0 further codes when the clock has not
    moved between the two readings. A call that the
    limiter admits and the validator rejects shows the message of the
    validator and leaves the store as it was, but it has used up one of
    the ten requests of the minute. *)
Theorem generateQRCode_limit_then_validate (qrId textArea nameInput : string)
    (selectedLogo : value) (requests : gmap string (list Z)) (w : World) :
  let recent := RateLimiter.recent (at_limit clock) (RateLimiter.stored "anonymous" requests) in
  ((10 ≤ length recent)%nat →
     generateQRCode H P clock qrId textArea nameInput selectedLogo (Some requests) w
     = (Ok ([AlertRateLimit
               (RateLimiter.getRemainingRequests "anonymous" (at_remaining clock) requests)],
            Some requests),
        with_console
          (console w ++ ["Rate limit exceeded. Please wait before making more requests."])
          w)
     ∧ (at_remaining clock = at_limit clock →
        RateLimiter.getRemainingRequests "anonymous" (at_remaining clock) requests = 0%Z))
  ∧ ((length recent < 10)%nat →
     ∀ message,
       SecurityUtils.validateQRInput (trim textArea) (trim nameInput) = Throw message →
       generateQRCode H P clock qrId textArea nameInput selectedLogo (Some requests) w
       = (Ok ([Alert message],
              Some (<["anonymous" := (recent ++ [at_limit clock])%list]> requests)), w)).
Proof.
  cbv zeta. unfold generateQRCode, RateLimiter.canMakeRequest, RateLimiter.stored.
  unfold RateLimiter.maxRequests. split.
  - intros Hfull. rewrite decide_True by done. split; [done|].
    intros ->. unfold RateLimiter.getRemainingRequests, RateLimiter.maxRequests. lia.
  - intros Hroom message Hinvalid. rewrite decide_False by lia.
    unfold validated. rewrite Hinvalid. done.
Qed.

(** X24. The link that is shown carries the payload exactly when
    [FirebaseStatus.isAvailable()] is false after the record was
    created: then it is the redirect link of the id followed by
    [&data=] and the encoded JSON text of the text, the name and the
    time; else it is the redirect link alone. The test is not the one by
    which the store chose its tier. If [btoa] throws on the JSON text,
    the record stays created and the user is told that the generation
    failed. *)
Theorem generated_link (qrId text name : string) (selectedLogo : value) (w w1 : World) :
  FirebaseManager.createQRCode H qrId (at_create clock) (at_server clock) text name
    selectedLogo w = (Ok qrId, w1) →
  let link := getRedirectUrl P qrId in
  let shown := fst (generate H P clock qrId text name selectedLogo w) in
  (FirebaseStatus.isAvailable w1 = true → createQRCanvas P link = true →
     shown = Ok [Display link; Listen qrId; Analytics 0 (at_analytics clock); Recent])
  ∧ (FirebaseStatus.isAvailable w1 = false →
     ∀ data,
       encode_payload P (stringify H (fallback_object clock text name)) = Some data →
       createQRCanvas P (link +:+ "&data=" +:+ data) = true →
       shown = Ok [Display (link +:+ "&data=" +:+ data); Listen qrId;
                   Analytics 0 (at_analytics clock); Recent])
  ∧ (FirebaseStatus.isAvailable w1 = false →
     encode_payload P (stringify H (fallback_object clock text name)) = None →
     shown = Ok [Alert "Failed to generate QR code. Please try again."]).
Proof.
  intros Hcreate link shown. unfold shown, generate, try_catch.
  rewrite (bind_ok _ _ _ _ _ Hcreate). fold link.
  split; [|split].
  - intros Havailable Hcanvas. unfold bind at 1. rewrite Havailable. simpl.
    by rewrite Hcanvas.
  - intros Hoffline data Hdata Hcanvas. unfold bind at 1. rewrite Hoffline. simpl.
    rewrite Hdata. simpl. by rewrite Hcanvas.
  - intros Hoffline Hdata. unfold bind at 1. rewrite Hoffline. simpl.
    by rewrite Hdata.
Qed.

(** X25. The payload of a link is read back by the redirect page. When
    the browser hands the page a [data] parameter that decodes to the
    JSON text the generator encoded, and JSON carries the object, the
    last step of the resolution rebuilds a record with the text and the
    name that were entered, the time of the generation and scan count 0,
    with source [url_fallback]: the two scripts agree on the names of the
    fields. *)
Theorem fallback_payload_round_trip (qrId text name received : string)
    (found : value * string) (w : World) :
  received ≠ "" →
  decode_payload H received = Some (stringify H (fallback_object clock text name)) →
  parse H (stringify H (fallback_object clock text name))
  = Some (fallback_object clock text name) →
  QRRedirectManager.try_url_fallback H qrId (Some received) found w
  = (Ok (VObj [("id", VStr qrId); ("name", VStr name); ("originalText", VStr text);
               ("createdAt", VNum (at_payload clock)); ("scanCount", VNum 0)],
         "url_fallback"),
     snd (log "Data found in URL fallback" (snd (log "Trying URL fallback data..." w)))).
Proof.
  intros Hne Hdecode Hparse. unfold QRRedirectManager.try_url_fallback.
  assert (present (Some received) = Some received) as -> by (by apply present_Some).
  unfold try_catch. erewrite bind_ok; [|reflexivity].
  unfold bind at 1, or_throw. rewrite Hdecode. cbn [ret].
  unfold bind at 1. rewrite Hparse. cbn [ret]. reflexivity.
Qed.

Lemma all_chars_app (p : ascii → bool) (a b : string) :
  all_chars p (a +:+ b) = all_chars p a && all_chars p b.
Proof.
  induction a as [|c a IH]; [done|]. rewrite str_app_cons. simpl.
  by rewrite IH, andb_assoc.
Qed.

Lemma strip_kept (s : string) : all_chars kept (strip s) = true.
Proof.
  induction s as [|c s IH]; [done|]. simpl.
  destruct (kept c) eqn:Hc; [|done]. simpl. by rewrite Hc.
Qed.

Lemma kept_plain (c : ascii) : kept c = true → is_space c = false → plain c = true.
Proof. unfold kept, plain. intros Hk Hs. rewrite Hs, orb_false_r in Hk. done. Qed.

Lemma hyphenate_plain (s : string) :
  all_chars kept s = true → all_chars plain (hyphenate s) = true.
Proof.
  induction s as [|c s IH]; [done|]. cbn [all_chars hyphenate].
  intros [Hc Hs]%andb_true_iff. specialize (IH Hs).
  destruct (is_space c) eqn:Hsp.
  - destruct s as [|c' s']; [done|].
    destruct (is_space c'); [done|]. cbn [all_chars]. by rewrite IH.
  - cbn [all_chars]. by rewrite IH, (kept_plain c Hc Hsp).
Qed.

(** X26. The name of a download holds no character that a file system or
    a shell reads specially. Whatever name was entered and whatever the
    date text is, the file name is a stem of letters, digits, hyphens and
    underscores, a hyphen, the date text and [.png]; the stem is never
    empty, and it is [qr-code] when nothing of the name is left. *)
Theorem filename_is_safe (nameInput timestamp : string) :
  ∃ stem,
    filename nameInput timestamp = stem +:+ "-" +:+ timestamp +:+ ".png"
    ∧ all_chars plain stem = true
    ∧ stem ≠ ""
    ∧ (hyphenate (strip (trim nameInput)) = "" → stem = "qr-code").
Proof.
  unfold filename. cbv zeta.
  destruct (String.eqb_spec (hyphenate (strip (trim nameInput))) "") as [Hempty|Hname].
  - exists "qr-code". by rewrite Hempty.
  - exists (hyphenate (strip (trim nameInput))). split; [done|].
    split; [apply hyphenate_plain, strip_kept|]. done.
Qed.

End GeneratorFacts.

(** ** The generator page on concrete inputs *)

Section GeneratorExamples.

Import JS Model QRGenerator.
Open Scope string_scope.

(** An offline page: the record goes to the vault and the link carries
    the payload. *)
Lemma generated_link_witness :
  let H := Demo.host true 1000 in
  let link := getRedirectUrl demo_page "abc" in
  let data := stringify H (fallback_object demo_clock "https://example.org" "Demo") in
  fst (generate H demo_page demo_clock "abc" "https://example.org" "Demo" VNull
         Demo.offline)
  = Ok [Display (link +:+ "&data=" +:+ data); Listen "abc";
        Analytics 0 (at_analytics demo_clock); Recent].
Proof.
  intros H link data.
  pose proof (generated_link H demo_page demo_clock "abc" "https://example.org" "Demo"
                VNull Demo.offline
                (snd (FirebaseManager.createQRCode H "abc" (at_create demo_clock)
                        (at_server demo_clock) "https://example.org" "Demo" VNull
                        Demo.offline))) as Hthm.
  destruct Hthm as [_ [Hoffline _]].
  - vm_compute. reflexivity.
  - apply (Hoffline eq_refl data); reflexivity.
Defined.

Lemma fallback_payload_round_trip_witness :
  let H := Demo.host true 1000 in
  let received := stringify H (fallback_object demo_clock "https://example.org" "Demo") in
  fst (QRRedirectManager.try_url_fallback H "abc" (Some received) (VNull, "none")
         Demo.offline)
  = Ok (VObj [("id", VStr "abc"); ("name", VStr "Demo");
              ("originalText", VStr "https://example.org");
              ("createdAt", VNum (at_payload demo_clock)); ("scanCount", VNum 0)],
        "url_fallback").
Proof.
  intros H received.
  rewrite (fallback_payload_round_trip H demo_clock "abc" "https://example.org" "Demo"
             received (VNull, "none") Demo.offline).
  - reflexivity.
  - vm_compute. discriminate.
  - reflexivity.
  - vm_compute. reflexivity.
Defined.

End GeneratorExamples.

(** ** Sanitised text *)

Section SanitizerFacts.

Import JS Model Sanitizer.
Open Scope string_scope.

Lemma suffix_of_refl (s : string) : suffix_of s s.
Proof. by exists "". Qed.

Lemma suffix_of_trans (a b c : string) : suffix_of a b → suffix_of b c → suffix_of a c.
Proof. intros [m1 ->] [m2 ->]. exists (m2 +:+ m1). by rewrite str_app_assoc. Qed.

Lemma suffix_of_cons (c : ascii) (rest s : string) :
  suffix_of rest s → suffix_of rest (String c s).
Proof. intros [m ->]. by exists (String c m). Qed.

Lemma lit_prefix_suffix (p s rest : string) : lit_prefix p s = Some rest → suffix_of rest s.
Proof. intros Hp. apply lit_prefix_spec in Hp as [mid [-> _]]. by exists mid. Qed.

Lemma many_suffix (greedy : bool) (class : ascii → bool) (k : string → option string) :
  (∀ s rest, k s = Some rest → suffix_of rest s) →
  ∀ s rest, many greedy class k s = Some rest → suffix_of rest s.
Proof.
  intros Hk s. induction s as [|a s IH]; intros rest; destruct greedy; simpl.
  - apply Hk.
  - destruct (k "") eqn:Hks; [|done]. intros [= <-]. by apply Hk.
  - destruct (class a); [|apply Hk].
    destruct (many true class k s) as [rest'|] eqn:Hm.
    + intros [= <-]. apply suffix_of_cons. by apply IH.
    + apply Hk.
  - destruct (k (String a s)) as [rest'|] eqn:Hks.
    + intros [= <-]. by apply Hk.
    + destruct (class a); [|done]. intros Hm. apply suffix_of_cons. by apply IH.
Qed.

Lemma exec_suffix (r : list atom) :
  ∀ s rest, exec r s = Some rest → suffix_of rest s.
Proof.
  induction r as [|[p|greedy at_least_one class] r IH]; intros s rest; simpl.
  - intros [= <-]. apply suffix_of_refl.
  - destruct (lit_prefix p s) as [rest'|] eqn:Hp; [|done]. intros Hr.
    eapply suffix_of_trans; [by apply IH|by eapply lit_prefix_suffix].
  - destruct at_least_one; [|by apply many_suffix].
    destruct s as [|a s]; [done|]. destruct (class a); [|done]. intros Hm.
    apply suffix_of_cons. by eapply many_suffix.
Qed.

(** A text without the character [c] has no suffix with it. *)
Lemma lacks_suffix (c : ascii) (rest s : string) :
  suffix_of rest s → includes s (String c "") = false →
  includes rest (String c "") = false.
Proof.
  intros [m ->]. induction m as [|a m IH]; [done|].
  rewrite str_app_cons. intros Hl. apply includes_char_cons in Hl as [_ Hl]. by apply IH.
Qed.

(** Deleting matches brings in no character. *)
Lemma replace_all_lacks (c : ascii) (r : list atom) (fuel : nat) :
  ∀ s, includes s (String c "") = false →
       includes (replace_all fuel r s) (String c "") = false.
Proof.
  induction fuel as [|fuel IH]; intros s Hs; [done|]. simpl.
  destruct s as [|a s]; [done|].
  pose proof Hs as Hs'. apply includes_char_cons in Hs' as [Hne Htail].
  assert (includes (String a (replace_all fuel r s)) (String c "") = false) as Hkeep.
  { apply includes_char_cons. split; [done|by apply IH]. }
  destruct (exec r (String a s)) as [rest|] eqn:He; [|done].
  destruct (String.length rest <? _)%nat; [|done].
  apply IH. eapply lacks_suffix; [by eapply exec_suffix|done].
Qed.

(** The fuel of [replace] is enough: more of it changes nothing. *)
Lemma replace_all_fuel (r : list atom) :
  ∀ fuel s, (String.length s ≤ fuel)%nat →
            replace_all fuel r s = replace_all (String.length s) r s.
Proof.
  induction fuel as [fuel IH] using lt_wf_ind. intros s Hlen.
  destruct fuel as [|fuel]; [destruct s; [done|simpl in Hlen; lia]|].
  destruct s as [|c s]; [done|]. cbn [String.length replace_all]. simpl in Hlen.
  destruct (exec r (String c s)) as [rest|].
  - destruct (String.length rest <? S (String.length s))%nat eqn:Hlt.
    + apply Nat.ltb_lt in Hlt. rewrite (IH fuel) by lia.
      by rewrite (IH (String.length s)) by lia.
    + rewrite (IH fuel) by lia. done.
  - rewrite (IH fuel) by lia. done.
Qed.

Lemma replace_lacks (c : ascii) (r : list atom) (s : string) :
  includes s (String c "") = false → includes (replace r s) (String c "") = false.
Proof. apply replace_all_lacks. Qed.

(** A pattern that starts with a character that is no letter matches
    nowhere in a text without that character. *)
Lemma replace_all_same (c : ascii) (p : string) (r : list atom) (fuel : nat) :
  canonicalize c = c →
  (∀ b, canonicalize b = c → b = c) →
  ∀ s, includes s (String c "") = false →
       replace_all fuel (Lit (String c p) :: r) s = s.
Proof.
  intros Hc Honly. induction fuel as [|fuel IH]; intros s Hs; [done|].
  destruct s as [|a s]; [done|].
  apply includes_char_cons in Hs as [Hne Htail].
  cbn [replace_all exec lit_prefix].
  destruct (Ascii.eqb_spec (canonicalize c) (canonicalize a)) as [Heq|_].
  - exfalso. apply Hne. apply Honly. by rewrite <- Heq.
  - by rewrite IH.
Qed.

Lemma canonicalize_lt (b : ascii) : canonicalize b = "<"%char → b = "<"%char.
Proof.
  unfold canonicalize.
  destruct ((97 <=? code b)%nat && (code b <=? 122)%nat) eqn:Hletter; [|done].
  apply andb_true_iff in Hletter as [H1 H2].
  apply Nat.leb_le in H1, H2. intros Heq.
  apply (f_equal nat_of_ascii) in Heq. rewrite nat_ascii_embedding in Heq.
  - change (nat_of_ascii "<") with 60%nat in Heq. lia.
  - lia.
Qed.

Context (escape : string → string).

Lemma sanitizeText_lacks (c : ascii) (text : value) :
  (∀ s, includes (escape s) (String c "") = false) →
  includes (sanitizeText escape text) (String c "") = false.
Proof.
  intros Hescape.
  assert (includes (escapeHTML escape (toString text)) (String c "") = false) as Hclean.
  { unfold escapeHTML. by destruct (String.eqb _ ""). }
  unfold sanitizeText. destruct (truthy text); [|done]. cbn [negb]. cbv zeta.
  by do 3 apply replace_lacks.
Qed.

(** X27. Sanitising brings no character into a text: the three
    replacements only delete. So when the text that the browser
    serialises holds no [<] (or no [>]), as it does for a text node, the
    sanitised text holds none either and cannot open a tag; and, after
    the escaping, the removal of script elements never removes anything,
    since its pattern starts with [<]. *)
Theorem sanitizeText_adds_nothing (c : ascii) (text : value) :
  (∀ s, includes (escape s) (String c "") = false) →
  includes (sanitizeText escape text) (String c "") = false
  ∧ (c = "<"%char →
     replace script_element (escapeHTML escape (toString text))
     = escapeHTML escape (toString text)).
Proof.
  intros Hescape. split; [by apply sanitizeText_lacks|].
  intros ->. unfold replace, script_element.
  apply replace_all_same; [done|apply canonicalize_lt|].
  unfold escapeHTML. by destruct (String.eqb _ "").
Qed.

Lemma substring_lacks (c : ascii) (s : string) :
  ∀ n, includes s (String c "") = false →
       includes (substring 0 n s) (String c "") = false.
Proof.
  induction s as [|a s IH]; intros [|n] Hs; try done.
  apply includes_char_cons in Hs as [Hne Hs]. cbn [substring].
  apply includes_char_cons. split; [done|by apply IH].
Qed.

Lemma app_lacks (c : ascii) (a b : string) :
  includes a (String c "") = false → includes b (String c "") = false →
  includes (a +:+ b) (String c "") = false.
Proof.
  intros Ha Hb. induction a as [|x a IH]; [done|].
  apply includes_char_cons in Ha as [Hne Ha]. rewrite str_app_cons.
  apply includes_char_cons. split; [done|by apply IH].
Qed.

(** X28. A truncated text fits and stays clean. For a limit of at least
    3, [truncateText] returns at most [maxLength] characters: the
    sanitised text when it fits, else its first [maxLength - 3]
    characters and three dots; it is what [shortenText] of the page
    makes of the sanitised text. Cutting brings in no character but the
    dot, so the result holds no [<] when the serialised text holds
    none. *)
Theorem truncateText_spec (text : value) (maxLength : Z) :
  (3 ≤ maxLength)%Z →
  truncateText escape text maxLength
  = QRRedirectManagerV1.shortenText (sanitizeText escape text) maxLength
  ∧ (Z.of_nat (String.length (truncateText escape text maxLength)) ≤ maxLength)%Z
  ∧ ∀ c, c ≠ "."%char →
      (∀ s, includes (escape s) (String c "") = false) →
      includes (truncateText escape text maxLength) (String c "") = false.
Proof.
  intros Hmax.
  assert (truncateText escape text maxLength
          = QRRedirectManagerV1.shortenText (sanitizeText escape text) maxLength) as Heq.
  { unfold truncateText, QRRedirectManagerV1.shortenText.
    destruct (truthy text) eqn:Htruthy; [done|]. cbn [negb].
    unfold sanitizeText. rewrite Htruthy. cbn [negb String.length].
    destruct (Z.leb_spec (Z.of_nat 0) maxLength); [done|lia]. }
  split; [done|]. rewrite Heq. unfold QRRedirectManagerV1.shortenText.
  destruct (Z.leb_spec (Z.of_nat (String.length (sanitizeText escape text))) maxLength)
    as [Hle|Hgt].
  - split; [done|]. intros c _ Hescape. by apply sanitizeText_lacks.
  - split.
    + rewrite str_length_app, substring_length. simpl. lia.
    + intros c Hdot Hescape.
      apply app_lacks; [by apply substring_lacks, sanitizeText_lacks|].
      apply includes_char_cons. split; [done|].
      apply includes_char_cons. split; [done|].
      apply includes_char_cons. split; [done|]. done.
Qed.

End SanitizerFacts.

(** ** Sanitised text on concrete inputs *)

Section SanitizerExamples.

Import JS Model Sanitizer.
Open Scope string_scope.

Lemma html_escape_lacks_lt (s : string) : includes (html_escape s) "<" = false.
Proof.
  induction s as [|c s IH]; [done|]. cbn [html_escape].
  destruct (Ascii.eqb c "&"); [by apply (app_lacks "<" "&amp;")|].
  destruct (Ascii.eqb_spec c "<") as [->|Hne]; [by apply (app_lacks "<" "&lt;")|].
  destruct (Ascii.eqb c ">"); [by apply (app_lacks "<" "&gt;")|].
  destruct (code c =? 160)%nat; [by apply (app_lacks "<" "&nbsp;")|].
  apply (app_lacks "<" (String c "")); [|done].
  apply includes_char_cons. by split.
Qed.

(** A text with a script element: nothing of it is left to open a
    tag. *)
Lemma sanitizeText_adds_nothing_witness :
  includes (sanitizeText html_escape (VStr "<script>alert(1)</script> onload = x")) "<"
  = false.
Proof.
  pose proof (sanitizeText_adds_nothing html_escape "<"
                (VStr "<script>alert(1)</script> onload = x")) as Hthm.
  destruct Hthm as [Hclean _].
  - exact html_escape_lacks_lt.
  - exact Hclean.
Defined.

Lemma truncateText_spec_witness :
  (Z.of_nat (String.length (truncateText html_escape
                              (VStr "https://example.org/a/long/path/to/a/page") 20))
   ≤ 20)%Z.
Proof.
  pose proof (truncateText_spec html_escape
                (VStr "https://example.org/a/long/path/to/a/page") 20) as Hthm.
  destruct Hthm as [_ [Hlen _]].
  - lia.
  - exact Hlen.
Defined.

End SanitizerExamples.

(** ** The rate limiter over a run of calls *)

Section RateLimiterRuns.

Import RateLimiter RateLimiterRun.

Lemma recent_recent (now now' : Z) (l : list Z) :
  now ≤ now' → recent now' (recent now l) = recent now' l.
Proof.
  intros Hle. unfold recent. induction l as [|t l IH]; [done|].
  destruct (decide (now' - t < timeWindow)) as [Hin|Hout].
  - rewrite (filter_cons_True (λ time, now' - time < timeWindow) t l) by done.
    rewrite (filter_cons_True (λ time, now - time < timeWindow) t l) by lia.
    rewrite filter_cons_True by done. by rewrite IH.
  - rewrite (filter_cons_False (λ time, now' - time < timeWindow) t l) by done.
    destruct (decide (now - t < timeWindow)).
    + rewrite (filter_cons_True (λ time, now - time < timeWindow) t l) by done.
      rewrite filter_cons_False by done. done.
    + rewrite (filter_cons_False (λ time, now - time < timeWindow) t l) by done. done.
Qed.

Lemma recent_app (now : Z) (a b : list Z) :
  recent now (a ++ b) = recent now a ++ recent now b.
Proof. unfold recent. apply filter_app. Qed.

Lemma accepted_window (userId : string) (now : Z) :
  ∀ times requests before lo,
    monotone times →
    Forall (λ t, lo ≤ t ≤ now) times →
    lo ≤ now →
    (∀ now', lo ≤ now' → recent now' before = recent now' (stored userId requests)) →
    (length (stored userId requests) ≤ maxRequests)%nat →
    (length (recent now (before ++ accepted userId times requests)) ≤ maxRequests)%nat.
Proof.
  induction times as [|t times IH]; intros requests before lo Hmono Hbounds Hlo Hinv Hlen.
  - simpl. rewrite app_nil_r, (Hinv now Hlo).
    pose proof (length_filter (λ time, now - time < timeWindow) (stored userId requests)).
    unfold recent. lia.
  - destruct Hmono as [Hlater Hmono]. apply Forall_cons in Hbounds as [Ht Hbounds].
    assert (Forall (λ s, t ≤ s ≤ now) times) as Hbounds'.
    { apply Forall_forall. intros s Hs.
      pose proof (proj1 (Forall_forall _ _) Hlater s Hs).
      pose proof (proj1 (Forall_forall _ _) Hbounds s Hs). simpl in *. lia. }
    simpl. destruct (canMakeRequest userId t requests) as [[] requests'] eqn:Hcall.
    + apply canMakeRequest_admit in Hcall as [Hstored Hroom].
      replace (before ++ t :: accepted userId times requests')
        with ((before ++ [t]) ++ accepted userId times requests')
        by (by rewrite <- app_assoc).
      apply (IH requests' (before ++ [t]) t); try done; [lia| |].
      * intros now' Hnow'. rewrite Hstored, !recent_app.
        rewrite recent_recent by done. rewrite Hinv by lia. done.
      * rewrite Hstored, length_app. simpl. lia.
    + assert (requests' = requests) as ->.
      { revert Hcall. unfold canMakeRequest. case_decide; [|done]. by intros [= <-]. }
      apply (IH requests before t); try done; [lia|].
      intros now' Hnow'. apply Hinv. lia.
Qed.

(** X29. The limit holds over every window, not only from a fresh
    start. In a run of calls of one caller whose clock does not run
    backwards, starting with nothing stored for the caller, at most ten
    of the admitted calls fall into the minute that ends at any time not
    before the last call; as every prefix of a run is a run, no minute
    ever holds more than ten admitted calls. *)
Theorem at_most_ten_per_minute (userId : string) (times : list Z)
    (requests : gmap string (list Z)) (now : Z) :
  stored userId requests = [] →
  monotone times →
  Forall (λ t, t ≤ now) times →
  (length (filter (λ t, (now - t < 60000)%Z) (accepted userId times requests)) ≤ 10)%nat.
Proof.
  intros Hfresh Hmono Hbound.
  destruct times as [|t times]; [simpl; lia|].
  apply (accepted_window userId now (t :: times) requests [] t); try done.
  - destruct Hmono as [Hlater _]. apply Forall_cons in Hbound as [Ht Hbound].
    apply Forall_cons. split; [lia|].
    apply Forall_forall. intros s Hs.
    pose proof (proj1 (Forall_forall _ _) Hlater s Hs).
    pose proof (proj1 (Forall_forall _ _) Hbound s Hs). simpl in *. lia.
  - apply Forall_cons in Hbound as [Ht _]. done.
  - intros now' _. by rewrite Hfresh.
  - rewrite Hfresh. simpl. lia.
Qed.

(** Twelve calls within two seconds and a thirteenth after 61 seconds:
    the first ten and the last one are admitted. *)
Lemma at_most_ten_per_minute_witness :
  let times := [0; 100; 200; 300; 400; 500; 600; 700; 800; 900; 1000; 1100; 61000] in
  accepted "anonymous" times ∅ = [0; 100; 200; 300; 400; 500; 600; 700; 800; 900; 61000]
  ∧ (length (filter (λ t, (61000 - t < 60000)%Z) (accepted "anonymous" times ∅)) ≤ 10)%nat.
Proof.
  intros times. split; [vm_compute; reflexivity|].
  apply (at_most_ten_per_minute "anonymous" times ∅ 61000).
  - reflexivity.
  - simpl. repeat split; repeat constructor; lia.
  - repeat constructor; lia.
Defined.

End RateLimiterRuns.

(** ** From the first version of the store to the second *)

Section StoreVersions.

Import JS Model CryptoManager.
Open Scope string_scope.

Context (H : Host value).

(** X30. Records of the first version survive the upgrade. On the local
    tier, with no encrypted slot yet, let the first version create a
    record in its plain-text map (an object that JSON carries). The first
    version reads the record back, and so does the second version: its
    first read takes the map from the plain-text slot. When the
    encryption of that migration completes, the plain-text slot is gone
    afterwards and the record is read from the vault from then on. *)
Theorem upgrade_keeps_records (laws : HostLaws H) (qrId originalText name : string)
    (logoPath : value) (now server_now : Z) (w : World) (fields : list (string * value)) :
  firebase_sdk w && database w = false →
  present (localStorage w !! encrypted_slot "qr-codes") = None →
  fst (FirebaseManagerV1.load_local H w) = Ok (VObj fields) →
  let qrData := VObj [("id", VStr qrId); ("name", VStr name);
                      ("originalText", VStr originalText); ("logoPath", logoPath);
                      ("scanCount", VNum 0); ("createdAt", VNum now);
                      ("lastScanned", VNull)] in
  let localQRs := VObj (assoc_set qrId qrData fields) in
  parse H (stringify H localQRs) = Some localQRs →
  let created := FirebaseManagerV1.createQRCode H qrId now server_now originalText name
                   logoPath w in
  let w1 := snd created in
  fst created = Ok qrId
  ∧ localStorage w1 !! "qr-codes" = Some (stringify H localQRs)
  ∧ fst (FirebaseManagerV1.getQRCode H qrId w1) = Ok qrData
  ∧ fst (FirebaseManager.getQRCode H qrId w1) = Ok qrData
  ∧ (fst (setItem_secure H "qr-codes" localQRs w1) = Ok tt →
     let w2 := snd (FirebaseManager.getQRCode H qrId w1) in
     localStorage w2 !! "qr-codes" = None
     ∧ fst (FirebaseManager.getQRCode H qrId w2) = Ok qrData).
Proof.
  intros Htier Hfree Hload qrData localQRs Hparse created w1.
  set (json := stringify H localQRs) in *.
  assert (FirebaseManagerV1.load_local H w = (Ok (VObj fields), w)) as Hload'.
  { revert Hload. unfold FirebaseManagerV1.load_local, bind, storage_get, or_throw.
    destruct (parse H (default "{}" (present (localStorage w !! "qr-codes"))))
      as [stored|]; unfold ret, throw; cbn [fst]; [|done].
    intros Hstored. injection Hstored as Hstored. by rewrite Hstored. }
  assert (created
          = (Ok qrId, with_console (console w ++ ["QR code created successfully locally:"])
                        (with_localStorage (insert "qr-codes" json) w))) as Hcreated.
  { unfold created, FirebaseManagerV1.createQRCode, try_catch, bind at 1.
    unfold bind at 1, FirebaseManager.uses_remote. rewrite Htier.
    unfold bind at 1. rewrite Hload'. reflexivity. }
  assert (json ≠ "") as Hjson by apply (stringify_nonempty H laws).
  assert (present (Some json) = Some json) as Hpresent by (by apply present_Some).
  unfold w1. rewrite Hcreated. cbn [fst snd].
  set (w' := with_console _ _).
  assert (firebase_sdk w' && database w' = false) as Htier' by exact Htier.
  assert (localStorage w' !! "qr-codes" = Some json) as Hslot
    by (simpl; apply lookup_insert_eq).
  assert (present (localStorage w' !! encrypted_slot "qr-codes") = None) as Hfree'.
  { simpl. rewrite lookup_insert_ne; [done|]. apply not_eq_sym, encrypted_slot_not_key. }
  assert (assoc qrId (assoc_set qrId qrData fields) = qrData) as Hsame
    by apply assoc_set_same.
  split; [done|]. split; [done|]. split.
  { unfold FirebaseManagerV1.getQRCode, try_catch, bind at 1, FirebaseManager.uses_remote.
    rewrite Htier'. unfold FirebaseManagerV1.load_local, bind, storage_get, or_throw.
    rewrite Hslot, Hpresent. cbn [default from_option id]. rewrite Hparse.
    simpl. by rewrite Hsame. }
  assert (∃ w2, getItem H "qr-codes" w' = (Ok (Some localQRs), w2)
                ∧ (∀ w3, setItem_secure H "qr-codes" localQRs w' = (Ok tt, w3) →
                         w2 = with_localStorage (delete "qr-codes") w3)) as [w2 [Hget Hw2]].
  { unfold getItem, try_catch, bind at 1, storage_get. rewrite Hfree'.
    unfold bind at 1. rewrite Hslot, Hpresent.
    unfold bind at 1, or_throw. rewrite Hparse. cbn [ret].
    unfold bind at 1.
    pose proof (setItem_returns H "qr-codes" localQRs w') as Hret.
    unfold setItem, try_catch in *.
    destruct (setItem_secure H "qr-codes" localQRs w') as [[[]|e] w3] eqn:Hsecure.
    - eexists. split; [reflexivity|]. by intros w4 [= <-].
    - simpl. eexists. split; [reflexivity|]. by intros w4 [=]. }
  assert (FirebaseManager.getQRCode H qrId w' = (Ok qrData, w2)) as Hfirst.
  { unfold FirebaseManager.getQRCode, try_catch, bind at 1, FirebaseManager.uses_remote.
    rewrite Htier'. unfold FirebaseManager.load_local, bind. rewrite Hget.
    simpl. by rewrite Hsame. }
  rewrite Hfirst. cbn [fst snd]. split; [done|].
  intros Hok.
  destruct (setItem_secure H "qr-codes" localQRs w') as [[[]|e] w3] eqn:Hsecure; [|done].
  rewrite (Hw2 w3 eq_refl). split; [simpl; apply lookup_delete_eq|].
  destruct (getItem_after_secure_any H laws "qr-codes" localQRs w' w3
              (with_localStorage (delete "qr-codes") w3) Hsecure Hparse) as [Hagain _].
  { simpl. by rewrite lookup_delete_ne. }
  { simpl. rewrite lookup_delete_ne; [done|]. apply not_eq_sym, encrypted_slot_not_key. }
  assert (backend w3 = backend w') as Hbackend.
  { pose proof (keeps_setItem H "qr-codes" localQRs w') as Hkeep.
    unfold setItem, try_catch in Hkeep. by rewrite Hsecure in Hkeep. }
  unfold backend in Hbackend. injection Hbackend as Hsdk Hdb _ _ _ _.
  set (w4 := with_localStorage (delete "qr-codes") w3) in *.
  assert (firebase_sdk w4 && database w4 = false) as Htier4.
  { unfold w4, with_localStorage. simpl. by rewrite Hsdk, Hdb. }
  unfold FirebaseManager.getQRCode, try_catch, bind at 1, FirebaseManager.uses_remote.
  rewrite Htier4.
  unfold FirebaseManager.load_local, bind. rewrite Hagain. simpl. by rewrite Hsame.
Qed.

End StoreVersions.

(** ** The upgrade on a concrete page *)

Section StoreVersionsExamples.

Import JS Model CryptoManager.
Open Scope string_scope.

(** A page on which the first version has stored nothing yet. *)
Lemma upgrade_keeps_records_witness :
  let H := Demo.host true 1000 in
  let w1 := snd (FirebaseManagerV1.createQRCode H "abc" 1700000000500 1700000000900
                   "https://example.org" "Demo" VNull Demo.offline) in
  fst (FirebaseManager.getQRCode H "abc" w1)
  = Ok (VObj [("id", VStr "abc"); ("name", VStr "Demo");
              ("originalText", VStr "https://example.org"); ("logoPath", VNull);
              ("scanCount", VNum 0); ("createdAt", VNum 1700000000500);
              ("lastScanned", VNull)]).
Proof.
  intros H w1.
  pose proof (upgrade_keeps_records H (demo_laws true 1000) "abc" "https://example.org"
                "Demo" VNull 1700000000500 1700000000900 Demo.offline []) as Hthm.
  destruct Hthm as [_ [_ [_ [Hnew _]]]].
  - reflexivity.
  - vm_compute. reflexivity.
  - vm_compute. reflexivity.
  - vm_compute. reflexivity.
  - exact Hnew.
Defined.

End StoreVersionsExamples.
